(** * Personal-finance widgets: cache, chart mapping, goals and persisted collections

    A shallow embedding of the parts of the repository that carry logic:

    - [Json]: JSON values and the platform's [JSON.parse] /
      [JSON.stringify] as an interface; [MiniJSON]: a small executable
      codec implementing it;
    - [Storage]: [safeParse], [safeStringify] and the per-collection
      [load] / [save] pairs of [scripts/storage.js], together with the
      module-level loaders of [scripts/goals.js] and the spending tracker;
    - [Cache]: [cacheStorage] of [scripts/storage.js];
    - [JSNum], [Chart]: the pixel mapping of [createStockChart]
      ([scripts/chart.js]) and [displayStockChart];
    - [Goals]: the goal list of [scripts/goals.js];
    - [Tracker]: the spending, income and goals tracker;
    - [ChartAxes]: the grid lines and axis labels of the two charts;
    - [ApiCache]: the cache utilities of the API module;
    - [StorageOps]: the settings and the record operations of
      [scripts/storage.js].  *)

From Stdlib Require Import ZArith QArith Qround Lia Lqa Ascii String.
From stdpp Require Import base gmap strings list fin_maps pretty.

Set Warnings "-register-all".
Local Close Scope Q_scope.
Local Open Scope Z_scope.

(** ** JSON values *)

Module Json.

(** A value that [JSON.parse] can produce.  Numbers are kept to the
    integers (every timestamp, duration and amount used below is one);
    an object is the list of its own properties in insertion order. *)
Inductive json : Type :=
  | JNull
  | JBool (b : bool)
  | JNum (n : Z)
  | JStr (s : string)
  | JArr (items : list json)
  | JObj (fields : list (string * json)).

(** The two built-ins the storage layer calls.  [JSON_parse] returns
    [None] where the built-in throws a [SyntaxError]. *)
Class JSON := {
  JSON_parse : string -> option json;
  JSON_stringify : json -> string
}.

(** The number a property key denotes when it is an array index: the
    decimal text, without leading zero, of an integer below 2^32 - 1. *)
Definition array_index (k : string) : option Z :=
  let digit (c : ascii) : option Z :=
    let n := Ascii.nat_of_ascii c in
    if (48 <=? n)%nat && (n <=? 57)%nat then Some (Z.of_nat (n - 48)) else None in
  match list_ascii_of_string k with
  | [] => None
  | c :: rest =>
      if Ascii.eqb c "0"%char && negb (bool_decide (rest = [])) then None
      else
        match foldl (λ acc c, n ← acc; d ← digit c; Some (10 * n + d)) (Some 0) (c :: rest) with
        | Some n => if n <? 4294967295 then Some n else None
        | None => None
        end
  end.

(** A new property whose key is the array index [i] takes its place
    among the leading index keys, in ascending order. *)
Fixpoint insert_index (i : Z) (k : string) (v : json) (fields : list (string * json))
    : list (string * json) :=
  match fields with
  | [] => [(k, v)]
  | (k', v') :: rest =>
      match array_index k' with
      | Some j => if i <? j then (k, v) :: fields else (k', v') :: insert_index i k v rest
      | None => (k, v) :: fields
      end
  end.

(** [obj[k] = v] on the property list, which lists the array-index keys
    first, in ascending order, and then the other keys in the order of
    their creation: an existing property keeps its place. *)
Definition set_field (k : string) (v : json) (fields : list (string * json))
    : list (string * json) :=
  if bool_decide (k ∈ fields.*1)
  then (λ kv, if String.eqb kv.1 k then (k, v) else kv) <$> fields
  else match array_index k with
       | Some i => insert_index i k v fields
       | None => fields ++ [(k, v)]
       end.

End Json.

(** ** The time-bounded cache ([cacheStorage], scripts/storage.js) *)

Module Cache.
Import Json.

(** [{ data, timestamp, ttl }] as [cacheStorage.set] builds it.  Times
    are epoch milliseconds; [ttl] is [None] for JavaScript's [null]. *)
Record CacheEntry : Type := {
  data : json;
  timestamp : Z;
  ttl : option Z
}.

(** A category is an object used as a map from key to entry; the cache
    is an object used as a map from category name to category.  A map
    holds the own properties of the object it stands for: it is the
    object for the names that [Object.prototype] does not define, the
    only ones at which the properties below call the operations with
    no entry stored; at the other names ([toString], [__proto__], ...)
    a read of the object also finds the inherited member and a write
    may not create a property. *)
Abbreviation CacheObj := (gmap string (gmap string CacheEntry)).

(** The slot of [localStorage] under [STORAGE_KEYS.CACHE]: absent, or
    the JSON text of a cache object, represented by the cache it
    denotes (the text is always written by [save] below). *)
Definition localStorage : Type := option CacheObj.

(** [cache[category][key]] *)
Definition entry_at (cache : CacheObj) (category key : string) : option CacheEntry :=
  cache !! category ≫= (.!! key).

(** [Object.keys(obj)] *)
Definition keys {A} (obj : gmap string A) : list string := (map_to_list obj).*1.

(** The condition [entry.ttl && Date.now() - entry.timestamp > entry.ttl]
    that [get] and [clearExpired] both test: a [null] or zero [ttl] is
    falsy, so the comparison is only reached for a non-zero [ttl]. *)
Definition ttl_expired (now : Z) (entry : CacheEntry) : bool :=
  match ttl entry with
  | Some t => negb (t =? 0) && (now - timestamp entry >? t)
  | None => false
  end.

Record Stats : Type := {
  totalEntries : nat;
  byCategory : gmap string nat
}.

Module cacheStorage.

Definition load (ls : localStorage) : CacheObj :=
  match ls with
  | Some cache => cache
  | None => <["stockPrices" := ∅]> (<["exchangeRates" := ∅]> (<["news" := ∅]> ∅))
  end.

(** The text of a cache object is never empty, so [save] stores it
    and returns [true]; a write refused by the browser (quota) is not
    modelled. *)
Definition save (cache : CacheObj) (ls : localStorage) : bool * localStorage :=
  (true, Some cache).

Definition set (category key : string) (value : json) (ttl : option Z)
    (now : Z) (ls : localStorage) : bool * localStorage :=
  let cache := load ls in
  let cache :=
    match cache !! category with
    | None => <[category := ∅]> cache
    | Some _ => cache
    end in
  let cache :=
    <[category := <[key := {| data := value; timestamp := now; ttl := ttl |}]>
                    (cache !!! category)]> cache in
  save cache ls.

Definition delete (category key : string) (ls : localStorage) : bool * localStorage :=
  let cache := load ls in
  match cache !! category with
  | Some entries =>
      match entries !! key with
      | Some _ => save (<[category := base.delete key entries]> cache) ls
      | None => (false, ls)
      end
  | None => (false, ls)
  end.

Definition get (category key : string) (now : Z) (ls : localStorage)
    : json * localStorage :=
  let cache := load ls in
  match cache !! category with
  | Some entries =>
      match entries !! key with
      | Some entry =>
          if ttl_expired now entry
          then (JNull, snd (delete category key ls))
          else (data entry, ls)
      | None => (JNull, ls)
      end
  | None => (JNull, ls)
  end.

Definition isValid (category key : string) (maxAge : Z) (now : Z)
    (ls : localStorage) : bool * localStorage :=
  let cache := load ls in
  match cache !! category with
  | Some entries =>
      match entries !! key with
      | Some entry => (now - timestamp entry <? maxAge, ls)
      | None => (false, ls)
      end
  | None => (false, ls)
  end.

Definition clearCategory (category : string) (ls : localStorage) : bool * localStorage :=
  save (<[category := ∅]> (load ls)) ls.

(** The body of the inner [forEach] of [clearExpired], on the live
    cache object and the running counter.  The sweep is taken to run
    within one reading [now] of the clock. *)
Definition sweep_key (now : Z) (category key : string)
    (acc : CacheObj * nat) : CacheObj * nat :=
  let '(cache, cleared) := acc in
  match entry_at cache category key with
  | Some entry =>
      if ttl_expired now entry
      then (<[category := base.delete key (cache !!! category)]> cache, S cleared)
      else (cache, cleared)
  | None => (cache, cleared)
  end.

(** The body of the outer [forEach]: the keys of the category are
    listed when the category is reached. *)
Definition sweep_category (now : Z) (acc : CacheObj * nat) (category : string)
    : CacheObj * nat :=
  foldl (λ acc key, sweep_key now category key acc) acc (keys (acc.1 !!! category)).

Definition clearExpired (now : Z) (ls : localStorage) : nat * localStorage :=
  let cache := load ls in
  let '(cache, cleared) := foldl (sweep_category now) (cache, 0%nat) (keys cache) in
  (cleared, snd (save cache ls)).

Definition clear (ls : localStorage) : bool * localStorage := (true, None).

(** The body of the [forEach] of [getStats]. *)
Definition stats_step (cache : CacheObj) (stats : Stats) (category : string) : Stats :=
  let count := length (keys (cache !!! category)) in
  {| totalEntries := totalEntries stats + count;
     byCategory := <[category := count]> (byCategory stats) |}.

Definition getStats (ls : localStorage) : Stats :=
  let cache := load ls in
  foldl (stats_step cache) {| totalEntries := 0; byCategory := ∅ |} (keys cache).

End cacheStorage.

(** *** Notions and sample stores used to state the properties *)

Import cacheStorage.

(** The entries of a cache, counted category by category. *)
Definition total (cache : CacheObj) : nat :=
  sum_list_with (λ kv, size kv.2) (map_to_list cache).

(** What the sweep leaves of a slot. *)
Definition keep (now : Z) (slot : option CacheEntry) : option CacheEntry :=
  match slot with
  | Some entry => if ttl_expired now entry then None else Some entry
  | None => None
  end.

(** A cache holding one quote, written by [set] at time 1000 with a
    time-to-live of one hour. *)
Definition quote_value : json := JObj [("price", JNum 150)].
Definition hour_store : localStorage :=
  (set "stockPrices" "AAPL" quote_value (Some 3600000) 1000 None).2.
Definition hour_entry : CacheEntry :=
  {| data := quote_value; timestamp := 1000; ttl := Some 3600000 |}.
(** The same with a time-to-live of zero. *)
Definition zero_store : localStorage :=
  (set "stockPrices" "AAPL" quote_value (Some 0) 1000 None).2.
Definition zero_entry : CacheEntry :=
  {| data := quote_value; timestamp := 1000; ttl := Some 0 |}.

End Cache.

(** ** JavaScript numbers *)

Module JSNum.

(** A JavaScript number with its arithmetic taken exactly: a rational,
    one of the two infinities, or NaN.  Rounding of the binary format is
    not modelled, and zero carries no sign (it divides as [+0], which is
    the zero that [length - 1] and [max - min] produce). *)
Inductive number : Type :=
  | Fin (q : Q)
  | PInf
  | NInf
  | NaN.

Definition of_Z (z : Z) : number := Fin (inject_Z z).
Definition of_nat (n : nat) : number := of_Z (Z.of_nat n).

Definition isFinite (a : number) : bool :=
  match a with Fin _ => true | _ => false end.

Definition isNaN (a : number) : bool :=
  match a with NaN => true | _ => false end.

Definition neg (a : number) : number :=
  match a with
  | Fin q => Fin (- q)
  | PInf => NInf
  | NInf => PInf
  | NaN => NaN
  end.

Definition add (a b : number) : number :=
  match a, b with
  | NaN, _ | _, NaN => NaN
  | Fin x, Fin y => Fin (x + y)
  | PInf, NInf | NInf, PInf => NaN
  | PInf, _ | _, PInf => PInf
  | NInf, _ | _, NInf => NInf
  end.

Definition sub (a b : number) : number := add a (neg b).

(** An infinity times a finite factor: NaN at zero, else by sign. *)
Definition scale_inf (inf : number) (x : Q) : number :=
  match (x ?= 0)%Q with
  | Eq => NaN
  | Gt => inf
  | Lt => neg inf
  end.

Definition mul (a b : number) : number :=
  match a, b with
  | NaN, _ | _, NaN => NaN
  | Fin x, Fin y => Fin (x * y)
  | Fin x, PInf | PInf, Fin x => scale_inf PInf x
  | Fin x, NInf | NInf, Fin x => scale_inf NInf x
  | PInf, PInf | NInf, NInf => PInf
  | PInf, NInf | NInf, PInf => NInf
  end.

Definition div (a b : number) : number :=
  match a, b with
  | NaN, _ | _, NaN => NaN
  | Fin x, Fin y =>
      match (y ?= 0)%Q with
      | Eq => scale_inf PInf x
      | _ => Fin (x / y)
      end
  | Fin _, PInf | Fin _, NInf => Fin 0
  | PInf, Fin y => if Qle_bool 0 y then PInf else NInf
  | NInf, Fin y => if Qle_bool 0 y then NInf else PInf
  | _, _ => NaN
  end.

(** [a < b] *)
Definition lt (a b : number) : bool :=
  match a, b with
  | NaN, _ | _, NaN => false
  | Fin x, Fin y => Qle_bool x y && negb (Qeq_bool x y)
  | NInf, NInf | PInf, _ | _, NInf => false
  | NInf, _ | _, PInf => true
  end.

(** [a > b] *)
Definition gt (a b : number) : bool := lt b a.

(** [a >= b] *)
Definition ge (a b : number) : bool :=
  match a, b with
  | NaN, _ | _, NaN => false
  | _, _ => negb (lt a b)
  end.

(** [a === b] *)
Definition strict_eq (a b : number) : bool :=
  match a, b with
  | Fin x, Fin y => Qeq_bool x y
  | PInf, PInf | NInf, NInf => true
  | _, _ => false
  end.

(** Truthiness: zero and NaN are falsy. *)
Definition truthy (a : number) : bool :=
  match a with
  | Fin q => negb (Qeq_bool q 0)
  | NaN => false
  | _ => true
  end.

(** [a || b] *)
Definition or_else (a b : number) : number := if truthy a then a else b.

(** [Math.min(a, b)] and [Math.max(a, b)]: NaN if either is. *)
Definition min2 (a b : number) : number :=
  match a, b with
  | NaN, _ | _, NaN => NaN
  | _, _ => if lt b a then b else a
  end.

Definition max2 (a b : number) : number :=
  match a, b with
  | NaN, _ | _, NaN => NaN
  | _, _ => if lt a b then b else a
  end.

(** [Math.min(...xs)] and [Math.max(...xs)] *)
Definition Math_min (xs : list number) : number := foldl min2 PInf xs.
Definition Math_max (xs : list number) : number := foldl max2 NInf xs.

(** [Math.round]: to the nearest integer, halves upwards. *)
Definition Math_round (a : number) : number :=
  match a with
  | Fin q => of_Z (Qfloor (q + (1 # 2)))
  | _ => a
  end.

(** [parseFloat] applied to a number (it reads the number's own text
    back, so it returns its argument). *)
Definition parseFloat (a : number) : number := a.

(** The text of a number inside a template literal, for the integers,
    the infinities and NaN; [None] for a fraction, whose digits depend
    on the binary format. *)
Definition toString (a : number) : option string :=
  match a with
  | Fin q =>
      let r := Qred q in
      if (Qden r =? 1)%positive then Some (pretty (Qnum r)) else None
  | PInf => Some "Infinity"
  | NInf => Some "-Infinity"
  | NaN => Some "NaN"
  end.

(** Equality of numbers as values (rationals up to [Qeq]). *)
Definition num_eq (a b : number) : Prop :=
  match a, b with
  | Fin x, Fin y => (x == y)%Q
  | PInf, PInf | NInf, NInf | NaN, NaN => True
  | _, _ => False
  end.

End JSNum.

(** ** The line-chart pixel mapping *)

Module Chart.
Import JSNum.

Record PricePoint : Type := {
  date : string;
  open : number;
  high : number;
  low : number;
  close : number;
  volume : number
}.

(** [canvas.width = 800; canvas.height = 400] in both renderers. *)
Definition canvas_width : number := of_Z 800.
Definition canvas_height : number := of_Z 400.

(** [padding + (chartWidth / (prices.length - 1)) * index] *)
Definition point_x (padding chartWidth : number) (n index : nat) : number :=
  add padding (mul (div chartWidth (sub (of_nat n) (of_Z 1))) (of_nat index)).

(** [padding + chartHeight - ((price - minPrice) / priceRange) * chartHeight] *)
Definition point_y (padding chartHeight minPrice priceRange price : number) : number :=
  sub (add padding chartHeight)
      (mul (div (sub price minPrice) priceRange) chartHeight).

(** [createStockChart] of scripts/chart.js: the points handed to
    [moveTo] / [lineTo], or [None] when the placeholder is shown. *)
Module createStockChart.

Definition padding : number := of_Z 50.
Definition chartWidth : number := sub canvas_width (mul padding (of_Z 2)).
Definition chartHeight : number := sub canvas_height (mul padding (of_Z 2)).

Definition prices (data : list PricePoint) : list number := map close (rev data).
Definition minPrice (data : list PricePoint) : number := Math_min (prices data).
Definition maxPrice (data : list PricePoint) : number := Math_max (prices data).
Definition priceRange (data : list PricePoint) : number :=
  sub (maxPrice data) (minPrice data).

Definition points (data : list PricePoint) : option (list (number * number)) :=
  match data with
  | [] => None
  | _ =>
      Some (imap (λ index price,
                    (point_x padding chartWidth (length (prices data)) index,
                     point_y padding chartHeight (minPrice data) (priceRange data) price))
                 (prices data))
  end.

End createStockChart.

(** [displayStockChart]: the same mapping with a padding of 60 and the
    guard [maxPrice - minPrice || 1]. *)
Module displayStockChart.

Definition padding : number := of_Z 60.
Definition chartWidth : number := sub canvas_width (mul padding (of_Z 2)).
Definition chartHeight : number := sub canvas_height (mul padding (of_Z 2)).

Definition prices (timeSeries : list PricePoint) : list number :=
  map close (rev timeSeries).
Definition minPrice (timeSeries : list PricePoint) : number := Math_min (prices timeSeries).
Definition maxPrice (timeSeries : list PricePoint) : number := Math_max (prices timeSeries).
Definition priceRange (timeSeries : list PricePoint) : number :=
  or_else (sub (maxPrice timeSeries) (minPrice timeSeries)) (of_Z 1).

Definition points (timeSeries : list PricePoint) : option (list (number * number)) :=
  match timeSeries with
  | [] => None
  | _ =>
      Some (imap (λ index price,
                    (point_x padding chartWidth (length (prices timeSeries)) index,
                     point_y padding chartHeight (minPrice timeSeries)
                             (priceRange timeSeries) price))
                 (prices timeSeries))
  end.

End displayStockChart.

(** *** Notions and sample series used to state the properties *)

(** [R] holds between every element of [ps] and the next. *)
Fixpoint chain (R : number -> number -> bool) (ps : list number) : bool :=
  match ps with
  | p1 :: rest =>
      match rest with
      | p2 :: _ => R p1 p2 && chain R rest
      | [] => true
      end
  | [] => true
  end.

(** Three days, newest first, closing at 12, 11 and 10. *)
Definition day (d : string) (c : Z) : PricePoint :=
  {| date := d; open := of_Z c; high := of_Z c; low := of_Z c;
     close := of_Z c; volume := of_Z 100 |}.
Definition rising_days : list PricePoint :=
  [day "2024-01-04" 12; day "2024-01-03" 11; day "2024-01-02" 10].

(** A day on which every price was 5. *)
Definition flat_day : PricePoint :=
  {| date := "2024-01-02"; open := of_Z 5; high := of_Z 5; low := of_Z 5;
     close := of_Z 5; volume := of_Z 100 |}.

(** [padding + chartHeight - ((q - m) / r) * chartHeight] on rationals. *)
Definition y_of (P H m r q : Q) : Q := (P + H + - ((q + - m) / r * H))%Q.

Definition padQ : Q := inject_Z 60.
Definition heightQ : Q := (inject_Z 400 + - (inject_Z 60 * inject_Z 2))%Q.

End Chart.

(** ** The savings goals of scripts/goals.js *)

Module Goals.
Import JSNum.

Record Goal : Type := {
  id : Z;                     (* [Date.now()] at creation *)
  name : string;
  targetAmount : number;
  currentProgress : number;
  deadline : option string;
  dateCreated : Z             (* the instant whose ISO text is stored *)
}.

(** The module-level array [goals] and the slot of [localStorage] under
    ['savingsGoals'], the latter represented by the list whose JSON text
    [saveGoals] wrote last. *)
Record State : Type := {
  goals : list Goal;
  savingsGoals : option (list Goal)
}.

Definition calculatePercentage (current target : number) : number :=
  if strict_eq target (of_Z 0) then of_Z 0
  else min2 (Math_round (mul (div current target) (of_Z 100))) (of_Z 100).

Definition saveGoals (st : State) : State :=
  {| goals := goals st; savingsGoals := Some (goals st) |}.

(** The text of the [goal-percentage] paragraph that [createGoalCard]
    writes: [`${percentage}% Complete`]. *)
Definition goal_percentage_text (goal : Goal) : option string :=
  (λ p, p +:+ "% Complete") <$>
    toString (calculatePercentage (currentProgress goal) (targetAmount goal)).

(** [deadline || null]: the empty string is falsy. *)
Definition or_null (deadline : option string) : option string :=
  match deadline with
  | Some d => if String.eqb d "" then None else Some d
  | None => None
  end.

Definition with_progress (p : number) (goal : Goal) : Goal :=
  {| id := id goal; name := name goal; targetAmount := targetAmount goal;
     currentProgress := p; deadline := deadline goal;
     dateCreated := dateCreated goal |}.

(** [goals.find(g => g.id === goalId)] *)
Definition find_goal (goalId : Z) (gs : list Goal) : option Goal :=
  List.find (λ g, id g =? goalId) gs.

(** An assignment to the object that [find] / [findIndex] returned:
    the first goal with that id is changed in place. *)
Fixpoint update_first (goalId : Z) (f : Goal -> Goal) (gs : list Goal) : list Goal :=
  match gs with
  | [] => []
  | g :: rest =>
      if id g =? goalId then f g :: rest else g :: update_first goalId f rest
  end.

Definition addGoal (name : string) (targetAmount currentProgress : number)
    (deadline : option string) (now : Z) (st : State) : Goal * State :=
  let goal :=
    {| id := now; name := name;
       targetAmount := parseFloat targetAmount;
       currentProgress := parseFloat currentProgress;
       deadline := or_null deadline;
       dateCreated := now |} in
  (goal, saveGoals {| goals := goals st ++ [goal]; savingsGoals := savingsGoals st |}).

Definition updateGoal (goalId : Z) (name : string)
    (targetAmount currentProgress : number) (deadline : option string)
    (st : State) : State :=
  match find_goal goalId (goals st) with
  | None => st
  | Some _ =>
      saveGoals
        {| goals :=
             update_first goalId
               (λ goal, {| id := id goal; name := name;
                           targetAmount := parseFloat targetAmount;
                           currentProgress := parseFloat currentProgress;
                           deadline := or_null deadline;
                           dateCreated := dateCreated goal |})
               (goals st);
           savingsGoals := savingsGoals st |}
  end.

(** [confirmed] is the answer of the [confirm] dialog. *)
Definition deleteGoal (goalId : Z) (confirmed : bool) (st : State) : State :=
  match find_goal goalId (goals st) with
  | None => st
  | Some _ =>
      if confirmed
      then saveGoals {| goals := filter (λ g, id g ≠ goalId) (goals st);
                        savingsGoals := savingsGoals st |}
      else st
  end.

Definition updateGoalProgress (goalId : Z) (newProgress : number) (st : State) : State :=
  match find_goal goalId (goals st) with
  | None => st
  | Some _ =>
      saveGoals
        {| goals := update_first goalId (with_progress (parseFloat newProgress)) (goals st);
           savingsGoals := savingsGoals st |}
  end.

Definition quickAddProgress (goalId : Z) (amount : number) (st : State) : State :=
  match find_goal goalId (goals st) with
  | None => st
  | Some _ =>
      saveGoals
        {| goals :=
             update_first goalId
               (λ goal,
                  let goal :=
                    with_progress (add (currentProgress goal) (parseFloat amount)) goal in
                  (* Don't exceed target *)
                  if gt (currentProgress goal) (targetAmount goal)
                  then with_progress (targetAmount goal) goal
                  else goal)
               (goals st);
           savingsGoals := savingsGoals st |}
  end.

Definition calculateTotalSavings (st : State) : number :=
  foldl (λ total goal, add total (currentProgress goal)) (of_Z 0) (goals st).

(** *** A sample goal *)

(** A goal of target 1000 with 250 saved. *)
Definition fund_goal : Goal :=
  {| id := 1; name := "Emergency Fund"; targetAmount := of_Z 1000;
     currentProgress := of_Z 250; deadline := None; dateCreated := 1 |}.

End Goals.

(** ** An executable JSON codec *)

Module MiniJSON.
Import Json.

Definition dquote : ascii := Ascii.ascii_of_nat 34.
Definition backslash : ascii := Ascii.ascii_of_nat 92.

Definition hex_digit (n : nat) : ascii :=
  Ascii.ascii_of_nat (if (n <? 10)%nat then 48 + n else 87 + n).

(** The escapes [JSON.stringify] writes inside a string. *)
Definition escape_char (c : ascii) : list ascii :=
  let n := Ascii.nat_of_ascii c in
  if (n =? 34)%nat then [backslash; dquote]
  else if (n =? 92)%nat then [backslash; backslash]
  else if (n =? 8)%nat then [backslash; "b"%char]
  else if (n =? 12)%nat then [backslash; "f"%char]
  else if (n =? 10)%nat then [backslash; "n"%char]
  else if (n =? 13)%nat then [backslash; "r"%char]
  else if (n =? 9)%nat then [backslash; "t"%char]
  else if (n <? 32)%nat
       then [backslash; "u"%char; "0"%char; "0"%char;
             hex_digit (n / 16); hex_digit (n mod 16)]
  else [c].

Definition quote (s : string) : list ascii :=
  dquote :: concat (map escape_char (list_ascii_of_string s)) ++ [dquote].

Fixpoint join (sep : list ascii) (parts : list (list ascii)) : list ascii :=
  match parts with
  | [] => []
  | [x] => x
  | x :: rest => x ++ sep ++ join sep rest
  end.

(** The compact text [JSON.stringify] writes. *)
Fixpoint print (v : json) : list ascii :=
  match v with
  | JNull => list_ascii_of_string "null"
  | JBool true => list_ascii_of_string "true"
  | JBool false => list_ascii_of_string "false"
  | JNum n => list_ascii_of_string (pretty n)
  | JStr s => quote s
  | JArr items => "["%char :: join [","%char] (map print items) ++ ["]"%char]
  | JObj fields =>
      "{"%char ::
        join [","%char] (map (λ kv, quote kv.1 ++ ":"%char :: print kv.2) fields)
        ++ ["}"%char]
  end.

Definition is_ws (c : ascii) : bool :=
  let n := Ascii.nat_of_ascii c in
  (n =? 32)%nat || (n =? 9)%nat || (n =? 10)%nat || (n =? 13)%nat.

Fixpoint skip_ws (s : list ascii) : list ascii :=
  match s with
  | c :: rest => if is_ws c then skip_ws rest else s
  | [] => []
  end.

(** [strip p s] is what follows the prefix [p] of [s]. *)
Fixpoint strip (p s : list ascii) : option (list ascii) :=
  match p, s with
  | [], _ => Some s
  | a :: p', b :: s' => if Ascii.eqb a b then strip p' s' else None
  | _ :: _, [] => None
  end.

Definition digit_value (c : ascii) : option Z :=
  let n := Ascii.nat_of_ascii c in
  if (48 <=? n)%nat && (n <=? 57)%nat then Some (Z.of_nat (n - 48)) else None.

Definition hex_value (c : ascii) : option nat :=
  let n := Ascii.nat_of_ascii c in
  if (48 <=? n)%nat && (n <=? 57)%nat then Some (n - 48)%nat
  else if (97 <=? n)%nat && (n <=? 102)%nat then Some (n - 87)%nat
  else if (65 <=? n)%nat && (n <=? 70)%nat then Some (n - 55)%nat
  else None.

Definition is_digit (c : ascii) : bool :=
  match digit_value c with Some _ => true | None => false end.

(** The digits at the head of [s], folded into [acc]. *)
Fixpoint read_digits (acc : Z) (s : list ascii) : Z * list ascii :=
  match s with
  | c :: rest =>
      match digit_value c with
      | Some d => read_digits (10 * acc + d) rest
      | None => (acc, s)
      end
  | [] => (acc, s)
  end.

(** An integer literal: an optional minus, then [0] or a digit string
    that does not start with [0].  A fraction or an exponent is outside
    the integers this model keeps and is refused. *)
Definition read_number (s : list ascii) : option (Z * list ascii) :=
  let '(sign, s) :=
    match s with
    | c :: rest => if Ascii.eqb c "-"%char then (-1, rest) else (1, s)
    | [] => (1, s)
    end in
  match s with
  | c :: rest =>
      match digit_value c with
      | Some d =>
          let '(n, rest') := if d =? 0 then (0, rest) else read_digits d rest in
          match rest' with
          | c' :: _ =>
              if is_digit c' || Ascii.eqb c' "."%char
                 || Ascii.eqb c' "e"%char || Ascii.eqb c' "E"%char
              then None else Some (sign * n, rest')
          | [] => Some (sign * n, rest')
          end
      | None => None
      end
  | [] => None
  end.

(** The characters of a string literal after its opening quote. *)
Fixpoint read_string (acc : list ascii) (s : list ascii)
    : option (string * list ascii) :=
  match s with
  | [] => None
  | c :: rest =>
      if Ascii.eqb c dquote then Some (string_of_list_ascii (rev acc), rest)
      else if Ascii.eqb c backslash then
        match rest with
        | e :: rest' =>
            let n := Ascii.nat_of_ascii e in
            if (n =? 34)%nat || (n =? 92)%nat || (n =? 47)%nat
            then read_string (e :: acc) rest'
            else if Ascii.eqb e "b"%char then read_string (Ascii.ascii_of_nat 8 :: acc) rest'
            else if Ascii.eqb e "f"%char then read_string (Ascii.ascii_of_nat 12 :: acc) rest'
            else if Ascii.eqb e "n"%char then read_string (Ascii.ascii_of_nat 10 :: acc) rest'
            else if Ascii.eqb e "r"%char then read_string (Ascii.ascii_of_nat 13 :: acc) rest'
            else if Ascii.eqb e "t"%char then read_string (Ascii.ascii_of_nat 9 :: acc) rest'
            else if Ascii.eqb e "u"%char then
              match rest' with
              | a :: b :: c1 :: c2 :: rest'' =>
                  match hex_value a, hex_value b, hex_value c1, hex_value c2 with
                  | Some 0%nat, Some 0%nat, Some h, Some l =>
                      read_string (Ascii.ascii_of_nat (16 * h + l) :: acc) rest''
                  | _, _, _, _ => None
                  end
              | _ => None
              end
            else None
        | [] => None
        end
      else if (Ascii.nat_of_ascii c <? 32)%nat then None
      else read_string (c :: acc) rest
  end.

Fixpoint read_value (fuel : nat) (s : list ascii) : option (json * list ascii) :=
  match fuel with
  | O => None
  | S fuel =>
      match skip_ws s with
      | [] => None
      | c :: rest =>
          if Ascii.eqb c dquote then
            '(str, rest') ← read_string [] rest; Some (JStr str, rest')
          else if Ascii.eqb c "["%char then
            match skip_ws rest with
            | c' :: rest' =>
                if Ascii.eqb c' "]"%char then Some (JArr [], rest')
                else read_items fuel [] rest
            | [] => None
            end
          else if Ascii.eqb c "{"%char then
            match skip_ws rest with
            | c' :: rest' =>
                if Ascii.eqb c' "}"%char then Some (JObj [], rest')
                else read_fields fuel [] rest
            | [] => None
            end
          else
            match strip (list_ascii_of_string "null") (c :: rest),
                  strip (list_ascii_of_string "true") (c :: rest),
                  strip (list_ascii_of_string "false") (c :: rest) with
            | Some r, _, _ => Some (JNull, r)
            | _, Some r, _ => Some (JBool true, r)
            | _, _, Some r => Some (JBool false, r)
            | _, _, _ => '(n, r) ← read_number (c :: rest); Some (JNum n, r)
            end
      end
  end
with read_items (fuel : nat) (acc : list json) (s : list ascii)
    : option (json * list ascii) :=
  match fuel with
  | O => None
  | S fuel =>
      '(v, rest) ← read_value fuel s;
      match skip_ws rest with
      | c :: rest' =>
          if Ascii.eqb c ","%char then read_items fuel (v :: acc) rest'
          else if Ascii.eqb c "]"%char then Some (JArr (rev (v :: acc)), rest')
          else None
      | [] => None
      end
  end
with read_fields (fuel : nat) (acc : list (string * json)) (s : list ascii)
    : option (json * list ascii) :=
  match fuel with
  | O => None
  | S fuel =>
      match skip_ws s with
      | q :: rest =>
          if Ascii.eqb q dquote then
            '(k, rest) ← read_string [] rest;
            match skip_ws rest with
            | c :: rest =>
                if Ascii.eqb c ":"%char then
                  '(v, rest) ← read_value fuel rest;
                  match skip_ws rest with
                  | c' :: rest' =>
                      if Ascii.eqb c' ","%char
                      then read_fields fuel (set_field k v acc) rest'
                      else if Ascii.eqb c' "}"%char
                      then Some (JObj (set_field k v acc), rest')
                      else None
                  | [] => None
                  end
                else None
            | [] => None
            end
          else None
      | [] => None
      end
  end.

Definition parse (s : string) : option json :=
  let cs := list_ascii_of_string s in
  '(v, rest) ← read_value (2 * length cs + 2) cs;
  match skip_ws rest with
  | [] => Some v
  | _ :: _ => None
  end.

Definition stringify (v : json) : string := string_of_list_ascii (print v).

(** The codec as an implementation of the two built-ins. *)
Definition codec : JSON :=
  {| JSON_parse := parse; JSON_stringify := stringify |}.

End MiniJSON.

(** ** Persisted collections (scripts/storage.js and the module-level loaders) *)

Module Storage.
Import Json.

(** The browser's [localStorage]: string keys, string values. *)
Abbreviation localStorage := (gmap string string).

Definition getItem (key : string) (ls : localStorage) : option string := ls !! key.
Definition setItem (key value : string) (ls : localStorage) : localStorage :=
  <[key := value]> ls.
Definition removeItem (key : string) (ls : localStorage) : localStorage :=
  delete key ls.

Module STORAGE_KEYS.
Definition PORTFOLIO : string := "finance_portfolio_holdings".
Definition TRANSACTIONS : string := "finance_transactions".
Definition EXPENSES : string := "finance_expenses".
Definition GOALS : string := "finance_savings_goals".
Definition SETTINGS : string := "finance_user_settings".
Definition CACHE : string := "finance_api_cache".
End STORAGE_KEYS.

(** [data ? JSON.parse(data) : defaultValue] inside [try], with the
    [catch] returning [defaultValue]: [null] and the empty string are
    falsy. *)
Definition safeParse `{JSON} (data : option string) (defaultValue : json) : json :=
  match data with
  | Some text =>
      if String.eqb text "" then defaultValue
      else match JSON_parse text with
           | Some value => value
           | None => defaultValue
           end
  | None => defaultValue
  end.

(** [JSON.stringify] of a JSON value does not throw, so the [catch] of
    [safeStringify] is never taken here; [None] stands for its [null]. *)
Definition safeStringify `{JSON} (data : json) : option string :=
  Some (JSON_stringify data).

(** [if (data) { localStorage.setItem(key, data); return true; } return false;] *)
Definition store_if_truthy (key : string) (data : option string) (ls : localStorage)
    : bool * localStorage :=
  match data with
  | Some text =>
      if String.eqb text "" then (false, ls) else (true, setItem key text ls)
  | None => (false, ls)
  end.

Module portfolioStorage.
Definition load `{JSON} (ls : localStorage) : json :=
  let data := getItem STORAGE_KEYS.PORTFOLIO ls in
  safeParse data (JArr []).
Definition save `{JSON} (holdings : json) (ls : localStorage) : bool * localStorage :=
  let data := safeStringify holdings in
  store_if_truthy STORAGE_KEYS.PORTFOLIO data ls.
End portfolioStorage.

Module transactionStorage.
Definition load `{JSON} (ls : localStorage) : json :=
  let data := getItem STORAGE_KEYS.TRANSACTIONS ls in
  safeParse data (JArr []).
Definition save `{JSON} (transactions : json) (ls : localStorage) : bool * localStorage :=
  let data := safeStringify transactions in
  store_if_truthy STORAGE_KEYS.TRANSACTIONS data ls.
End transactionStorage.

Module expenseStorage.
Definition load `{JSON} (ls : localStorage) : json :=
  let data := getItem STORAGE_KEYS.EXPENSES ls in
  safeParse data (JArr []).
Definition save `{JSON} (expenses : json) (ls : localStorage) : bool * localStorage :=
  let data := safeStringify expenses in
  store_if_truthy STORAGE_KEYS.EXPENSES data ls.
End expenseStorage.

Module goalStorage.
Definition load `{JSON} (ls : localStorage) : json :=
  let data := getItem STORAGE_KEYS.GOALS ls in
  safeParse data (JArr []).
Definition save `{JSON} (goals : json) (ls : localStorage) : bool * localStorage :=
  let data := safeStringify goals in
  store_if_truthy STORAGE_KEYS.GOALS data ls.
End goalStorage.

(** The own enumerable properties that a spread [...v] copies: the
    fields of an object, the indexed items of an array, the indexed
    characters of a string, nothing for the other values. *)
Definition own_properties (v : json) : list (string * json) :=
  match v with
  | JObj fields => fields
  | JArr items => imap (λ i item, (pretty i, item)) items
  | JStr text =>
      imap (λ i c, (pretty i, JStr (String c EmptyString))) (list_ascii_of_string text)
  | _ => []
  end.

(** [{ ...a, ...b }]: the properties are defined one after the other. *)
Definition spread2 (a b : json) : json :=
  JObj (foldl (λ fields kv, set_field kv.1 kv.2 fields) []
              (own_properties a ++ own_properties b)).

Module settingsStorage.
Definition defaults : json :=
  JObj [("currency", JStr "USD"); ("theme", JStr "light");
        ("refreshInterval", JNum 60000); ("dateFormat", JStr "MM/DD/YYYY");
        ("language", JStr "en")].
Definition load `{JSON} (ls : localStorage) : json :=
  let data := getItem STORAGE_KEYS.SETTINGS ls in
  let settings := safeParse data (JObj []) in
  spread2 defaults settings.
Definition save `{JSON} (settings : json) (ls : localStorage) : bool * localStorage :=
  let data := safeStringify settings in
  store_if_truthy STORAGE_KEYS.SETTINGS data ls.
End settingsStorage.

(** [cacheStorage.load] as it reads the stored text (the module [Cache]
    works on the cache object this text denotes). *)
Module cacheStorage.
Definition load `{JSON} (ls : localStorage) : json :=
  let data := getItem STORAGE_KEYS.CACHE ls in
  safeParse data (JObj [("stockPrices", JObj []); ("exchangeRates", JObj []);
                        ("news", JObj [])]).
End cacheStorage.

(** What evaluating an expression that may throw yields. *)
Inductive completion (A : Type) : Type :=
  | Normal (value : A)
  | ThrowSyntaxError.
Arguments Normal {A} value.
Arguments ThrowSyntaxError {A}.

(** Truthiness of a parsed value: [null], [false], [0] and the empty
    string are falsy. *)
Definition json_truthy (v : json) : bool :=
  match v with
  | JNull => false
  | JBool b => b
  | JNum n => negb (n =? 0)
  | JStr text => negb (String.eqb text "")
  | JArr _ | JObj _ => true
  end.

(** [JSON.parse(localStorage.getItem(key)) || []], the initialiser of
    the module-level arrays.  With no item under [key] the argument is
    [null], which [JSON.parse] converts to the text ["null"]; nothing
    catches a [SyntaxError]. *)
Definition parse_or_empty `{JSON} (key : string) (ls : localStorage) : completion json :=
  let text :=
    match getItem key ls with
    | Some text => text
    | None => "null"
    end in
  match JSON_parse text with
  | Some value => Normal (if json_truthy value then value else JArr [])
  | None => ThrowSyntaxError
  end.

(** [let goals = ...] of scripts/goals.js *)
Definition goals `{JSON} (ls : localStorage) : completion json :=
  parse_or_empty "savingsGoals" ls.

(** [let spendingItems = ...], [let savingsGoals = ...] and
    [let incomeItems = ...] of the spending tracker *)
Definition spendingItems `{JSON} (ls : localStorage) : completion json :=
  parse_or_empty "spendingItems" ls.
Definition savingsGoals `{JSON} (ls : localStorage) : completion json :=
  parse_or_empty "savingsGoals" ls.
Definition incomeItems `{JSON} (ls : localStorage) : completion json :=
  parse_or_empty "incomeItems" ls.

(** *** Sample values *)

(** Two holdings of different shapes. *)
Definition two_records : json :=
  JArr [JObj [("id", JStr "1700000000000_k3j9x2a1b");
              ("symbol", JStr "AAPL"); ("quantity", JNum 10);
              ("avgCost", JNum 150); ("purchaseDate", JStr "2024-01-02")];
        JObj [("id", JStr "1700000000001_zz81hq0pd");
              ("symbol", JStr "MSFT"); ("quantity", JNum (-3));
              ("notes", JStr "split lot"); ("tags", JArr [JNull; JBool true])]].


End Storage.

(** ** The spending, income and goals tracker *)

Module Tracker.
Import JSNum.

Record SpendingItem : Type := {
  s_id : Z;                   (* [Date.now()] at creation *)
  s_description : string;
  s_amount : number;
  s_category : string;
  s_date : Z                  (* the instant whose ISO text is stored *)
}.

Record IncomeItem : Type := {
  i_id : Z;
  i_description : string;
  i_amount : number;
  i_source : string;
  i_date : Z
}.

Record SavingsGoal : Type := {
  g_id : Z;
  g_name : string;
  g_targetAmount : number;
  g_currentProgress : number;
  g_dateCreated : Z
}.

(** The three module-level arrays, the three items of [localStorage]
    that [saveToLocalStorage] writes (each represented by the list whose
    JSON text was written last), and the values standing in the fields
    of the spending form. *)
Record State : Type := {
  spendingItems : list SpendingItem;
  savingsGoals : list SavingsGoal;
  incomeItems : list IncomeItem;
  stored_spendingItems : option (list SpendingItem);
  stored_savingsGoals : option (list SavingsGoal);
  stored_incomeItems : option (list IncomeItem);
  spending_form : option (string * number * string)
}.

(** [calculatePercentage] of the tracker: no test of the target. *)
Definition calculatePercentage (current target : number) : number :=
  min2 (Math_round (mul (div current target) (of_Z 100))) (of_Z 100).

Definition saveToLocalStorage (st : State) : State :=
  {| spendingItems := spendingItems st;
     savingsGoals := savingsGoals st;
     incomeItems := incomeItems st;
     stored_spendingItems := Some (spendingItems st);
     stored_savingsGoals := Some (savingsGoals st);
     stored_incomeItems := Some (incomeItems st);
     spending_form := spending_form st |}.

Definition with_spendingItems (items : list SpendingItem) (st : State) : State :=
  {| spendingItems := items;
     savingsGoals := savingsGoals st;
     incomeItems := incomeItems st;
     stored_spendingItems := stored_spendingItems st;
     stored_savingsGoals := stored_savingsGoals st;
     stored_incomeItems := stored_incomeItems st;
     spending_form := spending_form st |}.

Definition with_incomeItems (items : list IncomeItem) (st : State) : State :=
  {| spendingItems := spendingItems st;
     savingsGoals := savingsGoals st;
     incomeItems := items;
     stored_spendingItems := stored_spendingItems st;
     stored_savingsGoals := stored_savingsGoals st;
     stored_incomeItems := stored_incomeItems st;
     spending_form := spending_form st |}.

Definition with_savingsGoals (gs : list SavingsGoal) (st : State) : State :=
  {| spendingItems := spendingItems st;
     savingsGoals := gs;
     incomeItems := incomeItems st;
     stored_spendingItems := stored_spendingItems st;
     stored_savingsGoals := stored_savingsGoals st;
     stored_incomeItems := stored_incomeItems st;
     spending_form := spending_form st |}.

Definition with_spending_form (f : option (string * number * string)) (st : State) : State :=
  {| spendingItems := spendingItems st;
     savingsGoals := savingsGoals st;
     incomeItems := incomeItems st;
     stored_spendingItems := stored_spendingItems st;
     stored_savingsGoals := stored_savingsGoals st;
     stored_incomeItems := stored_incomeItems st;
     spending_form := f |}.

Definition addSpendingItem (description : string) (amount : number) (category : string)
    (now : Z) (st : State) : State :=
  let item := {| s_id := now; s_description := description;
                 s_amount := parseFloat amount; s_category := category;
                 s_date := now |} in
  saveToLocalStorage (with_spendingItems (spendingItems st ++ [item]) st).

(** [confirm] is the second argument; [answer] is what the user replies
    to [window.confirm], which is asked only when [confirm] is true.
    The table and the dashboard that are redrawn afterwards hold no
    state of their own. *)
Definition deleteSpendingItem (id : Z) (confirm answer : bool) (st : State) : State :=
  if confirm && negb answer then st
  else saveToLocalStorage
         (with_spendingItems (filter (λ item, s_id item ≠ id) (spendingItems st)) st).

(** On the spending page, whose form has the three fields. *)
Definition editSpendingItem (id : Z) (st : State) : State :=
  match List.find (λ i, s_id i =? id) (spendingItems st) with
  | None => st
  | Some item =>
      let st := with_spending_form
                  (Some (s_description item, s_amount item, s_category item)) st in
      deleteSpendingItem id false false st
  end.

Definition addIncomeItem (description : string) (amount : number) (source : string)
    (now : Z) (st : State) : State :=
  let item := {| i_id := now; i_description := description;
                 i_amount := parseFloat amount; i_source := source;
                 i_date := now |} in
  saveToLocalStorage (with_incomeItems (incomeItems st ++ [item]) st).

Definition addSavingsGoal (name : string) (targetAmount currentProgress : number)
    (now : Z) (st : State) : State :=
  let goal := {| g_id := now; g_name := name;
                 g_targetAmount := parseFloat targetAmount;
                 g_currentProgress := parseFloat currentProgress;
                 g_dateCreated := now |} in
  saveToLocalStorage (with_savingsGoals (savingsGoals st ++ [goal]) st).

(** The totals of [updateDashboard]. *)
Definition totalIncome (st : State) : number :=
  foldl (λ sum item, add sum (i_amount item)) (of_Z 0) (incomeItems st).
Definition totalExpenses (st : State) : number :=
  foldl (λ sum item, add sum (s_amount item)) (of_Z 0) (spendingItems st).
Definition goalsSavings (st : State) : number :=
  foldl (λ sum goal, add sum (g_currentProgress goal)) (of_Z 0) (savingsGoals st).
(** [goalsSavings + (totalIncome - totalExpenses)] *)
Definition totalSavings (st : State) : number :=
  add (goalsSavings st) (sub (totalIncome st) (totalExpenses st)).

(** A tracker with one goal, one income and two expenses. *)
Definition sample : State :=
  {| spendingItems :=
       [ {| s_id := 11; s_description := "rent"; s_amount := of_Z 900;
            s_category := "housing"; s_date := 11 |};
         {| s_id := 12; s_description := "food"; s_amount := of_Z 60;
            s_category := "groceries"; s_date := 12 |} ];
     savingsGoals :=
       [ {| g_id := 5; g_name := "Emergency Fund"; g_targetAmount := of_Z 1000;
            g_currentProgress := of_Z 250; g_dateCreated := 5 |} ];
     incomeItems :=
       [ {| i_id := 7; i_description := "salary"; i_amount := of_Z 2000;
            i_source := "job"; i_date := 7 |} ];
     stored_spendingItems := None;
     stored_savingsGoals := None;
     stored_incomeItems := None;
     spending_form := None |}.

End Tracker.

(** ** Grid lines and axis labels of the chart *)

Module ChartAxes.
Import JSNum Chart.

(** The body of [for (let i = 0; i <= 5; i++)]: the pixel row of the
    [i]-th grid line, [padding + (chartHeight / 5) * i], and the price
    written beside it, [maxPrice - (priceRange / 5) * i]. *)
Definition grid_line (padding chartHeight maxPrice priceRange : number) (i : nat)
    : number * number :=
  (add padding (mul (div chartHeight (of_Z 5)) (of_nat i)),
   sub maxPrice (mul (div priceRange (of_Z 5)) (of_nat i))).

Definition createStockChart_grid (data : list PricePoint) : list (number * number) :=
  map (grid_line createStockChart.padding createStockChart.chartHeight
                 (createStockChart.maxPrice data) (createStockChart.priceRange data))
      (seq 0 6).

Definition displayStockChart_grid (timeSeries : list PricePoint) : list (number * number) :=
  map (grid_line displayStockChart.padding displayStockChart.chartHeight
                 (displayStockChart.maxPrice timeSeries)
                 (displayStockChart.priceRange timeSeries))
      (seq 0 6).

(** [padding + (chartWidth / (n - 1)) * index] on rationals. *)
Definition x_of (P W : Q) (n index : nat) : Q :=
  (P + W / (inject_Z (Z.of_nat n) + - inject_Z 1) * inject_Z (Z.of_nat index))%Q.

End ChartAxes.

(** ** The API response cache (cache utility functions of the API module) *)

Module ApiCache.
Import Json JSNum Storage.

(** What a call yields: its return value, or the exception it throws. *)
Inductive outcome (A : Type) : Type :=
  | Returned (value : A)
  | SyntaxError
  | TypeError.
Arguments Returned {A} value.
Arguments SyntaxError {A}.
Arguments TypeError {A}.

(** The platform's conversion of a parsed value that is not a number
    to a number ([TypeError] where the conversion throws). *)
Class Conversions := {
  ToNumber : json -> outcome number
}.

(** [data.k] for a key [k] that no prototype defines: [None] is
    [undefined]; reading a property of [null] throws. *)
Definition get_property (k : string) (data : json) : outcome (option json) :=
  match data with
  | JNull => TypeError
  | JObj fields => Returned (snd <$> List.find (λ kv, String.eqb kv.1 k) fields)
  | _ => Returned None
  end.

(** The right operand of [now - data.timestamp] as a number. *)
Definition to_number `{Conversions} (v : option json) : outcome number :=
  match v with
  | None => Returned NaN
  | Some (JNum n) => Returned (of_Z n)
  | Some v => ToNumber v
  end.

(** [isCacheValid(cacheKey, expiryHours)] evaluated at the clock
    reading [now]. *)
Definition isCacheValid `{JSON} `{Conversions}
    (cacheKey : string) (expiryHours : number) (now : Z) (ls : localStorage)
    : outcome bool :=
  match getItem cacheKey ls with
  | None => Returned false
  | Some cached =>
      if String.eqb cached "" then Returned false
      else
        match JSON_parse cached with
        | None => SyntaxError
        | Some data =>
            match get_property "timestamp" data with
            | Returned stamp =>
                match to_number stamp with
                | Returned t =>
                    let cacheAge := sub (of_Z now) t in
                    let expiryTime :=
                      mul (mul (mul expiryHours (of_Z 60)) (of_Z 60)) (of_Z 1000) in
                    Returned (lt cacheAge expiryTime)
                | SyntaxError => SyntaxError
                | TypeError => TypeError
                end
            | SyntaxError => SyntaxError
            | TypeError => TypeError
            end
        end
  end.

(** [getFromCache(cacheKey)]: [Some JNull] is [null], [None] is
    [undefined]. *)
Definition getFromCache `{JSON} (cacheKey : string) (ls : localStorage)
    : outcome (option json) :=
  match getItem cacheKey ls with
  | None => Returned (Some JNull)
  | Some cached =>
      if String.eqb cached "" then Returned (Some JNull)
      else
        match JSON_parse cached with
        | None => SyntaxError
        | Some data => get_property "value" data
        end
  end.

(** [saveToCache(cacheKey, value)] at the clock reading [now]. *)
Definition saveToCache `{JSON} (cacheKey : string) (value : json) (now : Z)
    (ls : localStorage) : localStorage :=
  let cacheData := JObj [("timestamp", JNum now); ("value", value)] in
  setItem cacheKey (JSON_stringify cacheData) ls.

(** [Object.keys(localStorage)]: the keys of the stored items.  The
    callers below treat every key on its own, so the order of the list
    does not show in their results. *)
Definition Object_keys (ls : localStorage) : list string := (map_to_list ls).*1.

(** [key.startsWith(p)] *)
Definition startsWith (key p : string) : bool := String.prefix p key.

(** [clearAllCaches()] *)
Definition clearAllCaches (ls : localStorage) : localStorage :=
  let keys := Object_keys ls in
  foldl (λ ls key,
           if startsWith key "stock_" || startsWith key "news_"
              || startsWith key "exchange_"
           then removeItem key ls
           else ls)
        ls keys.

Record CacheStats : Type := {
  stock : nat;
  news : nat;
  exchange : nat;
  total : nat
}.

(** [getCacheStats()] *)
Definition getCacheStats (ls : localStorage) : CacheStats :=
  let keys := Object_keys ls in
  let stats := {| stock := 0; news := 0; exchange := 0; total := 0 |} in
  let stats :=
    foldl (λ stats key,
             let stats :=
               if startsWith key "stock_"
               then {| stock := S (stock stats); news := news stats;
                       exchange := exchange stats; total := total stats |}
               else stats in
             let stats :=
               if startsWith key "news_"
               then {| stock := stock stats; news := S (news stats);
                       exchange := exchange stats; total := total stats |}
               else stats in
             if startsWith key "exchange_"
             then {| stock := stock stats; news := news stats;
                     exchange := S (exchange stats); total := total stats |}
             else stats)
          stats keys in
  {| stock := stock stats; news := news stats; exchange := exchange stats;
     total := (stock stats + news stats + exchange stats)%nat |}.

(** The test of [clearAllCaches] on one key. *)
Definition is_api_key (key : string) : bool :=
  startsWith key "stock_" || startsWith key "news_" || startsWith key "exchange_".

(** The number of the listed keys on which [p] holds. *)
Definition count (p : string → bool) (keys : list string) : nat :=
  length (List.filter p keys).

(** A quote cached for one symbol. *)
Definition ibm_quote : json := JObj [("symbol", JStr "IBM"); ("price", JNum 187)].

End ApiCache.

(** ** The record operations of scripts/storage.js *)

Module StorageOps.
Import Json Storage.

(** What a call yields: its return value, or the [TypeError] that
    leaves it. *)
Inductive outcome (A : Type) : Type :=
  | Returned (value : A)
  | TypeError.
Arguments Returned {A} value.
Arguments TypeError {A}.

#[export] Instance json_inhabited : Inhabited json := populate JNull.

(** The own property [k] of an object. *)
Definition field (k : string) (fields : list (string * json)) : option json :=
  snd <$> List.find (λ kv, String.eqb kv.1 k) fields.

(** [h.k] for a key [k] that no prototype defines ([id] here): [None]
    is [undefined]; reading a property of [null] throws. *)
Definition get_property (k : string) (h : json) : outcome (option json) :=
  match h with
  | JNull => TypeError
  | JObj fields => Returned (field k fields)
  | _ => Returned None
  end.

(** [a === b] between a value read from the parsed store and an
    argument of the call: a parsed object or array is a fresh
    reference, equal to no argument. *)
Definition strict_equal (a : option json) (b : json) : bool :=
  match a, b with
  | Some JNull, JNull => true
  | Some (JBool x), JBool y => Bool.eqb x y
  | Some (JNum x), JNum y => x =? y
  | Some (JStr x), JStr y => String.eqb x y
  | _, _ => false
  end.

(** [items.filter(h => h.id !== id)] *)
Fixpoint without_id (id : json) (items : list json) : outcome (list json) :=
  match items with
  | [] => Returned []
  | h :: rest =>
      match get_property "id" h with
      | TypeError => TypeError
      | Returned h_id =>
          match without_id id rest with
          | TypeError => TypeError
          | Returned kept =>
              Returned (if negb (strict_equal h_id id) then h :: kept else kept)
          end
      end
  end.

(** [items.findIndex(h => h.id === id)]: [None] is [-1]. *)
Fixpoint findIndex_id (id : json) (items : list json) : outcome (option nat) :=
  match items with
  | [] => Returned None
  | h :: rest =>
      match get_property "id" h with
      | TypeError => TypeError
      | Returned h_id =>
          if strict_equal h_id id then Returned (Some 0%nat)
          else match findIndex_id id rest with
               | Returned (Some i) => Returned (Some (S i))
               | other => other
               end
      end
  end.

(** [{ ...a, ...b, updatedAt: now }] *)
Definition spread_updated (a b : json) (now : string) : json :=
  JObj (foldl (λ fields kv, set_field kv.1 kv.2 fields) []
              (own_properties a ++ own_properties b ++ [("updatedAt", JStr now)])).

(** The body shared by the [delete(id)] methods: the loaded value has a
    [filter] method only when it is an array. *)
Definition delete_from (loaded : json) (id : json)
    (save : json → localStorage → bool * localStorage) (ls : localStorage)
    : outcome (bool * localStorage) :=
  match loaded with
  | JArr items =>
      match without_id id items with
      | Returned filtered => Returned (save (JArr filtered) ls)
      | TypeError => TypeError
      end
  | _ => TypeError
  end.

(** The body shared by the [update(id, updates)] methods, at the clock
    reading [now] (the text of [new Date().toISOString()]). *)
Definition update_in (loaded : json) (id updates : json) (now : string)
    (save : json → localStorage → bool * localStorage) (ls : localStorage)
    : outcome (bool * localStorage) :=
  match loaded with
  | JArr items =>
      match findIndex_id id items with
      | Returned (Some index) =>
          let updated := spread_updated (items !!! index) updates now in
          Returned (save (JArr (<[index := updated]> items)) ls)
      | Returned None => Returned (false, ls)
      | TypeError => TypeError
      end
  | _ => TypeError
  end.

Module portfolioStorage.
Definition update `{JSON} (id updates : json) (now : string) (ls : localStorage) :=
  update_in (portfolioStorage.load ls) id updates now portfolioStorage.save ls.
Definition delete `{JSON} (id : json) (ls : localStorage) :=
  delete_from (portfolioStorage.load ls) id portfolioStorage.save ls.
Definition clear (ls : localStorage) : bool * localStorage :=
  (true, removeItem STORAGE_KEYS.PORTFOLIO ls).
End portfolioStorage.

Module transactionStorage.
Definition delete `{JSON} (id : json) (ls : localStorage) :=
  delete_from (transactionStorage.load ls) id transactionStorage.save ls.
Definition clear (ls : localStorage) : bool * localStorage :=
  (true, removeItem STORAGE_KEYS.TRANSACTIONS ls).
End transactionStorage.

Module expenseStorage.
Definition update `{JSON} (id updates : json) (now : string) (ls : localStorage) :=
  update_in (expenseStorage.load ls) id updates now expenseStorage.save ls.
Definition delete `{JSON} (id : json) (ls : localStorage) :=
  delete_from (expenseStorage.load ls) id expenseStorage.save ls.
Definition clear (ls : localStorage) : bool * localStorage :=
  (true, removeItem STORAGE_KEYS.EXPENSES ls).
End expenseStorage.

Module goalStorage.
Definition update `{JSON} (id updates : json) (now : string) (ls : localStorage) :=
  update_in (goalStorage.load ls) id updates now goalStorage.save ls.
Definition delete `{JSON} (id : json) (ls : localStorage) :=
  delete_from (goalStorage.load ls) id goalStorage.save ls.
Definition clear (ls : localStorage) : bool * localStorage :=
  (true, removeItem STORAGE_KEYS.GOALS ls).
End goalStorage.

(** The property list a spread builds from the listed pairs, each
    defined in turn on the properties so far. *)
Definition build (acc pairs : list (string * json)) : list (string * json) :=
  foldl (λ fields kv, set_field kv.1 kv.2 fields) acc pairs.

(** The names [Object.prototype] defines. *)
Definition Object_prototype : list string :=
  ["constructor"; "__defineGetter__"; "__defineSetter__"; "hasOwnProperty";
   "__lookupGetter__"; "__lookupSetter__"; "isPrototypeOf"; "propertyIsEnumerable";
   "toString"; "valueOf"; "__proto__"; "toLocaleString"].

(** What [settings[key]] reads from a plain object. *)
Inductive property_value : Type :=
  | Own (value : json)
  | Inherited
  | Undefined.

Definition read (key : string) (fields : list (string * json)) : property_value :=
  match field key fields with
  | Some value => Own value
  | None => if bool_decide (key ∈ Object_prototype) then Inherited else Undefined
  end.

(** [settings[key] = value] on a plain object: an own property is
    overwritten; otherwise the key [__proto__] reaches the setter of
    [Object.prototype], which creates no property, and any other key
    becomes a new own property. *)
Definition assign (key : string) (value : json) (fields : list (string * json))
    : list (string * json) :=
  if String.eqb key "__proto__" && negb (bool_decide (key ∈ fields.*1))
  then fields
  else set_field key value fields.

Module settingsStorage.
(** [load] returns the object a spread builds; [settings_fields] is
    its property list. *)
Definition settings_fields `{JSON} (ls : localStorage) : list (string * json) :=
  own_properties (settingsStorage.load ls).
Definition update `{JSON} (key : string) (value : json) (ls : localStorage)
    : bool * localStorage :=
  let settings := settings_fields ls in
  let settings := assign key value settings in
  settingsStorage.save (JObj settings) ls.
Definition get `{JSON} (key : string) (ls : localStorage) : property_value :=
  let settings := settings_fields ls in
  read key settings.
Definition clear (ls : localStorage) : bool * localStorage :=
  (true, removeItem STORAGE_KEYS.SETTINGS ls).
End settingsStorage.

Module cacheStorage.
Definition clear (ls : localStorage) : bool * localStorage :=
  (true, removeItem STORAGE_KEYS.CACHE ls).
End cacheStorage.

(** [if (data.k) save(data.k);] for a [data] that is not [null] *)
Definition import_section (k : string) (save : json → localStorage → bool * localStorage)
    (data : json) (ls : localStorage) : localStorage :=
  match get_property k data with
  | Returned (Some value) => if json_truthy value then (save value ls).2 else ls
  | _ => ls
  end.

Module storageUtils.
(** [exportData()] at the clock reading whose ISO text is [now]. *)
Definition exportData `{JSON} (now : string) (ls : localStorage) : json :=
  JObj [("portfolio", Storage.portfolioStorage.load ls);
        ("transactions", Storage.transactionStorage.load ls);
        ("expenses", Storage.expenseStorage.load ls);
        ("goals", Storage.goalStorage.load ls);
        ("settings", Storage.settingsStorage.load ls);
        ("exportDate", JStr now)].

(** [importData(data)]: reading [data.portfolio] of [null] throws
    before anything is saved, and the handler returns false. *)
Definition importData `{JSON} (data : json) (ls : localStorage) : bool * localStorage :=
  match data with
  | JNull => (false, ls)
  | _ =>
      let ls := import_section "portfolio" Storage.portfolioStorage.save data ls in
      let ls := import_section "transactions" Storage.transactionStorage.save data ls in
      let ls := import_section "expenses" Storage.expenseStorage.save data ls in
      let ls := import_section "goals" Storage.goalStorage.save data ls in
      let ls := import_section "settings" Storage.settingsStorage.save data ls in
      (true, ls)
  end.

Definition clearAll (ls : localStorage) : bool * localStorage :=
  let ls := (portfolioStorage.clear ls).2 in
  let ls := (transactionStorage.clear ls).2 in
  let ls := (expenseStorage.clear ls).2 in
  let ls := (goalStorage.clear ls).2 in
  let ls := (settingsStorage.clear ls).2 in
  let ls := (cacheStorage.clear ls).2 in
  (true, ls).
End storageUtils.

(** The record collections that [window.storage] exposes, each with
    the key it is stored under. *)
Record collection : Type := {
  c_key : string;
  c_load : localStorage → json;
  c_delete : json → localStorage → outcome (bool * localStorage);
  c_update : option (json → json → string → localStorage → outcome (bool * localStorage))
}.

Definition portfolio `{JSON} : collection :=
  {| c_key := STORAGE_KEYS.PORTFOLIO; c_load := Storage.portfolioStorage.load;
     c_delete := portfolioStorage.delete; c_update := Some portfolioStorage.update |}.
Definition transactions `{JSON} : collection :=
  {| c_key := STORAGE_KEYS.TRANSACTIONS; c_load := Storage.transactionStorage.load;
     c_delete := transactionStorage.delete; c_update := None |}.
Definition expenses `{JSON} : collection :=
  {| c_key := STORAGE_KEYS.EXPENSES; c_load := Storage.expenseStorage.load;
     c_delete := expenseStorage.delete; c_update := Some expenseStorage.update |}.
Definition goals `{JSON} : collection :=
  {| c_key := STORAGE_KEYS.GOALS; c_load := Storage.goalStorage.load;
     c_delete := goalStorage.delete; c_update := Some goalStorage.update |}.

Definition collections `{JSON} : list collection :=
  [portfolio; transactions; expenses; goals].

(** [h.id === id], false where reading [h.id] throws. *)
Definition has_id (id : json) (h : json) : bool :=
  match get_property "id" h with
  | Returned h_id => strict_equal h_id id
  | TypeError => false
  end.

(** A value that the platform writes as a non-empty text and reads
    back. *)
Definition storable `{JSON} (x : json) : Prop :=
  JSON_stringify x ≠ "" ∧ JSON_parse (JSON_stringify x) = Some x.

(** Two holdings. *)
Definition holding (id symbol : string) (quantity : Z) : json :=
  JObj [("id", JStr id); ("symbol", JStr symbol); ("quantity", JNum quantity)].
Definition two_holdings : json := JArr [holding "a1" "IBM" 3; holding "b2" "MSFT" 5].


(** A store that holds the two holdings and nothing else. *)
Definition holdings_store `{JSON} : localStorage :=
  <[STORAGE_KEYS.PORTFOLIO := JSON_stringify two_holdings]> ∅.

End StorageOps.

(** * Properties *)

(** ** Comparisons, minima and maxima of finite numbers *)

Module JSNumFacts.
Import JSNum.

(** *** Finite series *)

Lemma lt_Fin x y : lt (Fin x) (Fin y) = true ↔ (x < y)%Q.
Proof.
  unfold lt. rewrite andb_true_iff, negb_true_iff, Qle_bool_iff.
  rewrite <-not_true_iff_false, Qeq_bool_iff. split.
  - intros [Hle Hne]. apply Qle_lteq in Hle as [?|?]; [done|by destruct Hne].
  - intros Hlt. split; [by apply Qlt_le_weak|]. intros He. rewrite He in Hlt.
    by apply Qlt_irrefl in Hlt.
Qed.

Lemma lt_Fin_false x y : lt (Fin x) (Fin y) = false ↔ (y <= x)%Q.
Proof.
  rewrite <-not_true_iff_false, lt_Fin. split.
  - apply Qnot_lt_le.
  - intros ? ?. by eapply Qlt_not_le.
Qed.

Lemma foldl_min2_Fin (qs : list Q) (a : Q) :
  ∃ m, foldl min2 (Fin a) (Fin <$> qs) = Fin m
       ∧ (m <= a)%Q ∧ Forall (λ q, (m <= q)%Q) qs ∧ (m = a ∨ m ∈ qs).
Proof.
  revert a. induction qs as [|q qs IH]; intros a.
  - exists a. split_and!; [done|apply Qle_refl|constructor|by left].
  - rewrite fmap_cons. cbn [foldl]. unfold min2 at 2.
    destruct (lt (Fin q) (Fin a)) eqn:Hlt.
    + apply lt_Fin in Hlt. destruct (IH q) as (m & -> & Hmq & Hall & Hin).
      exists m. split_and!; [done| |by constructor|].
      * apply Qlt_le_weak. by eapply Qle_lt_trans.
      * right. destruct Hin as [->|?]; [by left|by right].
    + apply lt_Fin_false in Hlt. destruct (IH a) as (m & -> & Hma & Hall & Hin).
      exists m. split_and!; [done|done| |].
      * constructor; [|done]. by eapply Qle_trans.
      * destruct Hin as [->|?]; [by left|by right; right].
Qed.

Lemma foldl_max2_Fin (qs : list Q) (a : Q) :
  ∃ m, foldl max2 (Fin a) (Fin <$> qs) = Fin m
       ∧ (a <= m)%Q ∧ Forall (λ q, (q <= m)%Q) qs ∧ (m = a ∨ m ∈ qs).
Proof.
  revert a. induction qs as [|q qs IH]; intros a.
  - exists a. split_and!; [done|apply Qle_refl|constructor|by left].
  - rewrite fmap_cons. cbn [foldl]. unfold max2 at 2.
    destruct (lt (Fin a) (Fin q)) eqn:Hlt.
    + apply lt_Fin in Hlt. destruct (IH q) as (m & -> & Hmq & Hall & Hin).
      exists m. split_and!; [done| |by constructor|].
      * apply Qlt_le_weak. by eapply Qlt_le_trans.
      * right. destruct Hin as [->|?]; [by left|by right].
    + apply lt_Fin_false in Hlt. destruct (IH a) as (m & -> & Hma & Hall & Hin).
      exists m. split_and!; [done|done| |].
      * constructor; [|done]. by eapply Qle_trans.
      * destruct Hin as [->|?]; [by left|by right; right].
Qed.

Lemma Math_min_Fin (q : Q) (qs : list Q) :
  ∃ m, Math_min (Fin <$> q :: qs) = Fin m ∧ Forall (λ x, (m <= x)%Q) (q :: qs) ∧ m ∈ q :: qs.
Proof.
  unfold Math_min. rewrite fmap_cons. cbn [foldl].
  change (min2 PInf (Fin q)) with (Fin q).
  destruct (foldl_min2_Fin qs q) as (m & -> & Hmq & Hall & Hin).
  exists m. split_and!; [done|by constructor|].
  destruct Hin as [->|?]; [by left|by right].
Qed.

Lemma Math_max_Fin (q : Q) (qs : list Q) :
  ∃ m, Math_max (Fin <$> q :: qs) = Fin m ∧ Forall (λ x, (x <= m)%Q) (q :: qs) ∧ m ∈ q :: qs.
Proof.
  unfold Math_max. rewrite fmap_cons. cbn [foldl].
  change (max2 NInf (Fin q)) with (Fin q).
  destruct (foldl_max2_Fin qs q) as (m & -> & Hmq & Hall & Hin).
  exists m. split_and!; [done|by constructor|].
  destruct Hin as [->|?]; [by left|by right].
Qed.

End JSNumFacts.

(** ** The cache *)

Module CacheFacts.
Import Json Cache Cache.cacheStorage.

Lemma ttl_expired_true now entry :
  ttl_expired now entry = true ↔
  ∃ t, ttl entry = Some t ∧ t ≠ 0 ∧ now - timestamp entry > t.
Proof.
  unfold ttl_expired. destruct (ttl entry) as [t|]; split.
  - intros [Hz Hgt]%andb_true_iff. exists t.
    apply negb_true_iff, Z.eqb_neq in Hz. apply Z.gtb_lt in Hgt. split_and!; [done|done|lia].
  - intros (t' & [= <-] & Hz & Hgt). apply andb_true_iff. split.
    + by apply negb_true_iff, Z.eqb_neq.
    + apply Z.gtb_lt. lia.
  - done.
  - by intros (t' & ? & _).
Qed.

Lemma ttl_expired_false now entry :
  ttl_expired now entry = false ↔
  ttl entry = None ∨ ttl entry = Some 0 ∨ ∃ t, ttl entry = Some t ∧ now - timestamp entry ≤ t.
Proof.
  rewrite <-not_true_iff_false, ttl_expired_true. split.
  - intros Hn. destruct (ttl entry) as [t|]; [|by left]. right.
    destruct (decide (t = 0)) as [->|]; [by left|]. right. exists t. split; [done|].
    destruct (decide (now - timestamp entry ≤ t)); [done|]. destruct Hn. exists t. split_and!; [done|done|lia].
  - intros [H|[H|(t & H & Hle)]] (t' & H' & Hz & Hgt); rewrite H in H'; simplify_eq; lia.
Qed.

Lemma length_keys {A} (m : gmap string A) : length (keys m) = size m.
Proof. unfold keys. by rewrite length_fmap, length_map_to_list. Qed.

Lemma elem_of_keys {A} (m : gmap string A) k : k ∈ keys m ↔ is_Some (m !! k).
Proof.
  unfold keys. rewrite list_elem_of_fmap. split.
  - intros ([k' x] & -> & Hin). apply elem_of_map_to_list in Hin. eauto.
  - intros [x Hx]. exists (k, x). split; [done|]. by apply elem_of_map_to_list.
Qed.

Lemma total_insert (cache : CacheObj) category entries entries' :
  cache !! category = Some entries →
  (total (<[category := entries']> cache) + size entries = total cache + size entries')%nat.
Proof.
  intros Hc. unfold total.
  rewrite <-(insert_delete_eq cache).
  rewrite map_to_list_insert by apply lookup_delete_eq.
  rewrite <-(map_to_list_delete cache category entries Hc). simpl. lia.
Qed.

Lemma entry_at_insert (cache : CacheObj) category entries c k :
  entry_at (<[category := entries]> cache) c k =
  if decide (c = category) then entries !! k else entry_at cache c k.
Proof.
  unfold entry_at. rewrite lookup_insert. destruct (decide (category = c)); subst; simpl.
  - by rewrite decide_True.
  - by rewrite decide_False.
Qed.

Lemma getStats_unfold ls :
  getStats ls = foldl (stats_step (load ls)) {| totalEntries := 0; byCategory := ∅ |}
                      (keys (load ls)).
Proof. reflexivity. Qed.

Lemma stats_fold_total (cache : CacheObj) (cs : list string) (stats : Stats) :
  totalEntries (foldl (stats_step cache) stats cs) =
  (totalEntries stats + sum_list_with (λ c, size (cache !!! c)) cs)%nat.
Proof.
  revert stats. induction cs as [|c0 cs IH]; intros stats; cbn [foldl sum_list_with].
  - lia.
  - rewrite IH. unfold stats_step at 1. cbn [totalEntries]. rewrite length_keys. lia.
Qed.

Lemma stats_fold_byCategory (cache : CacheObj) (cs : list string) (stats : Stats) c :
  byCategory (foldl (stats_step cache) stats cs) !! c =
  if decide (c ∈ cs) then Some (size (cache !!! c)) else byCategory stats !! c.
Proof.
  revert stats. induction cs as [|c0 cs IH]; intros stats; cbn [foldl].
  - case_decide as Hin; [|done]. by apply elem_of_nil in Hin.
  - rewrite IH. unfold stats_step at 1. cbn [byCategory]. rewrite length_keys.
    destruct (decide (c ∈ cs)) as [Hin|Hin];
      destruct (decide (c ∈ c0 :: cs)) as [Hin'|Hin']; try done.
    + destruct Hin'. by right.
    + apply elem_of_cons in Hin' as [->|?]; [|done]. by rewrite lookup_insert_eq.
    + rewrite lookup_insert_ne; [done|]. intros ->. apply Hin'. by left.
Qed.

Lemma getStats_totalEntries ls : totalEntries (getStats ls) = total (load ls).
Proof.
  rewrite getStats_unfold, stats_fold_total. simpl.
  unfold total, keys. generalize (load ls). intros cache.
  assert (∀ l : list (string * gmap string CacheEntry),
            (∀ kv, kv ∈ l → cache !! kv.1 = Some kv.2) →
            sum_list_with (λ c, size (cache !!! c)) l.*1 = sum_list_with (λ kv, size kv.2) l) as H.
  { induction l as [|[c m] l IH]; intros Hl; [done|].
    rewrite fmap_cons. cbn [sum_list_with fst snd].
    rewrite IH by (intros; apply Hl; by right).
    f_equal. rewrite (lookup_total_correct cache c m); [done|]. apply (Hl (c, m)). by left. }
  apply H. intros [c m] Hin. by apply elem_of_map_to_list.
Qed.

Lemma getStats_byCategory ls c :
  byCategory (getStats ls) !! c = size <$> (load ls !! c).
Proof.
  rewrite getStats_unfold, stats_fold_byCategory. simpl.
  destruct (decide (c ∈ keys (load ls))) as [Hin|Hin].
  - apply elem_of_keys in Hin as [m Hm]. rewrite Hm. simpl.
    by rewrite (lookup_total_correct _ _ _ Hm).
  - rewrite elem_of_keys in Hin. rewrite lookup_empty.
    destruct (load ls !! c) eqn:E; [|done]. destruct Hin. eauto.
Qed.

(** *** Eviction of one entry *)

Lemma delete_present ls category key entries entry :
  load ls !! category = Some entries →
  entries !! key = Some entry →
  delete category key ls =
  (true, Some (<[category := base.delete key entries]> (load ls))).
Proof. intros Hc Hk. unfold delete, save. by rewrite Hc, Hk. Qed.

Lemma evicted_total (cache : CacheObj) category key entries entry :
  cache !! category = Some entries →
  entries !! key = Some entry →
  total cache = S (total (<[category := base.delete key entries]> cache)).
Proof.
  intros Hc Hk.
  pose proof (total_insert cache category entries (base.delete key entries) Hc) as Ht.
  pose proof (map_size_delete_Some key entries (mk_is_Some _ _ Hk)) as Hs.
  assert (size entries ≠ 0%nat).
  { intros Hz. apply map_size_empty_inv in Hz. subst. by rewrite lookup_empty in Hk. }
  lia.
Qed.

Lemma entry_at_evicted (cache : CacheObj) category key entries c k :
  cache !! category = Some entries →
  entry_at (<[category := base.delete key entries]> cache) c k =
  if decide (c = category ∧ k = key) then None else entry_at cache c k.
Proof.
  intros Hc. rewrite entry_at_insert.
  destruct (decide (c = category)) as [->|Hne].
  - unfold entry_at. rewrite Hc. simpl. rewrite lookup_delete.
    destruct (decide (key = k)) as [->|Hk].
    + by rewrite decide_True.
    + rewrite decide_False; [done|]. by intros [_ ->].
  - rewrite decide_False; [done|]. by intros [-> _].
Qed.

(** *** The sweep of [clearExpired] *)

Lemma keep_idemp now slot : keep now (keep now slot) = keep now slot.
Proof.
  destruct slot as [e|]; [|done]. simpl.
  destruct (ttl_expired now e) eqn:E; [done|]. simpl. by rewrite E.
Qed.

Lemma sweep_key_spec now category key (cache : CacheObj) (n : nat) :
  let r := sweep_key now category key (cache, n) in
  (∀ c k, entry_at r.1 c k =
          if decide (c = category ∧ k = key) then keep now (entry_at cache c k)
          else entry_at cache c k)
  ∧ (r.2 + total r.1 = n + total cache)%nat.
Proof.
  cbv zeta. unfold sweep_key.
  destruct (entry_at cache category key) as [entry|] eqn:He.
  - destruct (ttl_expired now entry) eqn:Hx; cbn [fst snd].
    + unfold entry_at in He.
      destruct (cache !! category) as [entries|] eqn:Hc; [|done]. simpl in He.
      rewrite (lookup_total_correct _ _ _ Hc). split.
      * intros c k. rewrite (entry_at_evicted _ _ _ _ _ _ Hc).
        case_decide as Hck; [|done]. destruct Hck as [-> ->].
        unfold entry_at. rewrite Hc. simpl. rewrite He. simpl. by rewrite Hx.
      * rewrite (evicted_total cache category key entries entry Hc He). lia.
    + split; [|done]. intros c k. case_decide as Hck; [|done].
      destruct Hck as [-> ->]. rewrite He. simpl. by rewrite Hx.
  - cbn [fst snd]. split; [|done]. intros c k. case_decide as Hck; [|done].
    destruct Hck as [-> ->]. by rewrite He.
Qed.

Lemma sweep_keys_spec now category (ks : list string) (cache : CacheObj) (n : nat) :
  let r := foldl (λ acc key, sweep_key now category key acc) (cache, n) ks in
  (∀ c k, entry_at r.1 c k =
          if decide (c = category ∧ k ∈ ks) then keep now (entry_at cache c k)
          else entry_at cache c k)
  ∧ (r.2 + total r.1 = n + total cache)%nat.
Proof.
  cbv zeta. revert cache n. induction ks as [|k0 ks IH]; intros cache n; cbn [foldl].
  - split; [|done]. intros c k. case_decide as H; [|done]. destruct H as [_ H].
    by apply elem_of_nil in H.
  - destruct (sweep_key now category k0 (cache, n)) as [cache1 n1] eqn:E1.
    pose proof (sweep_key_spec now category k0 cache n) as [Hl1 Ht1].
    rewrite E1 in Hl1, Ht1. cbn [fst snd] in Hl1, Ht1.
    destruct (IH cache1 n1) as [Hl Ht]. split; [|lia].
    intros c k. rewrite Hl, !Hl1.
    destruct (decide (c = category ∧ k = k0)) as [[-> ->]|Hne1].
    + rewrite (decide_True (P := category = category ∧ k0 ∈ k0 :: ks)) by (split; [done|by left]).
      case_decide; [apply keep_idemp|done].
    + destruct (decide (c = category ∧ k ∈ ks)) as [[-> Hin]|Hne2].
      * rewrite decide_True; [done|]. split; [done|by right].
      * rewrite decide_False; [done|]. intros [-> [->|Hin]%elem_of_cons]; tauto.
Qed.

Lemma sweep_category_spec now category (cache : CacheObj) (n : nat) :
  let r := sweep_category now (cache, n) category in
  (∀ c k, entry_at r.1 c k =
          if decide (c = category) then keep now (entry_at cache c k)
          else entry_at cache c k)
  ∧ (r.2 + total r.1 = n + total cache)%nat.
Proof.
  cbv zeta. unfold sweep_category. cbn [fst].
  destruct (sweep_keys_spec now category (keys (cache !!! category)) cache n) as [Hl Ht].
  split; [|done]. intros c k. rewrite Hl.
  destruct (decide (c = category)) as [->|Hne].
  - case_decide as Hin; [done|].
    assert (entry_at cache category k = None) as ->; [|done].
    unfold entry_at. destruct (cache !! category) as [entries|] eqn:Hc; [|done]. simpl.
    rewrite (lookup_total_correct _ _ _ Hc) in Hin.
    destruct (entries !! k) eqn:Hk; [|done]. destruct Hin. split; [done|].
    apply elem_of_keys. eauto.
  - rewrite decide_False; [done|]. by intros [-> _].
Qed.

Lemma sweep_categories_spec now (cs : list string) (cache : CacheObj) (n : nat) :
  let r := foldl (sweep_category now) (cache, n) cs in
  (∀ c k, entry_at r.1 c k =
          if decide (c ∈ cs) then keep now (entry_at cache c k)
          else entry_at cache c k)
  ∧ (r.2 + total r.1 = n + total cache)%nat.
Proof.
  cbv zeta. revert cache n. induction cs as [|c0 cs IH]; intros cache n; cbn [foldl].
  - split; [|done]. intros c k. case_decide as H; [|done]. by apply elem_of_nil in H.
  - destruct (sweep_category now (cache, n) c0) as [cache1 n1] eqn:E1.
    pose proof (sweep_category_spec now c0 cache n) as [Hl1 Ht1].
    rewrite E1 in Hl1, Ht1. cbn [fst snd] in Hl1, Ht1.
    destruct (IH cache1 n1) as [Hl Ht]. split; [|lia].
    intros c k. rewrite Hl, !Hl1.
    destruct (decide (c = c0)) as [->|Hne1].
    + rewrite (decide_True (P := c0 ∈ c0 :: cs)) by (by left).
      case_decide; [apply keep_idemp|done].
    + destruct (decide (c ∈ cs)) as [Hin|Hne2].
      * rewrite decide_True; [done|]. by right.
      * rewrite decide_False; [done|]. intros [->|Hin]%elem_of_cons; tauto.
Qed.

Lemma clearExpired_spec now ls :
  let r := clearExpired now ls in
  (∀ c k, entry_at (load r.2) c k = keep now (entry_at (load ls) c k))
  ∧ (r.1 + total (load r.2) = total (load ls))%nat.
Proof.
  cbv zeta. unfold clearExpired.
  destruct (sweep_categories_spec now (keys (load ls)) (load ls) 0) as [Hl Ht].
  destruct (foldl (sweep_category now) (load ls, 0%nat) (keys (load ls))) as [cache' n'].
  cbn [fst snd save load] in *. split; [|lia].
  intros c k. rewrite Hl. case_decide as Hin; [done|].
  assert (entry_at (load ls) c k = None) as ->; [|done].
  unfold entry_at. destruct (load ls !! c) eqn:Hc; [|done].
  destruct Hin. apply elem_of_keys. eauto.
Qed.

Lemma set_entry_at ls category key value ttl0 now c k :
  entry_at (load (set category key value ttl0 now ls).2) c k =
  if decide (c = category ∧ k = key)
  then Some {| data := value; timestamp := now; ttl := ttl0 |}
  else entry_at (load ls) c k.
Proof.
  unfold set, save. cbn [snd load]. rewrite entry_at_insert.
  destruct (decide (c = category)) as [->|Hne].
  - rewrite lookup_insert. destruct (decide (key = k)) as [->|Hk].
    + by rewrite decide_True.
    + rewrite decide_False; [|by intros [_ ->]].
      unfold entry_at. destruct (load ls !! category) as [entries|] eqn:Hc; simpl.
      * by rewrite (lookup_total_correct _ _ _ Hc).
      * by rewrite lookup_total_insert_eq, lookup_empty.
  - rewrite decide_False; [|by intros [-> _]].
    destruct (load ls !! category); [done|].
    rewrite entry_at_insert. by rewrite decide_False.
Qed.

Lemma get_present ls category key entry now :
  entry_at (load ls) category key = Some entry →
  get category key now ls =
  if ttl_expired now entry then (JNull, (delete category key ls).2) else (data entry, ls).
Proof.
  unfold entry_at, get. intros He.
  destruct (load ls !! category) as [entries|]; [|done]. simpl in He. by rewrite He.
Qed.

(** C1, as stated, fails: exactly one hour after the write,
    [now - timestamp < ttl] is false and [get] still returns the value. *)
Lemma get_at_ttl_boundary :
  ¬ (∀ ls category key entry t now,
       entry_at (load ls) category key = Some entry →
       ttl entry = Some t →
       data entry ≠ JNull →
       ((get category key now ls).1 ≠ JNull ↔ now - timestamp entry < t)).
Proof.
  intros H.
  specialize (H hour_store "stockPrices" "AAPL" hour_entry 3600000 3601000).
  destruct H as [H _]; [reflexivity|reflexivity|discriminate|].
  assert (3601000 - timestamp hour_entry < 3600000) as Hlt; [|simpl in Hlt; lia].
  apply H. discriminate.
Qed.

(** C1 (amended): for an entry stored with a non-null ttl, [get] returns
    the stored value when the ttl is zero or [now - timestamp <= ttl];
    otherwise it returns null and deletes the entry, leaving every other
    entry in place, so that [getStats] counts one entry fewer in total
    and in the entry's category. *)
Theorem get_fresh_or_evicted ls category key entry t now :
  entry_at (load ls) category key = Some entry →
  ttl entry = Some t →
  (t = 0 ∨ now - timestamp entry ≤ t →
     get category key now ls = (data entry, ls))
  ∧ (t ≠ 0 ∧ now - timestamp entry > t →
     ∃ ls',
       get category key now ls = (JNull, ls')
       ∧ entry_at (load ls') category key = None
       ∧ (∀ c k, ¬ (c = category ∧ k = key) →
                 entry_at (load ls') c k = entry_at (load ls) c k)
       ∧ totalEntries (getStats ls) = S (totalEntries (getStats ls'))
       ∧ ∃ n, byCategory (getStats ls') !! category = Some n
              ∧ byCategory (getStats ls) !! category = Some (S n))
  ∧ (data entry ≠ JNull →
     ((get category key now ls).1 ≠ JNull ↔ t = 0 ∨ now - timestamp entry ≤ t)).
Proof.
  intros He Ht. rewrite (get_present _ _ _ _ _ He).
  assert (ttl_expired now entry = false ↔ t = 0 ∨ now - timestamp entry ≤ t) as Hlive.
  { rewrite ttl_expired_false, Ht. split.
    - intros [?|[[= <-]|(t' & [= <-] & ?)]]; [done|by left|by right].
    - intros [->|?]; [by right; left|]. right; right. eauto. }
  destruct (ttl_expired now entry) eqn:Hx.
  - assert (¬ (t = 0 ∨ now - timestamp entry ≤ t)) as Hdead.
    { intros Hl. apply Hlive in Hl. done. }
    split_and!.
    + done.
    + intros _. unfold entry_at in He.
      destruct (load ls !! category) as [entries|] eqn:Hc; [|done]. simpl in He.
      rewrite (delete_present _ _ _ _ _ Hc He). cbn [snd].
      eexists. split; [done|]. cbn [load]. split_and!.
      * rewrite (entry_at_evicted _ _ _ _ _ _ Hc). by rewrite decide_True.
      * intros c k Hne. rewrite (entry_at_evicted _ _ _ _ _ _ Hc). by rewrite decide_False.
      * rewrite !getStats_totalEntries. cbn [load]. by eapply evicted_total.
      * rewrite !getStats_byCategory. cbn [load]. rewrite Hc, lookup_insert_eq. simpl.
        exists (size (base.delete key entries)). split; [done|]. f_equal.
        pose proof (map_size_delete_Some key entries (mk_is_Some _ _ He)) as Hs.
        assert (size entries ≠ 0%nat); [|lia].
        intros Hz. apply map_size_empty_inv in Hz. subst. by rewrite lookup_empty in He.
    + intros _. cbn [fst]. split; [done|]. intros Hl. by destruct Hdead.
  - assert (t = 0 ∨ now - timestamp entry ≤ t) as Hl by (by apply Hlive).
    split_and!.
    + done.
    + intros [? ?]. lia.
    + intros Hd. cbn [fst]. done.
Qed.

Lemma get_fresh_or_evicted_witness :
  (3600000 = 0 ∨ 3601001 - timestamp hour_entry ≤ 3600000 →
     get "stockPrices" "AAPL" 3601001 hour_store = (data hour_entry, hour_store))
  ∧ (3600000 ≠ 0 ∧ 3601001 - timestamp hour_entry > 3600000 →
     ∃ ls',
       get "stockPrices" "AAPL" 3601001 hour_store = (JNull, ls')
       ∧ entry_at (load ls') "stockPrices" "AAPL" = None
       ∧ (∀ c k, ¬ (c = "stockPrices" ∧ k = "AAPL") →
                 entry_at (load ls') c k = entry_at (load hour_store) c k)
       ∧ totalEntries (getStats hour_store) = S (totalEntries (getStats ls'))
       ∧ ∃ n, byCategory (getStats ls') !! "stockPrices" = Some n
              ∧ byCategory (getStats hour_store) !! "stockPrices" = Some (S n))
  ∧ (data hour_entry ≠ JNull →
     ((get "stockPrices" "AAPL" 3601001 hour_store).1 ≠ JNull
      ↔ 3600000 = 0 ∨ 3601001 - timestamp hour_entry ≤ 3600000)).
Proof.
  apply (get_fresh_or_evicted hour_store "stockPrices" "AAPL" hour_entry 3600000 3601001);
    reflexivity.
Defined.

(** C2, as stated, fails: an entry stored with a ttl of zero has
    outlived its ttl at every later instant, whether "elapsed" is read
    as [ttl <= age] or as [ttl < age], and the sweep leaves it. *)
Lemma clearExpired_keeps_zero_ttl :
  ¬ (∀ now ls c k e t,
       entry_at (load ls) c k = Some e →
       ttl e = Some t →
       t < now - timestamp e →
       entry_at (load (clearExpired now ls).2) c k = None).
Proof.
  intros H.
  specialize (H 5000 zero_store "stockPrices" "AAPL" zero_entry 0).
  assert (entry_at (load (clearExpired 5000 zero_store).2) "stockPrices" "AAPL" = None) as Hn.
  { apply H; [reflexivity|reflexivity|]. simpl. lia. }
  vm_compute in Hn. discriminate.
Qed.

(** C2 (amended): [clearExpired] deletes exactly the entries whose ttl is
    neither null nor zero and is strictly below [now - timestamp]; every
    other entry, in particular every entry with a null ttl, is left as
    it was, no entry appears, and the number returned is the number of
    entries removed. *)
Theorem clearExpired_removes_exactly now ls :
  (∀ c k, entry_at (load ls) c k = None →
          entry_at (load (clearExpired now ls).2) c k = None)
  ∧ (∀ c k e, entry_at (load ls) c k = Some e →
       (entry_at (load (clearExpired now ls).2) c k = None
        ↔ ∃ t, ttl e = Some t ∧ t ≠ 0 ∧ now - timestamp e > t)
       ∧ (entry_at (load (clearExpired now ls).2) c k = None
          ∨ entry_at (load (clearExpired now ls).2) c k = Some e)
       ∧ (ttl e = None → entry_at (load (clearExpired now ls).2) c k = Some e))
  ∧ ((clearExpired now ls).1 + totalEntries (getStats (clearExpired now ls).2)
     = totalEntries (getStats ls))%nat.
Proof.
  destruct (clearExpired_spec now ls) as [Hl Ht]. split_and!.
  - intros c k Hn. by rewrite Hl, Hn.
  - intros c k e He. rewrite Hl, He. cbn [keep]. rewrite <-ttl_expired_true.
    destruct (ttl_expired now e) eqn:Hx.
    + split_and!; [done|by left|].
      intros Hnull. unfold ttl_expired in Hx. by rewrite Hnull in Hx.
    + split_and!; [by split|by right|done].
  - by rewrite !getStats_totalEntries.
Qed.

(** C9: [isValid] leaves the store as it is and answers true exactly
    when an entry sits at the coordinate and [now - timestamp] is below
    the caller's [maxAge]; the stored ttl plays no part, so an entry
    that [get] would evict is valid under a large enough [maxAge]. *)
Theorem isValid_by_caller_age ls category key maxAge now :
  (isValid category key maxAge now ls).2 = ls
  ∧ ((isValid category key maxAge now ls).1 = true
     ↔ ∃ e, entry_at (load ls) category key = Some e ∧ now - timestamp e < maxAge)
  ∧ (∀ e, entry_at (load ls) category key = Some e →
          ttl_expired now e = true →
          ∀ age, now - timestamp e < age →
                 isValid category key age now ls = (true, ls)).
Proof.
  unfold isValid, entry_at.
  destruct (load ls !! category) as [entries|]; cbn [mbind option_bind].
  - destruct (entries !! key) as [e|]; cbn [fst snd].
    + split_and!; [done| |].
      * rewrite Z.ltb_lt. split; [eauto|]. by intros (e' & [= <-] & ?).
      * intros e' [= <-] _ age Hage. f_equal. by apply Z.ltb_lt.
    + split_and!; [done| |done]. split; [done|]. by intros (e' & ? & _).
  - cbn [fst snd]. split_and!; [done| |done]. split; [done|]. by intros (e' & ? & _).
Qed.



End CacheFacts.

(** ** The chart mapping *)

Module ChartFacts.
Import JSNum Chart JSNumFacts.

(** C4: on a constant series [createStockChart], which has no guard on
    the price range, divides zero by zero: both pixel rows of a two-day
    series closing at 5 are NaN, where the specification promises one
    finite row. *)
Theorem createStockChart_flat_series :
  (λ pts, pts.*2) <$> createStockChart.points [flat_day; flat_day] = Some [NaN; NaN].
Proof. reflexivity. Qed.

(** C5: on a series of exactly one point both renderers compute
    [chartWidth / 0 * 0] for the pixel column, which is NaN, where the
    specification promises finite coordinates. *)
Theorem single_point_x_not_finite (d : PricePoint) :
  (λ pts, pts.*1) <$> createStockChart.points [d] = Some [NaN]
  ∧ (λ pts, pts.*1) <$> displayStockChart.points [d] = Some [NaN].
Proof. split; reflexivity. Qed.

(** *** The vertical mapping of [displayStockChart] *)

Lemma point_y_Fin (P H m r q : Q) :
  ¬ (r == 0)%Q →
  point_y (Fin P) (Fin H) (Fin m) (Fin r) (Fin q) = Fin (y_of P H m r q).
Proof.
  intros Hr. unfold point_y, sub, add, neg, mul, div.
  destruct (r ?= 0)%Q eqn:E; [|done|done]. by apply Qeq_alt in E.
Qed.

Lemma y_of_affine (P H m r q : Q) :
  ¬ (r == 0)%Q →
  (y_of P H m r q == (- (H / r)) * q + (P + H + m * (H / r)))%Q.
Proof. intros Hr. unfold y_of. by field. Qed.

Lemma displayStockChart_constants :
  displayStockChart.padding = Fin padQ ∧ displayStockChart.chartHeight = Fin heightQ.
Proof. split; reflexivity. Qed.

Lemma displayStockChart_range (ts : list PricePoint) (q : Q) (qs : list Q) :
  displayStockChart.prices ts = Fin <$> q :: qs →
  ∃ m r, displayStockChart.minPrice ts = Fin m
         ∧ displayStockChart.priceRange ts = Fin r
         ∧ (0 < r)%Q
         ∧ Forall (λ x, (m <= x)%Q) (q :: qs).
Proof.
  intros Hp. unfold displayStockChart.priceRange, displayStockChart.minPrice,
    displayStockChart.maxPrice. rewrite Hp.
  destruct (Math_min_Fin q qs) as (m & -> & Hmin & Hm).
  destruct (Math_max_Fin q qs) as (M & -> & Hmax & HM).
  assert (m <= M)%Q as HmM.
  { rewrite Forall_forall in Hmin. by apply Hmin. }
  unfold sub, neg, add, or_else, truthy.
  destruct (Qeq_bool (M + - m) 0) eqn:E; cbn [negb].
  - exists m, (inject_Z 1). split_and!; done.
  - exists m, (M + - m)%Q. split_and!; [done|done| |done].
    apply Qeq_bool_neq in E. apply Qle_lteq in HmM as [Hlt|Heq].
    + lra.
    + destruct E. lra.
Qed.

Lemma y_of_decreasing (P H m r q1 q2 : Q) :
  (0 < H)%Q → (0 < r)%Q → (q1 < q2)%Q → (y_of P H m r q2 < y_of P H m r q1)%Q.
Proof.
  intros HH Hr Hq. rewrite !y_of_affine by lra.
  assert (0 < H / r)%Q by (by apply Qlt_shift_div_l; lra). nra.
Qed.

Lemma y_of_equal (P H m r q1 q2 : Q) :
  ¬ (r == 0)%Q → (q1 == q2)%Q → (y_of P H m r q1 == y_of P H m r q2)%Q.
Proof. intros Hr Hq. rewrite !y_of_affine by done. by rewrite Hq. Qed.

Lemma heightQ_pos : (0 < heightQ)%Q.
Proof. by vm_compute. Qed.

(** The rows that [displayStockChart] computes for a non-empty series
    of finite prices: [y_of] of each price, for the minimum [m] of the
    series and a positive range [r]. *)
Lemma displayStockChart_points (ts : list PricePoint) (qs : list Q) :
  ts ≠ [] →
  displayStockChart.prices ts = Fin <$> qs →
  ∃ m r pts,
    (0 < r)%Q
    ∧ displayStockChart.points ts = Some pts
    ∧ length pts = length ts
    ∧ ∀ i p, pts !! i = Some p →
             ∃ qi, qs !! i = Some qi ∧ p.2 = Fin (y_of padQ heightQ m r qi).
Proof.
  intros Hne Hp.
  assert (length qs = length ts) as Hlen.
  { apply (f_equal length) in Hp. unfold displayStockChart.prices in Hp.
    by rewrite length_map, length_rev, length_fmap in Hp. }
  destruct qs as [|q qs]; [by destruct ts|].
  destruct (displayStockChart_range ts q qs Hp) as (m & r & Hm & Hr & Hpos & _).
  exists m, r. unfold displayStockChart.points.
  destruct ts as [|t ts]; [done|]. eexists. split_and!; [done|done| |].
  - rewrite length_imap, Hp. by rewrite length_fmap.
  - intros i p. rewrite list_lookup_imap, Hp, list_lookup_fmap.
    destruct ((q :: qs) !! i) as [qi|]; [|done]. cbn [fmap option_fmap option_map].
    intros [= <-]. exists qi. split; [done|]. cbn [snd].
    rewrite Hm, Hr. destruct displayStockChart_constants as [-> ->].
    apply point_y_Fin. lra.
Qed.

(** X4: for a non-empty series of finite prices, [displayStockChart]
    maps the closing price to the pixel row by one affine function of
    negative slope, and every row is finite. *)
Theorem displayStockChart_affine (ts : list PricePoint) (qs : list Q) :
  ts ≠ [] →
  displayStockChart.prices ts = Fin <$> qs →
  ∃ (a b : Q) pts,
    (a < 0)%Q
    ∧ displayStockChart.points ts = Some pts
    ∧ length pts = length ts
    ∧ ∀ i p, pts !! i = Some p →
             ∃ qi y, qs !! i = Some qi ∧ p.2 = Fin y ∧ (y == a * qi + b)%Q.
Proof.
  intros Hne Hp.
  destruct (displayStockChart_points ts qs Hne Hp) as (m & r & pts & Hr & Hpts & Hlen & Hy).
  exists (- (heightQ / r))%Q, (padQ + heightQ + m * (heightQ / r))%Q, pts.
  split_and!; [|done|done|].
  - assert (0 < heightQ / r)%Q; [|lra]. apply Qlt_shift_div_l; [done|].
    pose proof heightQ_pos. lra.
  - intros i p Hi. destruct (Hy i p Hi) as (qi & Hqi & ->).
    exists qi, (y_of padQ heightQ m r qi). split_and!; [done|done|].
    apply y_of_affine. lra.
Qed.

Lemma displayStockChart_affine_witness :
  ∃ (a b : Q) pts,
    (a < 0)%Q
    ∧ displayStockChart.points rising_days = Some pts
    ∧ length pts = length rising_days
    ∧ ∀ i p, pts !! i = Some p →
             ∃ qi y, [inject_Z 10; inject_Z 11; inject_Z 12] !! i = Some qi
                     ∧ p.2 = Fin y ∧ (y == a * qi + b)%Q.
Proof.
  apply (displayStockChart_affine rising_days [inject_Z 10; inject_Z 11; inject_Z 12]);
    [discriminate|reflexivity].
Defined.

(** *** Series given by the numbers themselves *)

Lemma finite_list (ps : list number) :
  forallb isFinite ps = true → ∃ qs, ps = Fin <$> qs.
Proof.
  induction ps as [|p ps IH]; intros H.
  - by exists [].
  - cbn [forallb] in H. apply andb_true_iff in H as [Hp Hps].
    destruct (IH Hps) as [qs ->]. destruct p as [q| | |]; try done.
    by exists (q :: qs).
Qed.

Lemma constant_list (ps : list number) (c : Q) :
  forallb (λ p, strict_eq p (Fin c)) ps = true →
  ∃ qs, ps = Fin <$> qs ∧ Forall (λ q, (q == c)%Q) qs.
Proof.
  induction ps as [|p ps IH]; intros H.
  - by exists [].
  - cbn [forallb] in H. apply andb_true_iff in H as [Hp Hps].
    destruct (IH Hps) as (qs & -> & Hqs). destruct p as [q| | |]; try done.
    exists (q :: qs). split; [done|]. constructor; [|done].
    by apply Qeq_bool_iff in Hp.
Qed.

Lemma chain_lt_pairwise (qs : list Q) :
  chain lt (Fin <$> qs) = true →
  ∀ i j qi qj, (i < j)%nat → qs !! i = Some qi → qs !! j = Some qj → (qi < qj)%Q.
Proof.
  induction qs as [|q qs IH]; intros Hc i j qi qj Hij Hi Hj; [done|].
  assert (chain lt (Fin <$> qs) = true ∧ ∀ k qk, qs !! k = Some qk → (q < qk)%Q)
    as [Hc' Hhead].
  { clear i j qi qj Hij Hi Hj. destruct qs as [|q' qs]; [done|].
    change (chain lt (Fin <$> q :: q' :: qs))
      with (lt (Fin q) (Fin q') && chain lt (Fin <$> q' :: qs)) in Hc.
    apply andb_true_iff in Hc as [Hlt Hc]. apply lt_Fin in Hlt. split; [done|].
    intros [|k] qk Hk.
    - by injection Hk as <-.
    - eapply Qlt_trans; [done|]. apply (IH Hc 0%nat (S k) q' qk); [lia|done|done]. }
  destruct j as [|j]; [lia|]. destruct i as [|i].
  - injection Hi as <-. by apply (Hhead j).
  - apply (IH Hc' i j); [lia|done|done].
Qed.

Lemma pairwise_chain_gt (ys : list number) :
  (∀ i j yi yj, (i < j)%nat → ys !! i = Some yi → ys !! j = Some yj → lt yj yi = true) →
  chain gt ys = true.
Proof.
  induction ys as [|y ys IH]; intros H; [done|].
  destruct ys as [|y' ys]; [reflexivity|].
  change (gt y y' && chain gt (y' :: ys) = true). apply andb_true_iff. split.
  - unfold gt. apply (H 0%nat 1%nat); [lia|reflexivity|reflexivity].
  - apply IH. intros i j yi yj Hij Hi Hj. apply (H (S i) (S j)); [lia|done|done].
Qed.

(** X1: in exact arithmetic (no rounding, no overflow),
    [displayStockChart] draws a strictly increasing series of finite
    prices on finite pixel rows that strictly decrease with the
    index. *)
Theorem displayStockChart_monotone (ts : list PricePoint) :
  ts ≠ [] →
  forallb isFinite (displayStockChart.prices ts) = true →
  chain lt (displayStockChart.prices ts) = true →
  ∃ pts,
    displayStockChart.points ts = Some pts
    ∧ length pts = length ts
    ∧ forallb isFinite pts.*2 = true
    ∧ chain gt pts.*2 = true.
Proof.
  intros Hne Hfin Hinc. destruct (finite_list _ Hfin) as [qs Hp].
  rewrite Hp in Hinc. pose proof (chain_lt_pairwise qs Hinc) as Hpair.
  destruct (displayStockChart_points ts qs Hne Hp) as (m & r & pts & Hr & Hpts & Hlen & Hy).
  exists pts. split_and!; [done|done| |].
  - apply forallb_forall. intros y Hin%list_elem_of_In.
    apply list_elem_of_fmap in Hin as (p & -> & [i Hi]%list_elem_of_lookup).
    by destruct (Hy i p Hi) as (qi & _ & ->).
  - apply pairwise_chain_gt. intros i j yi yj Hij.
    rewrite !list_lookup_fmap. intros Hi Hj.
    destruct (pts !! i) as [pi|] eqn:Ei; [|done]. injection Hi as <-.
    destruct (pts !! j) as [pj|] eqn:Ej; [|done]. injection Hj as <-.
    destruct (Hy i pi Ei) as (qi & Hqi & ->).
    destruct (Hy j pj Ej) as (qj & Hqj & ->).
    apply lt_Fin. apply y_of_decreasing; [apply heightQ_pos|done|].
    by apply (Hpair i j).
Qed.

Lemma displayStockChart_monotone_witness :
  ∃ pts,
    displayStockChart.points rising_days = Some pts
    ∧ length pts = length rising_days
    ∧ forallb isFinite pts.*2 = true
    ∧ chain gt pts.*2 = true.
Proof.
  apply (displayStockChart_monotone rising_days); [discriminate|reflexivity|reflexivity].
Defined.

(** X2: [displayStockChart] draws a series whose prices all equal one
    finite value on a single finite pixel row. *)
Theorem displayStockChart_flat (ts : list PricePoint) (c : Q) :
  ts ≠ [] →
  forallb (λ p, strict_eq p (Fin c)) (displayStockChart.prices ts) = true →
  ∃ pts y0,
    displayStockChart.points ts = Some pts
    ∧ length pts = length ts
    ∧ forallb (λ y, strict_eq y (Fin y0)) pts.*2 = true.
Proof.
  intros Hne Hc. destruct (constant_list _ c Hc) as (qs & Hp & Hqs).
  destruct (displayStockChart_points ts qs Hne Hp) as (m & r & pts & Hr & Hpts & Hlen & Hy).
  exists pts, (y_of padQ heightQ m r c). split_and!; [done|done|].
  apply forallb_forall. intros y Hin%list_elem_of_In.
  apply list_elem_of_fmap in Hin as (p & -> & [i Hi]%list_elem_of_lookup).
  destruct (Hy i p Hi) as (qi & Hqi & ->). apply Qeq_bool_iff.
  apply y_of_equal; [lra|]. rewrite Forall_forall in Hqs. apply Hqs.
  apply list_elem_of_lookup. eauto.
Qed.

Lemma displayStockChart_flat_witness :
  ∃ pts y0,
    displayStockChart.points [flat_day; flat_day; flat_day] = Some pts
    ∧ length pts = length [flat_day; flat_day; flat_day]
    ∧ forallb (λ y, strict_eq y (Fin y0)) pts.*2 = true.
Proof.
  apply (displayStockChart_flat [flat_day; flat_day; flat_day] (inject_Z 5));
    [discriminate|reflexivity].
Defined.

(** *** The vertical mapping of [createStockChart] *)

(** [createStockChart] has no guard on the range: on a series whose
    prices all equal one finite value every pixel row is NaN. *)
Lemma createStockChart_constant (data : list PricePoint) (qs : list Q) (c : Q) :
  data ≠ [] →
  createStockChart.prices data = Fin <$> qs →
  Forall (λ q, (q == c)%Q) qs →
  ∃ pts, createStockChart.points data = Some pts
         ∧ length pts = length data
         ∧ ∀ p, p ∈ pts → p.2 = NaN.
Proof.
  intros Hne Hp Hc. destruct qs as [|q qs].
  { destruct data as [|t ts]; [done|]. unfold createStockChart.prices in Hp.
    apply (f_equal length) in Hp. rewrite length_map, length_rev in Hp. done. }
  unfold createStockChart.points. destruct data as [|d data]; [done|].
  eexists. split_and!; [done| |].
  - rewrite length_imap. unfold createStockChart.prices.
    by rewrite length_map, length_rev.
  - intros p [i Hi]%list_elem_of_lookup. revert Hi.
    rewrite list_lookup_imap.
    unfold createStockChart.priceRange, createStockChart.minPrice, createStockChart.maxPrice.
    rewrite Hp, list_lookup_fmap.
    destruct (Math_min_Fin q qs) as (m & -> & _ & Hm).
    destruct (Math_max_Fin q qs) as (M & -> & _ & HM).
    destruct ((q :: qs) !! i) as [qi|] eqn:Hqi; [|done].
    cbn [fmap option_fmap option_map]. intros [= <-]. cbn [snd].
    rewrite Forall_forall in Hc.
    pose proof (Hc m Hm) as Em. pose proof (Hc M HM) as EM.
    assert (qi == c)%Q as Ei by (apply Hc, list_elem_of_lookup; eauto).
    unfold point_y, sub, neg, add, div, createStockChart.chartHeight,
      createStockChart.padding, canvas_height, of_Z, mul.
    assert ((M + - m ?= 0)%Q = Eq) as -> by (apply Qeq_alt; lra).
    unfold scale_inf.
    assert ((qi + - m ?= 0)%Q = Eq) as -> by (apply Qeq_alt; lra).
    done.
Qed.

End ChartFacts.

(** ** The goals *)

Module GoalsFacts.
Import JSNum Goals JSNumFacts.

Lemma find_goal_app_fresh goalId gs g :
  Forall (λ g', id g' ≠ goalId) gs →
  id g = goalId →
  find_goal goalId (gs ++ [g]) = Some g.
Proof.
  intros Hfresh Hid. unfold find_goal.
  induction Hfresh as [|g0 gs Hne _ IH]; simpl.
  - by rewrite (proj2 (Z.eqb_eq _ _) Hid).
  - by rewrite (proj2 (Z.eqb_neq _ _) Hne).
Qed.

Lemma find_goal_id goalId gs g : find_goal goalId gs = Some g → id g = goalId.
Proof.
  unfold find_goal. intros H. apply find_some in H as [_ H]. by apply Z.eqb_eq.
Qed.

Lemma find_update_first goalId (f : Goal → Goal) gs g :
  find_goal goalId gs = Some g →
  id (f g) = id g →
  find_goal goalId (update_first goalId f gs) = Some (f g).
Proof.
  unfold find_goal. intros Hfind Hid.
  induction gs as [|g0 gs IH]; simpl in *; [done|].
  destruct (id g0 =? goalId) eqn:E.
  - injection Hfind as ->. simpl. rewrite Hid. by rewrite E.
  - simpl. rewrite E. by apply IH.
Qed.

(** C7: the end-to-end scenario.  A goal added with a target of 1000
    and a progress of 250 shows 25% Complete; after
    [quickAddProgress (id, 900)] its stored progress is exactly 1000,
    in the list and in the saved copy, and it shows 100% Complete. *)
Theorem emergency_fund_scenario (st : State) (deadline : option string) (now : Z) :
  Forall (λ g, id g ≠ now) (goals st) →
  ∃ goal st1 goal',
    addGoal "Emergency Fund" (of_Z 1000) (of_Z 250) deadline now st = (goal, st1)
    ∧ find_goal (id goal) (goals st1) = Some goal
    ∧ calculatePercentage (currentProgress goal) (targetAmount goal) = of_Z 25
    ∧ goal_percentage_text goal = Some "25% Complete"
    ∧ find_goal (id goal) (goals (quickAddProgress (id goal) (of_Z 900) st1)) = Some goal'
    ∧ savingsGoals (quickAddProgress (id goal) (of_Z 900) st1)
      = Some (goals (quickAddProgress (id goal) (of_Z 900) st1))
    ∧ currentProgress goal' = of_Z 1000
    ∧ targetAmount goal' = of_Z 1000
    ∧ calculatePercentage (currentProgress goal') (targetAmount goal') = of_Z 100
    ∧ goal_percentage_text goal' = Some "100% Complete".
Proof.
  intros Hfresh. unfold addGoal. eexists _, _, _.
  split; [reflexivity|]. cbn [id goals saveGoals].
  pose proof (find_goal_app_fresh now (goals st) _ Hfresh
                (eq_refl : id {| id := now; name := "Emergency Fund";
                                 targetAmount := parseFloat (of_Z 1000);
                                 currentProgress := parseFloat (of_Z 250);
                                 deadline := or_null deadline;
                                 dateCreated := now |} = now)) as Hfind.
  split; [exact Hfind|].
  split; [reflexivity|]. split; [reflexivity|].
  unfold quickAddProgress. cbn [goals saveGoals]. rewrite Hfind. cbn [goals savingsGoals].
  split; [|split; [reflexivity|]].
  - apply find_update_first; [exact Hfind|reflexivity].
  - split_and!; reflexivity.
Qed.

Lemma emergency_fund_scenario_witness :
  ∃ goal st1 goal',
    addGoal "Emergency Fund" (of_Z 1000) (of_Z 250) None 1700000000000
            {| goals := []; savingsGoals := None |} = (goal, st1)
    ∧ find_goal (id goal) (goals st1) = Some goal
    ∧ calculatePercentage (currentProgress goal) (targetAmount goal) = of_Z 25
    ∧ goal_percentage_text goal = Some "25% Complete"
    ∧ find_goal (id goal) (goals (quickAddProgress (id goal) (of_Z 900) st1)) = Some goal'
    ∧ savingsGoals (quickAddProgress (id goal) (of_Z 900) st1)
      = Some (goals (quickAddProgress (id goal) (of_Z 900) st1))
    ∧ currentProgress goal' = of_Z 1000
    ∧ targetAmount goal' = of_Z 1000
    ∧ calculatePercentage (currentProgress goal') (targetAmount goal') = of_Z 100
    ∧ goal_percentage_text goal' = Some "100% Complete".
Proof.
  apply (emergency_fund_scenario {| goals := []; savingsGoals := None |} None 1700000000000).
  simpl. constructor.
Defined.

(** C8, as stated, fails: [quickAddProgress] is a mutation that clamps
    the stored progress.  On a goal of target 1000 and progress 250,
    adding 900 stores 1000 and not 1150. *)
Lemma quickAddProgress_clamps_stored :
  ¬ (∀ st (goalId : Z) (amount : number) goal,
       find_goal goalId (goals st) = Some goal →
       ∃ goal', find_goal goalId (goals (quickAddProgress goalId amount st)) = Some goal'
                ∧ num_eq (currentProgress goal')
                         (add (currentProgress goal) (parseFloat amount))).
Proof.
  intros H.
  destruct (H {| goals := [fund_goal]; savingsGoals := None |} 1 (of_Z 900) fund_goal
              eq_refl) as (goal' & Hfind & Heq).
  vm_compute in Hfind. injection Hfind as <-. vm_compute in Heq. discriminate.
Qed.

(** The display never shows more than 100. *)
Lemma calculatePercentage_at_most_100 (current target : number) :
  gt (calculatePercentage current target) (of_Z 100) = false.
Proof.
  unfold calculatePercentage. destruct (strict_eq target (of_Z 0)); [reflexivity|].
  destruct (Math_round (mul (div current target) (of_Z 100))) as [q| | |]; try reflexivity.
  unfold min2, gt, of_Z.
  destruct (lt (Fin (inject_Z 100)) (Fin q)) eqn:E; [reflexivity|done].
Qed.

(** With a target other than zero, the display is the rounded ratio
    cut at 100. *)
Lemma calculatePercentage_clamp (current target : number) :
  strict_eq target (of_Z 0) = false →
  calculatePercentage current target
  = if gt (Math_round (mul (div current target) (of_Z 100))) (of_Z 100)
    then of_Z 100
    else Math_round (mul (div current target) (of_Z 100)).
Proof.
  intros Ht. unfold calculatePercentage. rewrite Ht.
  by destruct (Math_round (mul (div current target) (of_Z 100))).
Qed.

(** A finite progress that has reached a positive finite target is
    displayed as 100. *)
Lemma calculatePercentage_reached (c t : Q) :
  (0 < t)%Q → (t <= c)%Q → calculatePercentage (Fin c) (Fin t) = of_Z 100.
Proof.
  intros Ht Htc.
  assert (strict_eq (Fin t) (of_Z 0) = false) as Hz.
  { unfold strict_eq, of_Z. apply not_true_iff_false. intros E%Qeq_bool_iff.
    assert (inject_Z 0 == 0)%Q as E0 by reflexivity. lra. }
  rewrite calculatePercentage_clamp by done. unfold div, mul, of_Z at 1.
  destruct (t ?= 0)%Q eqn:Ec.
  { apply Qeq_alt in Ec. lra. }
  { apply Qlt_alt in Ec. lra. }
  unfold Math_round, gt.
  set (z := Qfloor (c / t * inject_Z 100 + (1 # 2))).
  assert (100 ≤ z) as Hz100.
  { change 100 with (Qfloor (inject_Z 100)). apply Qfloor_resp_le.
    assert (1 <= c / t)%Q as H1 by (apply Qle_shift_div_l; lra).
    assert (inject_Z 100 == 100)%Q as -> by reflexivity. lra. }
  destruct (lt (of_Z 100) (of_Z z)) eqn:E; [done|].
  unfold of_Z in E. apply lt_Fin_false in E. rewrite <-Zle_Qle in E.
  change (of_Z z = of_Z 100). f_equal. lia.
Qed.

(** C8 (amended): for every goal the displayed percentage is never
    above 100: with a target other than zero it is the rounded ratio
    cut at 100, and it is 100 as soon as a finite progress reaches a
    positive finite target.
    [updateGoalProgress] and [updateGoal] store the progress they are
    given, which may exceed the target, while [quickAddProgress] stores
    the sum only when it does not exceed the target and the target
    itself otherwise. *)
Theorem display_clamps_quickAdd_clamps (st : State) (goalId : Z) (goal : Goal) :
  find_goal goalId (goals st) = Some goal →
  (gt (calculatePercentage (currentProgress goal) (targetAmount goal)) (of_Z 100) = false
   ∧ (strict_eq (targetAmount goal) (of_Z 0) = false →
      calculatePercentage (currentProgress goal) (targetAmount goal)
      = if gt (Math_round (mul (div (currentProgress goal) (targetAmount goal)) (of_Z 100)))
              (of_Z 100)
        then of_Z 100
        else Math_round (mul (div (currentProgress goal) (targetAmount goal)) (of_Z 100)))
   ∧ (∀ c t : Q,
        currentProgress goal = Fin c → targetAmount goal = Fin t →
        (0 < t)%Q → (t <= c)%Q →
        calculatePercentage (currentProgress goal) (targetAmount goal) = of_Z 100))
  ∧ (∀ newProgress,
       find_goal goalId (goals (updateGoalProgress goalId newProgress st))
       = Some (with_progress newProgress goal))
  ∧ (∀ name target progress deadline,
       ∃ goal', find_goal goalId (goals (updateGoal goalId name target progress deadline st))
                = Some goal'
                ∧ currentProgress goal' = progress ∧ targetAmount goal' = target)
  ∧ (∀ amount,
       find_goal goalId (goals (quickAddProgress goalId amount st))
       = Some (with_progress
                 (if gt (add (currentProgress goal) amount) (targetAmount goal)
                  then targetAmount goal
                  else add (currentProgress goal) amount) goal)).
Proof.
  intros Hfind. split_and!.
  - apply calculatePercentage_at_most_100.
  - apply calculatePercentage_clamp.
  - intros c t Hc Ht. rewrite Hc, Ht. apply calculatePercentage_reached.
  - intros p. unfold updateGoalProgress. rewrite Hfind. cbn [goals saveGoals].
    by apply find_update_first.
  - intros name target progress deadline. unfold updateGoal. rewrite Hfind.
    cbn [goals saveGoals]. eexists. split; [by apply find_update_first|done].
  - intros amount. unfold quickAddProgress. rewrite Hfind. cbn [goals saveGoals].
    rewrite (find_update_first _ _ _ _ Hfind); [|by case_match].
    f_equal. unfold parseFloat. cbn [with_progress currentProgress targetAmount].
    by case_match.
Qed.

(** On a goal whose progress, 1500, is beyond its target, 1000: the
    display shows 100. *)
Lemma display_clamps_quickAdd_clamps_witness :
  ((gt (calculatePercentage (currentProgress (with_progress (of_Z 1500) fund_goal))
                            (targetAmount (with_progress (of_Z 1500) fund_goal)))
       (of_Z 100) = false
    ∧ (strict_eq (targetAmount (with_progress (of_Z 1500) fund_goal)) (of_Z 0) = false →
       calculatePercentage (currentProgress (with_progress (of_Z 1500) fund_goal))
                           (targetAmount (with_progress (of_Z 1500) fund_goal))
       = if gt (Math_round (mul (div (currentProgress (with_progress (of_Z 1500) fund_goal))
                                     (targetAmount (with_progress (of_Z 1500) fund_goal)))
                                (of_Z 100)))
               (of_Z 100)
         then of_Z 100
         else Math_round (mul (div (currentProgress (with_progress (of_Z 1500) fund_goal))
                                   (targetAmount (with_progress (of_Z 1500) fund_goal)))
                              (of_Z 100)))
    ∧ (∀ c t : Q,
         currentProgress (with_progress (of_Z 1500) fund_goal) = Fin c →
         targetAmount (with_progress (of_Z 1500) fund_goal) = Fin t →
         (0 < t)%Q → (t <= c)%Q →
         calculatePercentage (currentProgress (with_progress (of_Z 1500) fund_goal))
                             (targetAmount (with_progress (of_Z 1500) fund_goal))
         = of_Z 100))
   ∧ (∀ newProgress,
        find_goal 1 (goals (updateGoalProgress 1 newProgress
                              {| goals := [with_progress (of_Z 1500) fund_goal];
                                 savingsGoals := None |}))
        = Some (with_progress newProgress (with_progress (of_Z 1500) fund_goal)))
   ∧ (∀ name target progress deadline,
        ∃ goal', find_goal 1 (goals (updateGoal 1 name target progress deadline
                                       {| goals := [with_progress (of_Z 1500) fund_goal];
                                          savingsGoals := None |}))
                 = Some goal'
                 ∧ currentProgress goal' = progress ∧ targetAmount goal' = target)
   ∧ (∀ amount,
        find_goal 1 (goals (quickAddProgress 1 amount
                              {| goals := [with_progress (of_Z 1500) fund_goal];
                                 savingsGoals := None |}))
        = Some (with_progress
                  (if gt (add (currentProgress (with_progress (of_Z 1500) fund_goal)) amount)
                         (targetAmount (with_progress (of_Z 1500) fund_goal))
                   then targetAmount (with_progress (of_Z 1500) fund_goal)
                   else add (currentProgress (with_progress (of_Z 1500) fund_goal)) amount)
                  (with_progress (of_Z 1500) fund_goal))))
  ∧ calculatePercentage (of_Z 1500) (of_Z 1000) = of_Z 100
  ∧ find_goal 1 (goals (updateGoalProgress 1 (of_Z 1500)
                          {| goals := [fund_goal]; savingsGoals := None |}))
    = Some (with_progress (of_Z 1500) fund_goal).
Proof.
  pose proof (display_clamps_quickAdd_clamps
                {| goals := [with_progress (of_Z 1500) fund_goal]; savingsGoals := None |}
                1 (with_progress (of_Z 1500) fund_goal) eq_refl) as H.
  split; [exact H|]. split.
  - destruct H as ((_ & _ & Hd) & _).
    apply (Hd (inject_Z 1500) (inject_Z 1000) eq_refl eq_refl);
      [reflexivity|unfold Qle; simpl; lia].
  - destruct (display_clamps_quickAdd_clamps
                {| goals := [fund_goal]; savingsGoals := None |} 1 fund_goal eq_refl)
      as (_ & Hu & _).
    apply Hu.
Defined.

End GoalsFacts.

(** ** The persisted collections *)

Module StorageFacts.
Import Json Storage.



Lemma safeParse_stored `{JSON} (text : string) (value defaultValue : json) :
  text ≠ "" → JSON_parse text = Some value →
  safeParse (Some text) defaultValue = value.
Proof.
  intros Hne Hp. unfold safeParse. rewrite Hp.
  destruct (String.eqb text "") eqn:E; [|done]. by apply String.eqb_eq in E.
Qed.

Lemma store_if_truthy_stored (key text : string) (ls : localStorage) :
  text ≠ "" → store_if_truthy key (Some text) ls = (true, <[key := text]> ls).
Proof.
  intros Hne. unfold store_if_truthy, setItem.
  destruct (String.eqb text "") eqn:E; [|done]. by apply String.eqb_eq in E.
Qed.



(** The initialisers of the module-level arrays throw on a stored text
    that [JSON.parse] rejects. *)
Lemma parse_or_empty_malformed `{JSON} (key text : string) (ls : localStorage) :
  getItem key ls = Some text → JSON_parse text = None →
  parse_or_empty key ls = ThrowSyntaxError.
Proof. intros Hg Hp. unfold parse_or_empty. by rewrite Hg, Hp. Qed.

(** C3: with a stored text that is not JSON, the initialisers of
    [goals] (scripts/goals.js) and of [spendingItems] throw a
    [SyntaxError], where the specification promises the empty default; the
    loader of scripts/storage.js on the same text returns it. *)
Theorem module_level_loaders_throw :
  @goals MiniJSON.codec {["savingsGoals" := "{oops"]} = ThrowSyntaxError
  ∧ @spendingItems MiniJSON.codec {["spendingItems" := "[1,"]} = ThrowSyntaxError
  ∧ @portfolioStorage.load MiniJSON.codec {[STORAGE_KEYS.PORTFOLIO := "{oops"]} = JArr [].
Proof. split_and!; reflexivity. Qed.

(** C6, as stated, fails for the settings: saving the empty sequence
    and loading gives back the default settings object. *)
Lemma settings_load_is_not_saved :
  @settingsStorage.load MiniJSON.codec
    (@settingsStorage.save MiniJSON.codec (JArr []) ∅).2 ≠ JArr [].
Proof. vm_compute. discriminate. Qed.

(** C6 (amended): for portfolio, transactions, expenses and goals,
    [save x] succeeds and a following [load] returns exactly [x], for
    every JSON value [x] that the platform writes as a non-empty text
    and reads back (the empty sequence and sequences of records
    included); for the settings, the following [load] returns the
    defaults overlaid with the own properties of [x]. *)
Theorem save_then_load `{JSON} (x : json) (ls : localStorage) :
  JSON_stringify x ≠ "" →
  JSON_parse (JSON_stringify x) = Some x →
  (portfolioStorage.save x ls).1 = true
  ∧ portfolioStorage.load (portfolioStorage.save x ls).2 = x
  ∧ (transactionStorage.save x ls).1 = true
  ∧ transactionStorage.load (transactionStorage.save x ls).2 = x
  ∧ (expenseStorage.save x ls).1 = true
  ∧ expenseStorage.load (expenseStorage.save x ls).2 = x
  ∧ (goalStorage.save x ls).1 = true
  ∧ goalStorage.load (goalStorage.save x ls).2 = x
  ∧ (settingsStorage.save x ls).1 = true
  ∧ settingsStorage.load (settingsStorage.save x ls).2
    = spread2 settingsStorage.defaults x.
Proof.
  intros Hne Hrt.
  unfold portfolioStorage.save, transactionStorage.save, expenseStorage.save,
    goalStorage.save, settingsStorage.save, safeStringify.
  rewrite !store_if_truthy_stored by done. cbn [fst snd].
  unfold portfolioStorage.load, transactionStorage.load, expenseStorage.load,
    goalStorage.load, settingsStorage.load, getItem.
  rewrite !lookup_insert_eq.
  rewrite !(safeParse_stored _ x) by done. done.
Qed.

(** The empty sequence saved and loaded through the four list
    collections. *)
Example empty_sequence_round_trip :
  @portfolioStorage.load MiniJSON.codec
    (@portfolioStorage.save MiniJSON.codec (JArr []) ∅).2 = JArr []
  ∧ @transactionStorage.load MiniJSON.codec
      (@transactionStorage.save MiniJSON.codec (JArr []) ∅).2 = JArr []
  ∧ @expenseStorage.load MiniJSON.codec
      (@expenseStorage.save MiniJSON.codec (JArr []) ∅).2 = JArr []
  ∧ @goalStorage.load MiniJSON.codec
      (@goalStorage.save MiniJSON.codec (JArr []) ∅).2 = JArr [].
Proof. split_and!; reflexivity. Qed.

Lemma save_then_load_witness :
  (@portfolioStorage.save MiniJSON.codec two_records ∅).1 = true
  ∧ @portfolioStorage.load MiniJSON.codec
      (@portfolioStorage.save MiniJSON.codec two_records ∅).2 = two_records
  ∧ (@transactionStorage.save MiniJSON.codec two_records ∅).1 = true
  ∧ @transactionStorage.load MiniJSON.codec
      (@transactionStorage.save MiniJSON.codec two_records ∅).2 = two_records
  ∧ (@expenseStorage.save MiniJSON.codec two_records ∅).1 = true
  ∧ @expenseStorage.load MiniJSON.codec
      (@expenseStorage.save MiniJSON.codec two_records ∅).2 = two_records
  ∧ (@goalStorage.save MiniJSON.codec two_records ∅).1 = true
  ∧ @goalStorage.load MiniJSON.codec
      (@goalStorage.save MiniJSON.codec two_records ∅).2 = two_records
  ∧ (@settingsStorage.save MiniJSON.codec two_records ∅).1 = true
  ∧ @settingsStorage.load MiniJSON.codec
      (@settingsStorage.save MiniJSON.codec two_records ∅).2
    = spread2 settingsStorage.defaults two_records.
Proof.
  apply (@save_then_load MiniJSON.codec two_records ∅).
  - vm_compute. discriminate.
  - vm_compute. reflexivity.
Defined.

End StorageFacts.

(** ** The cache: writing, deleting, sweeping, counting *)

Module CacheLaws.
Import Json Cache Cache.cacheStorage CacheFacts.

Lemma total_insert_fresh (cache : CacheObj) category entries :
  cache !! category = None →
  total (<[category := entries]> cache) = (total cache + size entries)%nat.
Proof.
  intros Hc. unfold total. rewrite map_to_list_insert by done. simpl. lia.
Qed.

Lemma entry_at_None_category (cache : CacheObj) category key :
  cache !! category = None → entry_at cache category key = None.
Proof. intros H. unfold entry_at. by rewrite H. Qed.

(** X5: [set] then [get], at a category and a key that
    [Object.prototype] does not define: the value written is read back,
    and the read leaves the store as the write left it, whenever the
    ttl is null or zero or the age does not exceed it. *)
Theorem set_then_get ls category key value ttl0 t0 now :
  category ∉ StorageOps.Object_prototype →
  key ∉ StorageOps.Object_prototype →
  (ttl0 = None ∨ ttl0 = Some 0 ∨ ∃ t, ttl0 = Some t ∧ now - t0 ≤ t) →
  get category key now (set category key value ttl0 t0 ls).2
  = (value, (set category key value ttl0 t0 ls).2).
Proof.
  intros _ _ Hlive.
  pose proof (set_entry_at ls category key value ttl0 t0 category key) as He.
  rewrite decide_True in He by done.
  rewrite (get_present _ _ _ _ _ He).
  assert (ttl_expired now {| data := value; timestamp := t0; ttl := ttl0 |} = false) as ->.
  { apply ttl_expired_false. cbn [ttl timestamp]. done. }
  done.
Qed.

Lemma set_then_get_witness :
  get "news" "top" 90000000 (set "news" "top" (JArr [JStr "a"]) (Some 86400000) 3600000 None).2
  = (JArr [JStr "a"], (set "news" "top" (JArr [JStr "a"]) (Some 86400000) 3600000 None).2).
Proof.
  apply (set_then_get None "news" "top" (JArr [JStr "a"]) (Some 86400000) 3600000 90000000).
  - apply (bool_decide_unpack _). by vm_compute.
  - apply (bool_decide_unpack _). by vm_compute.
  - right; right. exists 86400000. split; [reflexivity|lia].
Defined.

(** X6: [set], at a category and a key that [Object.prototype] does
    not define, stores the entry, touches no other coordinate, and
    makes [getStats] count one entry more exactly when the coordinate
    was empty. *)
Theorem set_frame ls category key value ttl0 now :
  category ∉ StorageOps.Object_prototype →
  key ∉ StorageOps.Object_prototype →
  entry_at (load (set category key value ttl0 now ls).2) category key
  = Some {| data := value; timestamp := now; ttl := ttl0 |}
  ∧ (∀ c k, ¬ (c = category ∧ k = key) →
            entry_at (load (set category key value ttl0 now ls).2) c k
            = entry_at (load ls) c k)
  ∧ totalEntries (getStats (set category key value ttl0 now ls).2)
    = match entry_at (load ls) category key with
      | Some _ => totalEntries (getStats ls)
      | None => S (totalEntries (getStats ls))
      end.
Proof.
  intros _ _. split_and!.
  - rewrite set_entry_at. by rewrite decide_True.
  - intros c k Hne. rewrite set_entry_at. by rewrite decide_False.
  - rewrite !getStats_totalEntries. unfold set, save. cbn [snd load].
    set (e := {| data := value; timestamp := now; ttl := ttl0 |}).
    unfold entry_at.
    destruct (load ls !! category) as [entries|] eqn:Hc; cbn [mbind option_bind].
    + rewrite (lookup_total_correct _ _ _ Hc).
      pose proof (total_insert (load ls) category entries (<[key := e]> entries) Hc) as Ht.
      destruct (entries !! key) as [old|] eqn:Hk.
      * rewrite map_size_insert_Some in Ht by eauto. lia.
      * rewrite map_size_insert_None in Ht by done. lia.
    + rewrite lookup_total_insert_eq, insert_insert_eq.
      rewrite total_insert_fresh by done.
      rewrite map_size_insert_None by apply lookup_empty.
      rewrite map_size_empty. lia.
Qed.

Lemma set_frame_witness :
  entry_at (load (set "news" "top" (JArr [JStr "a"]) None 5000 hour_store).2) "news" "top"
  = Some {| data := JArr [JStr "a"]; timestamp := 5000; ttl := None |}
  ∧ (∀ c k, ¬ (c = "news" ∧ k = "top") →
            entry_at (load (set "news" "top" (JArr [JStr "a"]) None 5000 hour_store).2) c k
            = entry_at (load hour_store) c k)
  ∧ totalEntries (getStats (set "news" "top" (JArr [JStr "a"]) None 5000 hour_store).2)
    = match entry_at (load hour_store) "news" "top" with
      | Some _ => totalEntries (getStats hour_store)
      | None => S (totalEntries (getStats hour_store))
      end.
Proof.
  apply (set_frame hour_store "news" "top" (JArr [JStr "a"]) None 5000).
  - apply (bool_decide_unpack _). by vm_compute.
  - apply (bool_decide_unpack _). by vm_compute.
Defined.

(** X7: at a category and a key that [Object.prototype] does not
    define, [delete] answers whether the entry was there; it removes
    that entry and nothing else, and leaves the store alone when there
    was nothing to remove. *)
Theorem delete_removes_one ls category key :
  category ∉ StorageOps.Object_prototype →
  key ∉ StorageOps.Object_prototype →
  ((delete category key ls).1 = true ↔ is_Some (entry_at (load ls) category key))
  ∧ (entry_at (load ls) category key = None → (delete category key ls).2 = ls)
  ∧ (∀ c k, entry_at (load (delete category key ls).2) c k
            = if decide (c = category ∧ k = key) then None else entry_at (load ls) c k)
  ∧ (∀ now, (get category key now (delete category key ls).2).1 = JNull).
Proof.
  intros _ _.
  assert (∀ c k, entry_at (load (delete category key ls).2) c k
            = if decide (c = category ∧ k = key) then None else entry_at (load ls) c k) as Hl.
  { intros c k. unfold delete.
    destruct (load ls !! category) as [entries|] eqn:Hc.
    - destruct (entries !! key) as [e|] eqn:Hk; cbn [snd save load].
      + by rewrite (entry_at_evicted _ _ _ _ _ _ Hc).
      + case_decide as H; [|done]. destruct H as [-> ->]. unfold entry_at.
        by rewrite Hc.
    - cbn [snd]. case_decide as H; [|done]. destruct H as [-> ->].
      by apply entry_at_None_category. }
  split_and!; [| |done|].
  - unfold delete, entry_at. destruct (load ls !! category) as [entries|]; simpl.
    + destruct (entries !! key); simpl; split; by eauto using is_Some_None.
    + split; [done|]. by intros [? ?].
  - unfold delete, entry_at. destruct (load ls !! category) as [entries|]; simpl; [|done].
    by destruct (entries !! key).
  - intros now. specialize (Hl category key). rewrite decide_True in Hl by done.
    unfold get. unfold entry_at in Hl.
    destruct (load (delete category key ls).2 !! category) as [entries|]; [|done].
    simpl in Hl. by rewrite Hl.
Qed.

Lemma delete_removes_one_witness :
  ((delete "stockPrices" "AAPL" hour_store).1 = true
   ↔ is_Some (entry_at (load hour_store) "stockPrices" "AAPL"))
  ∧ (entry_at (load hour_store) "stockPrices" "AAPL" = None →
     (delete "stockPrices" "AAPL" hour_store).2 = hour_store)
  ∧ (∀ c k, entry_at (load (delete "stockPrices" "AAPL" hour_store).2) c k
            = if decide (c = "stockPrices" ∧ k = "AAPL") then None
              else entry_at (load hour_store) c k)
  ∧ (∀ now, (get "stockPrices" "AAPL" now (delete "stockPrices" "AAPL" hour_store).2).1
            = JNull).
Proof.
  apply (delete_removes_one hour_store "stockPrices" "AAPL").
  - apply (bool_decide_unpack _). by vm_compute.
  - apply (bool_decide_unpack _). by vm_compute.
Defined.

(** *** Sweeping twice *)

Lemma sweep_key_settled now category key (cache : CacheObj) (n : nat) :
  (∀ c k e, entry_at cache c k = Some e → ttl_expired now e = false) →
  sweep_key now category key (cache, n) = (cache, n).
Proof.
  intros Hlive. unfold sweep_key.
  destruct (entry_at cache category key) as [e|] eqn:He; [|done].
  by rewrite (Hlive _ _ _ He).
Qed.

Lemma sweep_keys_settled now category (ks : list string) (cache : CacheObj) (n : nat) :
  (∀ c k e, entry_at cache c k = Some e → ttl_expired now e = false) →
  foldl (λ acc key, sweep_key now category key acc) (cache, n) ks = (cache, n).
Proof.
  intros Hlive. induction ks as [|k ks IH]; [done|].
  cbn [foldl]. by rewrite sweep_key_settled.
Qed.

Lemma sweep_categories_settled now (cs : list string) (cache : CacheObj) (n : nat) :
  (∀ c k e, entry_at cache c k = Some e → ttl_expired now e = false) →
  foldl (sweep_category now) (cache, n) cs = (cache, n).
Proof.
  intros Hlive. induction cs as [|c cs IH]; [done|].
  cbn [foldl]. unfold sweep_category at 2. cbn [fst].
  by rewrite sweep_keys_settled.
Qed.

(** X8: after [clearExpired] nothing is left to expire at that instant: a
    second sweep removes nothing and rewrites the same cache, and no
    [get] at that instant evicts anything. *)
Theorem clearExpired_settles now ls :
  clearExpired now (clearExpired now ls).2 = (0%nat, (clearExpired now ls).2)
  ∧ ∀ category key,
      (get category key now (clearExpired now ls).2).2 = (clearExpired now ls).2.
Proof.
  destruct (clearExpired_spec now ls) as [Hl _].
  assert (∀ c k e, entry_at (load (clearExpired now ls).2) c k = Some e →
                   ttl_expired now e = false) as Hlive.
  { intros c k e. rewrite Hl. destruct (entry_at (load ls) c k) as [e'|]; [|done].
    cbn [keep]. destruct (ttl_expired now e') eqn:Hx; [done|]. by intros [= <-]. }
  split.
  - unfold clearExpired at 1. rewrite sweep_categories_settled by done.
    cbn [snd save]. f_equal. unfold clearExpired.
    by destruct (foldl _ _ _).
  - intros category key. unfold get.
    destruct (load (clearExpired now ls).2 !! category) as [entries|] eqn:Hc; [|done].
    destruct (entries !! key) as [e|] eqn:Hk; [|done].
    rewrite (Hlive category key e); [done|]. unfold entry_at. by rewrite Hc.
Qed.

(** *** Statistics *)

(** [getStats] lists every category of the cache with the number of
    its keys, and its total is the sum of those numbers. *)
Lemma getStats_consistent ls :
  byCategory (getStats ls) = size <$> load ls
  ∧ totalEntries (getStats ls) = sum_list (map_to_list (byCategory (getStats ls))).*2.
Proof.
  assert (byCategory (getStats ls) = size <$> load ls) as Hb.
  { apply map_eq. intros c. by rewrite getStats_byCategory, lookup_fmap. }
  split; [done|]. rewrite Hb, getStats_totalEntries. unfold total.
  rewrite map_to_list_fmap. generalize (map_to_list (load ls)). intros l.
  induction l as [|[c m] l IH]; [done|].
  rewrite !fmap_cons. cbn [sum_list_with sum_list fst snd prod_map]. by rewrite IH.
Qed.

(** X9: [clearCategory], at a category that [Object.prototype] does not
    define, leaves that category present and empty (creating it if
    need be) and the other categories as they were; after [clear] the
    cache holds no entry, and [get] finds nothing at any category and
    key that [Object.prototype] does not define. *)
Theorem clearCategory_and_clear ls category :
  category ∉ StorageOps.Object_prototype →
  load (clearCategory category ls).2 !! category = Some ∅
  ∧ (∀ c, c ≠ category → load (clearCategory category ls).2 !! c = load ls !! c)
  ∧ byCategory (getStats (clearCategory category ls).2) !! category = Some 0%nat
  ∧ totalEntries (getStats (clear ls).2) = 0%nat
  ∧ (∀ c k now,
       c ∉ StorageOps.Object_prototype → k ∉ StorageOps.Object_prototype →
       get c k now (clear ls).2 = (JNull, (clear ls).2)).
Proof.
  intros _. unfold clearCategory, save, clear. cbn [fst snd]. split_and!.
  - cbn [load]. by rewrite lookup_insert_eq.
  - intros c Hne. cbn [load]. by rewrite lookup_insert_ne.
  - rewrite getStats_byCategory. cbn [load]. by rewrite lookup_insert_eq.
  - reflexivity.
  - intros c k now _ _. unfold get.
    destruct (load None !! c) as [entries|] eqn:Hc; [|done].
    assert (entries = ∅) as ->; [|by rewrite lookup_empty].
    cbn [load] in Hc.
    repeat (apply lookup_insert_Some in Hc as [[_ <-]|[_ Hc]]; [done|]).
    by rewrite lookup_empty in Hc.
Qed.

Lemma clearCategory_and_clear_witness :
  load (clearCategory "stockPrices" hour_store).2 !! "stockPrices" = Some ∅
  ∧ (∀ c, c ≠ "stockPrices" →
          load (clearCategory "stockPrices" hour_store).2 !! c = load hour_store !! c)
  ∧ byCategory (getStats (clearCategory "stockPrices" hour_store).2) !! "stockPrices"
    = Some 0%nat
  ∧ totalEntries (getStats (clear hour_store).2) = 0%nat
  ∧ (∀ c k now,
       c ∉ StorageOps.Object_prototype → k ∉ StorageOps.Object_prototype →
       get c k now (clear hour_store).2 = (JNull, (clear hour_store).2)).
Proof.
  apply (clearCategory_and_clear hour_store "stockPrices").
  apply (bool_decide_unpack _). by vm_compute.
Defined.

(** *** The two expiry checks *)

(** X10: for an entry with a stored ttl, [isValid] asked with that ttl as
    [maxAge] never accepts an entry that [get] would evict: when it
    answers true, [get] returns the stored value and evicts nothing. *)
Theorem isValid_with_ttl_implies_get ls category key entry t now :
  entry_at (load ls) category key = Some entry →
  ttl entry = Some t →
  (isValid category key t now ls).1 = true →
  get category key now ls = (data entry, ls).
Proof.
  intros He Ht Hv. rewrite (get_present _ _ _ _ _ He).
  assert (now - timestamp entry < t) as Hage.
  { unfold isValid, entry_at in *.
    destruct (load ls !! category) as [entries|]; [|done]. simpl in He.
    rewrite He in Hv. by apply Z.ltb_lt in Hv. }
  assert (ttl_expired now entry = false) as ->; [|done].
  apply ttl_expired_false. right; right. exists t. split; [done|lia].
Qed.

Lemma isValid_with_ttl_implies_get_witness :
  get "stockPrices" "AAPL" 3000000 hour_store = (data hour_entry, hour_store).
Proof.
  apply (isValid_with_ttl_implies_get hour_store "stockPrices" "AAPL" hour_entry
           3600000 3000000); reflexivity.
Defined.

End CacheLaws.

(** ** The goal list: which goal an operation reaches *)

Module GoalListFacts.
Import JSNum Goals JSNumFacts GoalsFacts.

(** *** Which goal an update reaches *)

Lemma find_goal_split goalId gs g :
  find_goal goalId gs = Some g →
  ∃ pre post, gs = pre ++ g :: post ∧ Forall (λ g', id g' ≠ goalId) pre ∧ id g = goalId.
Proof.
  unfold find_goal. induction gs as [|g0 gs IH]; [done|]. cbn [find].
  destruct (id g0 =? goalId) eqn:E.
  - intros [= <-]. exists [], gs. split_and!; [done|constructor|by apply Z.eqb_eq].
  - intros Hf. destruct (IH Hf) as (pre & post & -> & Hpre & Hid).
    exists (g0 :: pre), post. split_and!; [done| |done].
    constructor; [by apply Z.eqb_neq|done].
Qed.

Lemma find_goal_fresh goalId gs :
  Forall (λ g, id g ≠ goalId) gs → find_goal goalId gs = None.
Proof.
  unfold find_goal. induction 1 as [|g gs Hne _ IH]; [done|].
  cbn [find]. by rewrite (proj2 (Z.eqb_neq _ _) Hne).
Qed.

Lemma update_first_split goalId (f : Goal → Goal) pre g post :
  Forall (λ g', id g' ≠ goalId) pre → id g = goalId →
  update_first goalId f (pre ++ g :: post) = pre ++ f g :: post.
Proof.
  intros Hpre Hid. induction Hpre as [|g0 pre Hne _ IH]; cbn [app update_first].
  - by rewrite (proj2 (Z.eqb_eq _ _) Hid).
  - rewrite (proj2 (Z.eqb_neq _ _) Hne). by rewrite IH.
Qed.

(** X11: [updateGoalProgress], [quickAddProgress] and [updateGoal] change
    the first goal that carries the id and no other: the goals before
    and after it, later goals with the same id included, stay as they
    are, in place, and the saved copy is the new list. *)
Theorem updates_reach_first_goal_only (st : State) (goalId : Z) (goal : Goal) :
  find_goal goalId (goals st) = Some goal →
  ∃ pre post,
    goals st = pre ++ goal :: post
    ∧ Forall (λ g, id g ≠ goalId) pre
    ∧ (∀ newProgress,
         goals (updateGoalProgress goalId newProgress st)
         = pre ++ with_progress newProgress goal :: post
         ∧ savingsGoals (updateGoalProgress goalId newProgress st)
           = Some (goals (updateGoalProgress goalId newProgress st)))
    ∧ (∀ amount, ∃ goal',
         goals (quickAddProgress goalId amount st) = pre ++ goal' :: post
         ∧ id goal' = goalId ∧ targetAmount goal' = targetAmount goal
         ∧ savingsGoals (quickAddProgress goalId amount st)
           = Some (goals (quickAddProgress goalId amount st)))
    ∧ (∀ name target progress deadline, ∃ goal',
         goals (updateGoal goalId name target progress deadline st) = pre ++ goal' :: post
         ∧ id goal' = goalId ∧ dateCreated goal' = dateCreated goal
         ∧ savingsGoals (updateGoal goalId name target progress deadline st)
           = Some (goals (updateGoal goalId name target progress deadline st))).
Proof.
  intros Hfind. destruct (find_goal_split _ _ _ Hfind) as (pre & post & Hgs & Hpre & Hid).
  exists pre, post. split_and!; [done|done| | |].
  - intros p. unfold updateGoalProgress. rewrite Hfind. cbn [goals savingsGoals saveGoals].
    rewrite Hgs. by rewrite update_first_split.
  - intros amount. unfold quickAddProgress. rewrite Hfind. cbn [goals savingsGoals saveGoals].
    rewrite Hgs, update_first_split by done. eexists. split; [done|].
    split_and!; [by case_match|by case_match|done].
  - intros name target progress deadline. unfold updateGoal. rewrite Hfind.
    cbn [goals savingsGoals saveGoals].
    rewrite Hgs, update_first_split by done. eexists. split; [done|]. done.
Qed.

Lemma updates_reach_first_goal_only_witness :
  ∃ pre post,
    [fund_goal; with_progress (of_Z 7) fund_goal] = pre ++ fund_goal :: post
    ∧ Forall (λ g, id g ≠ 1) pre
    ∧ (∀ newProgress,
         goals (updateGoalProgress 1 newProgress
                  {| goals := [fund_goal; with_progress (of_Z 7) fund_goal];
                     savingsGoals := None |})
         = pre ++ with_progress newProgress fund_goal :: post
         ∧ savingsGoals (updateGoalProgress 1 newProgress
                           {| goals := [fund_goal; with_progress (of_Z 7) fund_goal];
                              savingsGoals := None |})
           = Some (goals (updateGoalProgress 1 newProgress
                            {| goals := [fund_goal; with_progress (of_Z 7) fund_goal];
                               savingsGoals := None |})))
    ∧ (∀ amount, ∃ goal',
         goals (quickAddProgress 1 amount
                  {| goals := [fund_goal; with_progress (of_Z 7) fund_goal];
                     savingsGoals := None |}) = pre ++ goal' :: post
         ∧ id goal' = 1 ∧ targetAmount goal' = targetAmount fund_goal
         ∧ savingsGoals (quickAddProgress 1 amount
                           {| goals := [fund_goal; with_progress (of_Z 7) fund_goal];
                              savingsGoals := None |})
           = Some (goals (quickAddProgress 1 amount
                            {| goals := [fund_goal; with_progress (of_Z 7) fund_goal];
                               savingsGoals := None |})))
    ∧ (∀ name target progress deadline, ∃ goal',
         goals (updateGoal 1 name target progress deadline
                  {| goals := [fund_goal; with_progress (of_Z 7) fund_goal];
                     savingsGoals := None |}) = pre ++ goal' :: post
         ∧ id goal' = 1 ∧ dateCreated goal' = dateCreated fund_goal
         ∧ savingsGoals (updateGoal 1 name target progress deadline
                           {| goals := [fund_goal; with_progress (of_Z 7) fund_goal];
                              savingsGoals := None |})
           = Some (goals (updateGoal 1 name target progress deadline
                            {| goals := [fund_goal; with_progress (of_Z 7) fund_goal];
                               savingsGoals := None |}))).
Proof.
  apply (updates_reach_first_goal_only
           {| goals := [fund_goal; with_progress (of_Z 7) fund_goal]; savingsGoals := None |}
           1 fund_goal).
  reflexivity.
Defined.

(** X12: [deleteGoal], once confirmed, removes every goal that carries the
    id, duplicates included, keeps all the others in their order, and
    saves the result; declined, it changes nothing. *)
Theorem deleteGoal_removes_all_with_id (st : State) (goalId : Z) (goal : Goal) :
  find_goal goalId (goals st) = Some goal →
  deleteGoal goalId false st = st
  ∧ Forall (λ g, id g ≠ goalId) (goals (deleteGoal goalId true st))
  ∧ (∀ g, id g ≠ goalId → g ∈ goals st → g ∈ goals (deleteGoal goalId true st))
  ∧ goals (deleteGoal goalId true st) `sublist_of` goals st
  ∧ find_goal goalId (goals (deleteGoal goalId true st)) = None
  ∧ savingsGoals (deleteGoal goalId true st) = Some (goals (deleteGoal goalId true st)).
Proof.
  intros Hfind. unfold deleteGoal. rewrite Hfind. cbn [goals savingsGoals saveGoals].
  assert (Forall (λ g, id g ≠ goalId) (filter (λ g, id g ≠ goalId) (goals st))) as Hall.
  { apply Forall_forall. intros g Hin. by apply list_elem_of_filter in Hin as [? _]. }
  split_and!; [done|done| | | |done].
  - intros g Hne Hin. by apply list_elem_of_filter.
  - apply sublist_filter.
  - by apply find_goal_fresh.
Qed.

Lemma deleteGoal_removes_all_with_id_witness :
  deleteGoal 1 false {| goals := [fund_goal; with_progress (of_Z 7) fund_goal];
                        savingsGoals := None |}
  = {| goals := [fund_goal; with_progress (of_Z 7) fund_goal]; savingsGoals := None |}
  ∧ Forall (λ g, id g ≠ 1)
      (goals (deleteGoal 1 true {| goals := [fund_goal; with_progress (of_Z 7) fund_goal];
                                   savingsGoals := None |}))
  ∧ (∀ g, id g ≠ 1 → g ∈ [fund_goal; with_progress (of_Z 7) fund_goal] →
          g ∈ goals (deleteGoal 1 true
                       {| goals := [fund_goal; with_progress (of_Z 7) fund_goal];
                          savingsGoals := None |}))
  ∧ goals (deleteGoal 1 true {| goals := [fund_goal; with_progress (of_Z 7) fund_goal];
                                savingsGoals := None |})
    `sublist_of` [fund_goal; with_progress (of_Z 7) fund_goal]
  ∧ find_goal 1 (goals (deleteGoal 1 true
                          {| goals := [fund_goal; with_progress (of_Z 7) fund_goal];
                             savingsGoals := None |})) = None
  ∧ savingsGoals (deleteGoal 1 true
                    {| goals := [fund_goal; with_progress (of_Z 7) fund_goal];
                       savingsGoals := None |})
    = Some (goals (deleteGoal 1 true
                     {| goals := [fund_goal; with_progress (of_Z 7) fund_goal];
                        savingsGoals := None |})).
Proof.
  apply (deleteGoal_removes_all_with_id
           {| goals := [fund_goal; with_progress (of_Z 7) fund_goal]; savingsGoals := None |}
           1 fund_goal).
  reflexivity.
Defined.

End GoalListFacts.

(** ** Percentages and the tracker *)

Module PercentFacts.
Import JSNum JSNumFacts.

Lemma min2_of_Z (z : Z) : min2 (of_Z z) (of_Z 100) = of_Z (Z.min z 100).
Proof.
  unfold min2, of_Z. destruct (lt (Fin (inject_Z 100)) (Fin (inject_Z z))) eqn:Hlt.
  - apply lt_Fin in Hlt. rewrite <-Zlt_Qlt in Hlt. by rewrite Z.min_r by lia.
  - apply lt_Fin_false in Hlt. rewrite <-Zle_Qle in Hlt. by rewrite Z.min_l by lia.
Qed.

Lemma of_Z_inj (a b : Z) : of_Z a = of_Z b → a = b.
Proof. unfold of_Z, inject_Z. by intros [= ->]. Qed.

(** The percentage of the goals page for a target that is not zero. *)
Lemma goals_percentage_closed (c t : Q) :
  ¬ (t == 0)%Q →
  Goals.calculatePercentage (Fin c) (Fin t)
  = of_Z (Z.min (Qfloor (c / t * inject_Z 100 + (1 # 2))) 100).
Proof.
  intros Ht. unfold Goals.calculatePercentage, strict_eq, of_Z at 1.
  destruct (Qeq_bool t (inject_Z 0)) eqn:E.
  { apply Qeq_bool_iff in E. by destruct Ht. }
  unfold div, mul, of_Z at 1.
  destruct (t ?= 0)%Q eqn:Ec.
  { apply Qeq_alt in Ec. by destruct Ht. }
  all: unfold Math_round; apply min2_of_Z.
Qed.

Lemma percent_arg_mono (c c' t : Q) :
  (0 < t)%Q → (c <= c')%Q →
  (c / t * inject_Z 100 + (1 # 2) <= c' / t * inject_Z 100 + (1 # 2))%Q.
Proof.
  intros Ht Hc. unfold Qdiv. pose proof (Qinv_lt_0_compat t Ht) as Hi.
  assert (inject_Z 100 == 100)%Q as -> by reflexivity. nra.
Qed.

(** X13: for a progress that is not negative and a positive target, the
    percentage shown on the goals page is a whole number from 0 to 100,
    it is 100 as soon as the progress reaches the target, and it never
    decreases when the progress grows. *)
Theorem percentage_range_and_monotone (c t : Q) :
  (0 <= c)%Q → (0 < t)%Q →
  ∃ p : Z,
    Goals.calculatePercentage (Fin c) (Fin t) = of_Z p
    ∧ 0 ≤ p ≤ 100
    ∧ ((t <= c)%Q → p = 100)
    ∧ ∀ (c' : Q) (p' : Z),
        (c <= c')%Q → Goals.calculatePercentage (Fin c') (Fin t) = of_Z p' → p ≤ p'.
Proof.
  intros Hc Ht.
  assert (¬ (t == 0)%Q) as Htz by lra.
  exists (Z.min (Qfloor (c / t * inject_Z 100 + (1 # 2))) 100).
  split; [by apply goals_percentage_closed|].
  assert (0 <= c / t)%Q as Hq.
  { unfold Qdiv. pose proof (Qinv_lt_0_compat t Ht). nra. }
  split_and!.
  - assert (0 ≤ Qfloor (c / t * inject_Z 100 + (1 # 2))); [|lia].
    change 0 with (Qfloor (inject_Z 0)). apply Qfloor_resp_le.
    assert (inject_Z 100 == 100)%Q as -> by reflexivity.
    assert (inject_Z 0 == 0)%Q as -> by reflexivity. nra.
  - lia.
  - intros Htc.
    assert (100 ≤ Qfloor (c / t * inject_Z 100 + (1 # 2))); [|lia].
    change 100 with (Qfloor (inject_Z 100)) at 1. apply Qfloor_resp_le.
    assert (1 <= c / t)%Q.
    { apply Qle_shift_div_l; [done|]. lra. }
    assert (inject_Z 100 == 100)%Q as -> by reflexivity. nra.
  - intros c' p' Hcc. rewrite goals_percentage_closed by done.
    intros H%of_Z_inj. subst p'.
    apply Z.min_le_compat_r, Qfloor_resp_le. by apply percent_arg_mono.
Qed.

Lemma percentage_range_and_monotone_witness :
  ∃ p : Z,
    Goals.calculatePercentage (Fin (inject_Z 250)) (Fin (inject_Z 1000)) = of_Z p
    ∧ 0 ≤ p ≤ 100
    ∧ ((inject_Z 1000 <= inject_Z 250)%Q → p = 100)
    ∧ ∀ (c' : Q) (p' : Z),
        (inject_Z 250 <= c')%Q →
        Goals.calculatePercentage (Fin c') (Fin (inject_Z 1000)) = of_Z p' → p ≤ p'.
Proof.
  apply (percentage_range_and_monotone (inject_Z 250) (inject_Z 1000)); by vm_compute.
Defined.

(** X14: the tracker's [calculatePercentage] agrees with the one of the
    goals page whenever the target is finite and not zero; at a target
    of zero the goals page shows 0 for every progress, while the
    tracker computes NaN for a progress of zero and, the zero being
    [+0] (the zero of [JSNum]; a target of [-0] is outside it), 100 for
    a positive progress. *)
Theorem tracker_percentage_differs_at_zero_target :
  (∀ c t : Q, ¬ (t == 0)%Q →
     Tracker.calculatePercentage (Fin c) (Fin t) = Goals.calculatePercentage (Fin c) (Fin t))
  ∧ (∀ current, Goals.calculatePercentage current (of_Z 0) = of_Z 0)
  ∧ Tracker.calculatePercentage (of_Z 0) (of_Z 0) = NaN
  ∧ (∀ c : Q, (0 < c)%Q → Tracker.calculatePercentage (Fin c) (of_Z 0) = of_Z 100).
Proof.
  split_and!.
  - intros c t Ht. unfold Goals.calculatePercentage, Tracker.calculatePercentage.
    unfold strict_eq, of_Z at 3.
    destruct (Qeq_bool t (inject_Z 0)) eqn:E; [|done].
    apply Qeq_bool_iff in E. by destruct Ht.
  - done.
  - reflexivity.
  - intros c Hc. unfold Tracker.calculatePercentage, div, of_Z at 1.
    change (inject_Z 0 ?= 0)%Q with Eq. unfold scale_inf.
    destruct (c ?= 0)%Q eqn:E.
    + apply Qeq_alt in E. lra.
    + apply Qlt_alt in E. lra.
    + reflexivity.
Qed.

End PercentFacts.

Module TrackerFacts.
Import JSNum JSNumFacts Tracker.

Lemma totalExpenses_add description amount category now st :
  totalExpenses (addSpendingItem description amount category now st)
  = add (totalExpenses st) amount.
Proof. unfold totalExpenses, addSpendingItem. cbn [spendingItems saveToLocalStorage with_spendingItems]. by rewrite foldl_app. Qed.

Lemma totalIncome_add description amount source now st :
  totalIncome (addIncomeItem description amount source now st)
  = add (totalIncome st) amount.
Proof. unfold totalIncome, addIncomeItem. cbn [incomeItems saveToLocalStorage with_incomeItems]. by rewrite foldl_app. Qed.

Lemma goalsSavings_add name target progress now st :
  goalsSavings (addSavingsGoal name target progress now st)
  = add (goalsSavings st) progress.
Proof. unfold goalsSavings, addSavingsGoal. cbn [savingsGoals saveToLocalStorage with_savingsGoals]. by rewrite foldl_app. Qed.

(** X15: with finite totals, recording an expense of [a] raises the total
    expenses by [a] and lowers the savings shown on the dashboard by
    [a]; recording an income of [a] raises the total income and the
    savings by [a]; a new goal with progress [a] raises the savings by
    [a].  Each time the list written to the store is the list in
    memory. *)
Theorem dashboard_follows_entries (st : State) (g i e a : Q)
    (description label : string) (now : Z) :
  goalsSavings st = Fin g → totalIncome st = Fin i → totalExpenses st = Fin e →
  (∃ e' s', totalExpenses (addSpendingItem description (Fin a) label now st) = Fin e'
            ∧ (e' == e + a)%Q
            ∧ totalSavings (addSpendingItem description (Fin a) label now st) = Fin s'
            ∧ (s' == g + (i - e) - a)%Q
            ∧ totalIncome (addSpendingItem description (Fin a) label now st) = Fin i
            ∧ stored_spendingItems (addSpendingItem description (Fin a) label now st)
              = Some (spendingItems (addSpendingItem description (Fin a) label now st)))
  ∧ (∃ i' s', totalIncome (addIncomeItem description (Fin a) label now st) = Fin i'
              ∧ (i' == i + a)%Q
              ∧ totalSavings (addIncomeItem description (Fin a) label now st) = Fin s'
              ∧ (s' == g + (i - e) + a)%Q
              ∧ totalExpenses (addIncomeItem description (Fin a) label now st) = Fin e
              ∧ stored_incomeItems (addIncomeItem description (Fin a) label now st)
                = Some (incomeItems (addIncomeItem description (Fin a) label now st)))
  ∧ (∀ target, ∃ g' s',
       goalsSavings (addSavingsGoal description target (Fin a) now st) = Fin g'
       ∧ (g' == g + a)%Q
       ∧ totalSavings (addSavingsGoal description target (Fin a) now st) = Fin s'
       ∧ (s' == g + (i - e) + a)%Q
       ∧ stored_savingsGoals (addSavingsGoal description target (Fin a) now st)
         = Some (savingsGoals (addSavingsGoal description target (Fin a) now st))).
Proof.
  intros Hg Hi He. split_and!.
  - unfold totalSavings. rewrite totalExpenses_add, He.
    change (goalsSavings (addSpendingItem description (Fin a) label now st))
      with (goalsSavings st).
    change (totalIncome (addSpendingItem description (Fin a) label now st))
      with (totalIncome st).
    rewrite Hg, Hi. cbn [add sub neg]. eexists _, _.
    split_and!; [done|reflexivity|done| |done|done]. ring.
  - unfold totalSavings. rewrite totalIncome_add, Hi.
    change (goalsSavings (addIncomeItem description (Fin a) label now st))
      with (goalsSavings st).
    change (totalExpenses (addIncomeItem description (Fin a) label now st))
      with (totalExpenses st).
    rewrite Hg, He. cbn [add sub neg]. eexists _, _.
    split_and!; [done|reflexivity|done| |done|done]. ring.
  - intros target. unfold totalSavings. rewrite goalsSavings_add, Hg.
    change (totalIncome (addSavingsGoal description target (Fin a) now st))
      with (totalIncome st).
    change (totalExpenses (addSavingsGoal description target (Fin a) now st))
      with (totalExpenses st).
    rewrite Hi, He. cbn [add sub neg]. eexists _, _.
    split_and!; [done|reflexivity|done| |done]. ring.
Qed.

Lemma dashboard_follows_entries_witness :
  (∃ e' s', totalExpenses (addSpendingItem "bus" (Fin (inject_Z 40)) "transport" 20 sample) = Fin e'
            ∧ (e' == inject_Z 960 + inject_Z 40)%Q
            ∧ totalSavings (addSpendingItem "bus" (Fin (inject_Z 40)) "transport" 20 sample) = Fin s'
            ∧ (s' == inject_Z 250 + (inject_Z 2000 - inject_Z 960) - inject_Z 40)%Q
            ∧ totalIncome (addSpendingItem "bus" (Fin (inject_Z 40)) "transport" 20 sample)
              = Fin (inject_Z 2000)
            ∧ stored_spendingItems (addSpendingItem "bus" (Fin (inject_Z 40)) "transport" 20 sample)
              = Some (spendingItems (addSpendingItem "bus" (Fin (inject_Z 40)) "transport" 20 sample)))
  ∧ (∃ i' s', totalIncome (addIncomeItem "bus" (Fin (inject_Z 40)) "transport" 20 sample) = Fin i'
              ∧ (i' == inject_Z 2000 + inject_Z 40)%Q
              ∧ totalSavings (addIncomeItem "bus" (Fin (inject_Z 40)) "transport" 20 sample) = Fin s'
              ∧ (s' == inject_Z 250 + (inject_Z 2000 - inject_Z 960) + inject_Z 40)%Q
              ∧ totalExpenses (addIncomeItem "bus" (Fin (inject_Z 40)) "transport" 20 sample)
                = Fin (inject_Z 960)
              ∧ stored_incomeItems (addIncomeItem "bus" (Fin (inject_Z 40)) "transport" 20 sample)
                = Some (incomeItems (addIncomeItem "bus" (Fin (inject_Z 40)) "transport" 20 sample)))
  ∧ (∀ target, ∃ g' s',
       goalsSavings (addSavingsGoal "bus" target (Fin (inject_Z 40)) 20 sample) = Fin g'
       ∧ (g' == inject_Z 250 + inject_Z 40)%Q
       ∧ totalSavings (addSavingsGoal "bus" target (Fin (inject_Z 40)) 20 sample) = Fin s'
       ∧ (s' == inject_Z 250 + (inject_Z 2000 - inject_Z 960) + inject_Z 40)%Q
       ∧ stored_savingsGoals (addSavingsGoal "bus" target (Fin (inject_Z 40)) 20 sample)
         = Some (savingsGoals (addSavingsGoal "bus" target (Fin (inject_Z 40)) 20 sample))).
Proof.
  apply (dashboard_follows_entries sample (inject_Z 250) (inject_Z 2000) (inject_Z 960)
           (inject_Z 40) "bus" "transport" 20); reflexivity.
Defined.

Lemma add_NaN_l (x : number) : add NaN x = NaN.
Proof. by destruct x. Qed.
Lemma add_NaN_r (x : number) : add x NaN = NaN.
Proof. by destruct x. Qed.

Lemma foldl_add_NaN {A} (f : A → number) (l : list A) :
  foldl (λ sum x, add sum (f x)) NaN l = NaN.
Proof. induction l as [|x l IH]; [done|]. cbn [foldl]. by rewrite add_NaN_l. Qed.

Lemma foldl_add_has_NaN {A} (f : A → number) (l : list A) (a : number) (x : A) :
  x ∈ l → f x = NaN → foldl (λ sum x, add sum (f x)) a l = NaN.
Proof.
  intros Hin Hx. revert a. induction Hin as [x l|x y l Hin IH]; intros a; cbn [foldl].
  - rewrite Hx, add_NaN_r. apply foldl_add_NaN.
  - apply IH, Hx.
Qed.

(** X16: [addSpendingItem] stores whatever [parseFloat] made of the
    amount field, NaN included, and one expense whose amount is NaN
    turns the total expenses and the savings of the dashboard into
    NaN, whatever the other entries are. *)
Theorem one_NaN_expense_spoils_totals (st : State) (item : SpendingItem) :
  item ∈ spendingItems st → s_amount item = NaN →
  totalExpenses st = NaN ∧ totalSavings st = NaN
  ∧ ∀ description amount category now,
      totalExpenses (addSpendingItem description amount category now st) = NaN.
Proof.
  intros Hin Hnan.
  assert (totalExpenses st = NaN) as He.
  { unfold totalExpenses. by eapply foldl_add_has_NaN. }
  split_and!; [done| |].
  - unfold totalSavings. rewrite He. unfold sub. cbn [neg]. by rewrite add_NaN_r, add_NaN_r.
  - intros. by rewrite totalExpenses_add, He, add_NaN_l.
Qed.

Lemma one_NaN_expense_spoils_totals_witness :
  totalExpenses (addSpendingItem "?" NaN "misc" 30 sample) = NaN
  ∧ totalSavings (addSpendingItem "?" NaN "misc" 30 sample) = NaN
  ∧ ∀ description amount category now,
      totalExpenses (addSpendingItem description amount category now
                       (addSpendingItem "?" NaN "misc" 30 sample)) = NaN.
Proof.
  apply (one_NaN_expense_spoils_totals (addSpendingItem "?" NaN "misc" 30 sample)
           {| s_id := 30; s_description := "?"; s_amount := NaN;
              s_category := "misc"; s_date := 30 |}).
  - vm_compute. do 2 right. left.
  - reflexivity.
Defined.

(** X17: [editSpendingItem] copies the item into the form and deletes it
    at once, without asking: every item with that id leaves the list
    and the saved copy, the other items stay in their order; when the
    user declines the question of [deleteSpendingItem], nothing
    changes. *)
Theorem editSpendingItem_moves_item_to_form (st : State) (id : Z) (item : SpendingItem) :
  List.find (λ i, s_id i =? id) (spendingItems st) = Some item →
  spending_form (editSpendingItem id st)
  = Some (s_description item, s_amount item, s_category item)
  ∧ Forall (λ i, s_id i ≠ id) (spendingItems (editSpendingItem id st))
  ∧ (∀ i, s_id i ≠ id → i ∈ spendingItems st → i ∈ spendingItems (editSpendingItem id st))
  ∧ spendingItems (editSpendingItem id st) `sublist_of` spendingItems st
  ∧ stored_spendingItems (editSpendingItem id st)
    = Some (spendingItems (editSpendingItem id st))
  ∧ deleteSpendingItem id true false st = st.
Proof.
  intros Hfind. unfold editSpendingItem. rewrite Hfind.
  cbn [deleteSpendingItem andb negb saveToLocalStorage with_spendingItems
       with_spending_form spendingItems spending_form stored_spendingItems].
  split_and!; [done| | | |done|done].
  - apply Forall_forall. intros i Hin. by apply list_elem_of_filter in Hin as [? _].
  - intros i Hne Hin. by apply list_elem_of_filter.
  - apply sublist_filter.
Qed.

Lemma editSpendingItem_moves_item_to_form_witness :
  spending_form (editSpendingItem 12 sample) = Some ("food", of_Z 60, "groceries")
  ∧ Forall (λ i, s_id i ≠ 12) (spendingItems (editSpendingItem 12 sample))
  ∧ (∀ i, s_id i ≠ 12 → i ∈ spendingItems sample → i ∈ spendingItems (editSpendingItem 12 sample))
  ∧ spendingItems (editSpendingItem 12 sample) `sublist_of` spendingItems sample
  ∧ stored_spendingItems (editSpendingItem 12 sample)
    = Some (spendingItems (editSpendingItem 12 sample))
  ∧ deleteSpendingItem 12 true false sample = sample.
Proof.
  apply (editSpendingItem_moves_item_to_form sample 12
           {| s_id := 12; s_description := "food"; s_amount := of_Z 60;
              s_category := "groceries"; s_date := 12 |}).
  reflexivity.
Defined.

End TrackerFacts.

(** ** Columns, rows and grid lines of the charts *)

Module ChartAxesFacts.
Import JSNum Chart ChartAxes JSNumFacts ChartFacts.

Lemma width_steps_nonzero (n : nat) :
  (2 ≤ n)%nat → ¬ (inject_Z (Z.of_nat n) + - inject_Z 1 == 0)%Q.
Proof.
  intros Hn E. rewrite <-inject_Z_opp, <-inject_Z_plus in E.
  change 0%Q with (inject_Z 0) in E. rewrite inject_Z_injective in E. lia.
Qed.

Lemma point_x_Fin (P W : Q) (n index : nat) :
  (2 ≤ n)%nat → point_x (Fin P) (Fin W) n index = Fin (x_of P W n index).
Proof.
  intros Hn. unfold point_x, sub, add, neg, mul, div, of_nat, of_Z, x_of.
  destruct (inject_Z (Z.of_nat n) + - inject_Z 1 ?= 0)%Q eqn:E; [|done|done].
  apply Qeq_alt in E. by apply width_steps_nonzero in E.
Qed.

Lemma x_of_closed (P W : Q) (n index : nat) :
  (2 ≤ n)%nat →
  (x_of P W n index * inject_Z (Z.of_nat n - 1)
   == P * inject_Z (Z.of_nat n - 1) + W * inject_Z (Z.of_nat index))%Q.
Proof.
  intros Hn. unfold x_of.
  assert (inject_Z (Z.of_nat n - 1) == inject_Z (Z.of_nat n) + - inject_Z 1)%Q as ->.
  { unfold Z.sub. rewrite inject_Z_plus, inject_Z_opp. reflexivity. }
  pose proof (width_steps_nonzero n Hn).
  field. done.
Qed.

Lemma width_steps_pos (n : nat) :
  (2 ≤ n)%nat → (0 < inject_Z (Z.of_nat n) + - inject_Z 1)%Q.
Proof.
  intros Hn. rewrite <-inject_Z_opp, <-inject_Z_plus.
  change 0%Q with (inject_Z 0). rewrite <-Zlt_Qlt. lia.
Qed.

Lemma x_of_increasing (P W : Q) (n i j : nat) :
  (0 < W)%Q → (2 ≤ n)%nat → (i < j)%nat → (x_of P W n i < x_of P W n j)%Q.
Proof.
  intros HW Hn Hij. unfold x_of.
  pose proof (width_steps_pos n Hn) as Hd.
  assert (0 < W / (inject_Z (Z.of_nat n) + - inject_Z 1))%Q as Hstep.
  { apply Qlt_shift_div_l; [done|]. lra. }
  assert (inject_Z (Z.of_nat i) < inject_Z (Z.of_nat j))%Q as Hlt.
  { rewrite <-Zlt_Qlt. lia. }
  nra.
Qed.

Lemma x_of_interpolates (P W : Q) (n i : nat) :
  (2 ≤ n)%nat →
  (x_of P W n i == P + W * (inject_Z (Z.of_nat i) / inject_Z (Z.of_nat n - 1)))%Q.
Proof.
  intros Hn. unfold x_of.
  assert (inject_Z (Z.of_nat n - 1) == inject_Z (Z.of_nat n) + - inject_Z 1)%Q as ->.
  { unfold Z.sub. rewrite inject_Z_plus, inject_Z_opp. reflexivity. }
  pose proof (width_steps_nonzero n Hn). by field.
Qed.

Lemma pairwise_chain (R : number → number → bool) (xs : list number) :
  (∀ i j xi xj, (i < j)%nat → xs !! i = Some xi → xs !! j = Some xj → R xi xj = true) →
  chain R xs = true.
Proof.
  induction xs as [|x xs IH]; intros H; [done|].
  destruct xs as [|x' xs]; [reflexivity|].
  change (R x x' && chain R (x' :: xs) = true). apply andb_true_iff. split.
  - apply (H 0%nat 1%nat); [lia|reflexivity|reflexivity].
  - apply IH. intros i j xi xj Hij Hi Hj. apply (H (S i) (S j)); [lia|done|done].
Qed.

(** The columns of a series of [n >= 2] points, for a renderer that
    draws with [imap] of [point_x]. *)
Lemma columns_spread (P W : Q) (prices : list number) (f : number → number)
    (pts : list (number * number)) :
  (0 < W)%Q → (2 ≤ length prices)%nat →
  pts = imap (λ index price, (point_x (Fin P) (Fin W) (length prices) index, f price)) prices →
  length pts = length prices
  ∧ (∀ i p, pts !! i = Some p →
       ∃ x, p.1 = Fin x
         ∧ (x == P + W * (inject_Z (Z.of_nat i) / inject_Z (Z.of_nat (length prices) - 1)))%Q)
  ∧ chain lt pts.*1 = true.
Proof.
  intros HW Hn ->. split_and!.
  - by rewrite length_imap.
  - intros i p. rewrite list_lookup_imap. destruct (prices !! i) as [price|]; [|done].
    cbn [fmap option_fmap option_map]. intros Hp. apply (inj Some) in Hp. subst p.
    cbn [fst]. rewrite point_x_Fin by done. eexists. split; [done|]. by apply x_of_interpolates.
  - apply pairwise_chain. intros i j xi xj Hij. rewrite !list_lookup_fmap, !list_lookup_imap.
    destruct (prices !! i) as [pi|]; [|done]. destruct (prices !! j) as [pj|]; [|done].
    cbn [fmap option_fmap option_map fst]. intros Hi Hj.
    apply (inj Some) in Hi. apply (inj Some) in Hj. subst xi xj.
    rewrite !point_x_Fin by done. apply lt_Fin. by apply x_of_increasing.
Qed.

(** X18: for a series of at least two points, both renderers place the
    points on finite columns that interpolate linearly between the left
    padding and the canvas width minus the padding (50 to 750 for
    [createStockChart], 60 to 740 for [displayStockChart]) and strictly
    increase with the index, whatever the prices are. *)
Theorem columns_interpolate (data : list PricePoint) :
  (2 ≤ length data)%nat →
  ∃ pts pts',
    createStockChart.points data = Some pts
    ∧ displayStockChart.points data = Some pts'
    ∧ length pts = length data ∧ length pts' = length data
    ∧ (∀ i p, pts !! i = Some p →
         ∃ x, p.1 = Fin x
           ∧ (x == 50 + 700 * (inject_Z (Z.of_nat i) / inject_Z (Z.of_nat (length data) - 1)))%Q)
    ∧ (∀ i p, pts' !! i = Some p →
         ∃ x, p.1 = Fin x
           ∧ (x == 60 + 680 * (inject_Z (Z.of_nat i) / inject_Z (Z.of_nat (length data) - 1)))%Q)
    ∧ chain lt pts.*1 = true
    ∧ chain lt pts'.*1 = true.
Proof.
  intros Hn.
  assert (length (map close (rev data)) = length data) as Hlen.
  { by rewrite length_map, length_rev. }
  destruct data as [|d data]; [simpl in Hn; lia|].
  unfold createStockChart.points, displayStockChart.points.
  unfold createStockChart.prices, displayStockChart.prices.
  destruct (columns_spread (inject_Z 50) (inject_Z 800 + - (inject_Z 50 * inject_Z 2))
              (map close (rev (d :: data)))
              (point_y createStockChart.padding createStockChart.chartHeight
                 (createStockChart.minPrice (d :: data))
                 (createStockChart.priceRange (d :: data))) _
              ltac:(by vm_compute) ltac:(by rewrite Hlen) eq_refl) as (H1 & H2 & H3).
  destruct (columns_spread (inject_Z 60) (inject_Z 800 + - (inject_Z 60 * inject_Z 2))
              (map close (rev (d :: data)))
              (point_y displayStockChart.padding displayStockChart.chartHeight
                 (displayStockChart.minPrice (d :: data))
                 (displayStockChart.priceRange (d :: data))) _
              ltac:(by vm_compute) ltac:(by rewrite Hlen) eq_refl) as (H1' & H2' & H3').
  rewrite Hlen in *.
  eexists _, _. split_and!; [reflexivity|reflexivity|exact H1|exact H1'| | |exact H3|exact H3'].
  - intros i p Hi. destruct (H2 i p Hi) as (x & Hx & Heq). exists x. split; [done|].
    rewrite Heq. assert (inject_Z 50 == 50)%Q as -> by reflexivity.
    assert (inject_Z 800 + - (inject_Z 50 * inject_Z 2) == 700)%Q as -> by reflexivity.
    reflexivity.
  - intros i p Hi. destruct (H2' i p Hi) as (x & Hx & Heq). exists x. split; [done|].
    rewrite Heq. assert (inject_Z 60 == 60)%Q as -> by reflexivity.
    assert (inject_Z 800 + - (inject_Z 60 * inject_Z 2) == 680)%Q as -> by reflexivity.
    reflexivity.
Qed.

Lemma columns_interpolate_witness :
  ∃ pts pts',
    createStockChart.points rising_days = Some pts
    ∧ displayStockChart.points rising_days = Some pts'
    ∧ length pts = length rising_days ∧ length pts' = length rising_days
    ∧ (∀ i p, pts !! i = Some p →
         ∃ x, p.1 = Fin x
           ∧ (x == 50 + 700 * (inject_Z (Z.of_nat i)
                               / inject_Z (Z.of_nat (length rising_days) - 1)))%Q)
    ∧ (∀ i p, pts' !! i = Some p →
         ∃ x, p.1 = Fin x
           ∧ (x == 60 + 680 * (inject_Z (Z.of_nat i)
                               / inject_Z (Z.of_nat (length rising_days) - 1)))%Q)
    ∧ chain lt pts.*1 = true
    ∧ chain lt pts'.*1 = true.
Proof. apply (columns_interpolate rising_days). simpl. lia. Defined.

(** *** Rows, grid lines and labels *)

Lemma prices_nonempty (ts : list PricePoint) (qs : list Q) :
  ts ≠ [] → map close (rev ts) = Fin <$> qs → ∃ q qs', qs = q :: qs'.
Proof.
  intros Hne Hp. destruct qs as [|q qs']; [|by eauto].
  apply (f_equal length) in Hp. rewrite length_map, length_rev in Hp.
  by destruct ts.
Qed.

(** Minimum, maximum and guarded range of [displayStockChart]. *)
Lemma displayStockChart_extent (ts : list PricePoint) (qs : list Q) :
  ts ≠ [] →
  displayStockChart.prices ts = Fin <$> qs →
  ∃ m M r,
    displayStockChart.minPrice ts = Fin m
    ∧ displayStockChart.maxPrice ts = Fin M
    ∧ displayStockChart.priceRange ts = Fin r
    ∧ m ∈ qs ∧ M ∈ qs
    ∧ Forall (λ x, (m <= x)%Q ∧ (x <= M)%Q) qs
    ∧ (((m < M)%Q ∧ r = (M + - m)%Q) ∨ ((M == m)%Q ∧ r = inject_Z 1)).
Proof.
  intros Hne Hp. destruct (prices_nonempty ts qs Hne Hp) as (q & qs' & ->).
  unfold displayStockChart.priceRange, displayStockChart.minPrice,
    displayStockChart.maxPrice. rewrite Hp.
  destruct (Math_min_Fin q qs') as (m & -> & Hmin & Hm).
  destruct (Math_max_Fin q qs') as (M & -> & Hmax & HM).
  assert (m <= M)%Q as HmM.
  { rewrite Forall_forall in Hmin. by apply Hmin. }
  exists m, M. unfold sub, neg, add, or_else, truthy.
  destruct (Qeq_bool (M + - m) 0) eqn:E; cbn [negb].
  - apply Qeq_bool_iff in E. exists (inject_Z 1).
    split_and!; [done|done|done|done|done| |right; split; [lra|done]].
    rewrite Forall_forall in Hmin, Hmax. apply Forall_forall. by eauto.
  - apply Qeq_bool_neq in E. exists (M + - m)%Q.
    split_and!; [done|done|done|done|done| |left; split; [|done]].
    + rewrite Forall_forall in Hmin, Hmax. apply Forall_forall. by eauto.
    + apply Qle_lteq in HmM as [?|Heq]; [done|]. destruct E. lra.
Qed.

Lemma y_of_in_plot (P H m M r q : Q) :
  (0 < H)%Q → (m <= q)%Q → (q <= M)%Q →
  (((m < M)%Q ∧ r = (M + - m)%Q) ∨ ((M == m)%Q ∧ r = inject_Z 1)) →
  (P <= y_of P H m r q)%Q ∧ (y_of P H m r q <= P + H)%Q
  ∧ ((q == m)%Q → (y_of P H m r q == P + H)%Q)
  ∧ ((m < M)%Q → (q == M)%Q → (y_of P H m r q == P)%Q).
Proof.
  intros HH Hmq HqM Hr.
  assert (0 < r)%Q as Hrpos.
  { destruct Hr as [[? ->]|[? ->]]; [lra|by vm_compute]. }
  assert ((q + - m) / r <= 1)%Q as Hle1.
  { apply Qle_shift_div_r; [done|]. destruct Hr as [[? ->]|[? ->]].
    - lra.
    - assert (inject_Z 1 == 1)%Q as -> by reflexivity. lra. }
  assert (0 <= (q + - m) / r)%Q as Hge0.
  { apply Qle_shift_div_l; [done|]. lra. }
  unfold y_of. split_and!.
  - nra.
  - nra.
  - intros Hq. assert ((q + - m) / r == 0)%Q as ->; [|lra].
    rewrite Hq. field. lra.
  - intros Hlt Hq. destruct Hr as [[_ ->]|[? _]]; [|lra].
    assert ((q + - m) / (M + - m) == 1)%Q as ->; [|lra].
    rewrite Hq. field. lra.
Qed.

(** X19: in exact arithmetic (no rounding, no overflow), for a
    non-empty series of finite prices, [displayStockChart] keeps every
    point inside the plot area, between the rows 60 and 340; the
    lowest price is drawn on the bottom row and, when the prices are
    not all equal, the highest on the top row. *)
Theorem displayStockChart_rows_in_plot (ts : list PricePoint) (qs : list Q) :
  ts ≠ [] →
  displayStockChart.prices ts = Fin <$> qs →
  ∃ m M pts,
    m ∈ qs ∧ M ∈ qs ∧ Forall (λ x, (m <= x)%Q ∧ (x <= M)%Q) qs
    ∧ displayStockChart.points ts = Some pts
    ∧ length pts = length ts
    ∧ ∀ i p, pts !! i = Some p →
        ∃ qi y, qs !! i = Some qi ∧ p.2 = Fin y
          ∧ (60 <= y)%Q ∧ (y <= 340)%Q
          ∧ ((qi == m)%Q → (y == 340)%Q)
          ∧ ((m < M)%Q → (qi == M)%Q → (y == 60)%Q).
Proof.
  intros Hne Hp.
  destruct (displayStockChart_extent ts qs Hne Hp)
    as (m & M & r & Hm & HM & Hr & Hmin & HMin & Hall & Hcase).
  exists m, M. unfold displayStockChart.points.
  destruct ts as [|t ts]; [done|]. eexists. split_and!; [done|done|done|done| |].
  - rewrite length_imap. unfold displayStockChart.prices.
    by rewrite length_map, length_rev.
  - intros i p. rewrite list_lookup_imap, Hp, list_lookup_fmap.
    destruct (qs !! i) as [qi|] eqn:Hqi; [|done]. cbn [fmap option_fmap option_map].
    intros Hpt. apply (inj Some) in Hpt. subst p. cbn [snd].
    rewrite Hm, Hr. destruct displayStockChart_constants as [-> ->].
    assert (0 < r)%Q as Hrpos.
    { destruct Hcase as [[? ->]|[? ->]]; [lra|by vm_compute]. }
    rewrite point_y_Fin by lra.
    rewrite Forall_forall in Hall.
    destruct (Hall qi) as [Hlo Hhi]; [apply list_elem_of_lookup; eauto|].
    destruct (y_of_in_plot padQ heightQ m M r qi heightQ_pos Hlo Hhi Hcase)
      as (H1 & H2 & H3 & H4).
    exists qi, (y_of padQ heightQ m r qi).
    assert (padQ == 60)%Q as EP by reflexivity.
    assert (padQ + heightQ == 340)%Q as EH by reflexivity.
    split_and!; [done|done| | | |].
    + by rewrite <-EP.
    + by rewrite <-EH.
    + intros Hq. rewrite <-EH. by apply H3.
    + intros Hlt Hq. rewrite <-EP. by apply H4.
Qed.

Lemma displayStockChart_rows_in_plot_witness :
  ∃ m M pts,
    m ∈ [inject_Z 10; inject_Z 11; inject_Z 12]
    ∧ M ∈ [inject_Z 10; inject_Z 11; inject_Z 12]
    ∧ Forall (λ x, (m <= x)%Q ∧ (x <= M)%Q) [inject_Z 10; inject_Z 11; inject_Z 12]
    ∧ displayStockChart.points rising_days = Some pts
    ∧ length pts = length rising_days
    ∧ ∀ i p, pts !! i = Some p →
        ∃ qi y, [inject_Z 10; inject_Z 11; inject_Z 12] !! i = Some qi ∧ p.2 = Fin y
          ∧ (60 <= y)%Q ∧ (y <= 340)%Q
          ∧ ((qi == m)%Q → (y == 340)%Q)
          ∧ ((m < M)%Q → (qi == M)%Q → (y == 60)%Q).
Proof.
  apply (displayStockChart_rows_in_plot rising_days [inject_Z 10; inject_Z 11; inject_Z 12]);
    [discriminate|reflexivity].
Defined.

Lemma grid_line_Fin (P H M r : Q) (i : nat) :
  grid_line (Fin P) (Fin H) (Fin M) (Fin r) i
  = (Fin (P + H / inject_Z 5 * inject_Z (Z.of_nat i)),
     Fin (M + - (r / inject_Z 5 * inject_Z (Z.of_nat i)))).
Proof. reflexivity. Qed.

Lemma grid_top (P H M r : Q) :
  num_eq (grid_line (Fin P) (Fin H) (Fin M) (Fin r) 0).2 (Fin M).
Proof.
  rewrite grid_line_Fin. cbn [snd num_eq].
  change (inject_Z (Z.of_nat 0)) with (0 # 1)%Q. change (inject_Z 5) with (5 # 1)%Q.
  field.
Qed.

Lemma grid_bottom (P H m M : Q) :
  num_eq (grid_line (Fin P) (Fin H) (Fin M) (Fin (M + - m)) 5).2 (Fin m).
Proof.
  rewrite grid_line_Fin. cbn [snd num_eq].
  change (inject_Z (Z.of_nat 5)) with (5 # 1)%Q. change (inject_Z 5) with (5 # 1)%Q.
  field.
Qed.

Lemma label_row (P H m M k : Q) :
  (m < M)%Q →
  (y_of P H m (M + - m) (M + - ((M + - m) / inject_Z 5 * k))
   == P + H / inject_Z 5 * k)%Q.
Proof.
  intros Hlt. unfold y_of. assert (inject_Z 5 == 5)%Q as -> by reflexivity.
  field. lra.
Qed.

Lemma createStockChart_constants :
  createStockChart.padding = Fin (inject_Z 50)
  ∧ createStockChart.chartHeight = Fin (inject_Z 400 + - (inject_Z 50 * inject_Z 2)).
Proof. split; reflexivity. Qed.

(** Minimum, maximum and range of [createStockChart] on a series whose
    lowest price is below its highest. *)
Lemma createStockChart_extent (data : list PricePoint) (qs : list Q) :
  createStockChart.prices data = Fin <$> qs →
  lt (createStockChart.minPrice data) (createStockChart.maxPrice data) = true →
  ∃ m M,
    createStockChart.minPrice data = Fin m
    ∧ createStockChart.maxPrice data = Fin M
    ∧ createStockChart.priceRange data = Fin (M + - m)
    ∧ displayStockChart.minPrice data = Fin m
    ∧ displayStockChart.maxPrice data = Fin M
    ∧ displayStockChart.priceRange data = Fin (M + - m)
    ∧ (m < M)%Q.
Proof.
  unfold createStockChart.priceRange, createStockChart.minPrice,
    createStockChart.maxPrice, displayStockChart.priceRange,
    displayStockChart.minPrice, displayStockChart.maxPrice,
    displayStockChart.prices.
  unfold createStockChart.prices. intros ->. destruct qs as [|q qs]; [done|].
  destruct (Math_min_Fin q qs) as (m & -> & _ & _).
  destruct (Math_max_Fin q qs) as (M & -> & _ & _).
  intros Hlt%lt_Fin. exists m, M. unfold sub, neg, add, or_else, truthy.
  destruct (Qeq_bool (M + - m) 0) eqn:E; cbn [negb]; [|done].
  apply Qeq_bool_iff in E. lra.
Qed.

(** X20: when the prices are finite and not all equal, both renderers
    label their six grid lines consistently with the points they draw:
    the price written beside a grid line is mapped by the point formula
    to that very row, the top line carries the highest price and the
    bottom line the lowest. *)
Theorem grid_labels_match_rows (data : list PricePoint) (qs : list Q) :
  createStockChart.prices data = Fin <$> qs →
  lt (createStockChart.minPrice data) (createStockChart.maxPrice data) = true →
  (∀ i row label, createStockChart_grid data !! i = Some (row, label) →
     num_eq (point_y createStockChart.padding createStockChart.chartHeight
               (createStockChart.minPrice data) (createStockChart.priceRange data) label)
            row)
  ∧ (∀ i row label, displayStockChart_grid data !! i = Some (row, label) →
     num_eq (point_y displayStockChart.padding displayStockChart.chartHeight
               (displayStockChart.minPrice data) (displayStockChart.priceRange data) label)
            row)
  ∧ (∃ top bottom top' bottom',
       createStockChart_grid data !! 0%nat = Some top
       ∧ createStockChart_grid data !! 5%nat = Some bottom
       ∧ displayStockChart_grid data !! 0%nat = Some top'
       ∧ displayStockChart_grid data !! 5%nat = Some bottom'
       ∧ num_eq top.2 (createStockChart.maxPrice data)
       ∧ num_eq bottom.2 (createStockChart.minPrice data)
       ∧ num_eq top'.2 (displayStockChart.maxPrice data)
       ∧ num_eq bottom'.2 (displayStockChart.minPrice data)).
Proof.
  intros Hp Hlt.
  destruct (createStockChart_extent data qs Hp Hlt)
    as (m & M & Hm & HM & Hr & Hm' & HM' & Hr' & HmM).
  assert (¬ (M + - m == 0)%Q) as Hr0 by lra.
  unfold createStockChart_grid, displayStockChart_grid.
  rewrite Hm, HM, Hr, Hm', HM', Hr'.
  destruct createStockChart_constants as [-> ->].
  destruct displayStockChart_constants as [-> ->].
  split_and!.
  - intros i row label. rewrite list_lookup_fmap.
    destruct (seq 0 6 !! i) as [k|]; [|done]. cbn [fmap option_fmap option_map].
    rewrite grid_line_Fin. intros Hg. apply (inj Some) in Hg.
    apply pair_equal_spec in Hg as [<- <-].
    rewrite point_y_Fin by done. cbn [num_eq]. by apply label_row.
  - intros i row label. rewrite list_lookup_fmap.
    destruct (seq 0 6 !! i) as [k|]; [|done]. cbn [fmap option_fmap option_map].
    rewrite grid_line_Fin. intros Hg. apply (inj Some) in Hg.
    apply pair_equal_spec in Hg as [<- <-].
    rewrite point_y_Fin by done. cbn [num_eq]. by apply label_row.
  - exists (grid_line (Fin (inject_Z 50))
              (Fin (inject_Z 400 + - (inject_Z 50 * inject_Z 2))) (Fin M) (Fin (M + - m)) 0),
           (grid_line (Fin (inject_Z 50))
              (Fin (inject_Z 400 + - (inject_Z 50 * inject_Z 2))) (Fin M) (Fin (M + - m)) 5),
           (grid_line (Fin padQ) (Fin heightQ) (Fin M) (Fin (M + - m)) 0),
           (grid_line (Fin padQ) (Fin heightQ) (Fin M) (Fin (M + - m)) 5).
    split_and!; [reflexivity|reflexivity|reflexivity|reflexivity
                |apply grid_top|apply grid_bottom|apply grid_top|apply grid_bottom].
Qed.

Lemma grid_labels_match_rows_witness :
  (∀ i row label, createStockChart_grid rising_days !! i = Some (row, label) →
     num_eq (point_y createStockChart.padding createStockChart.chartHeight
               (createStockChart.minPrice rising_days)
               (createStockChart.priceRange rising_days) label)
            row)
  ∧ (∀ i row label, displayStockChart_grid rising_days !! i = Some (row, label) →
     num_eq (point_y displayStockChart.padding displayStockChart.chartHeight
               (displayStockChart.minPrice rising_days)
               (displayStockChart.priceRange rising_days) label)
            row)
  ∧ (∃ top bottom top' bottom',
       createStockChart_grid rising_days !! 0%nat = Some top
       ∧ createStockChart_grid rising_days !! 5%nat = Some bottom
       ∧ displayStockChart_grid rising_days !! 0%nat = Some top'
       ∧ displayStockChart_grid rising_days !! 5%nat = Some bottom'
       ∧ num_eq top.2 (createStockChart.maxPrice rising_days)
       ∧ num_eq bottom.2 (createStockChart.minPrice rising_days)
       ∧ num_eq top'.2 (displayStockChart.maxPrice rising_days)
       ∧ num_eq bottom'.2 (displayStockChart.minPrice rising_days)).
Proof.
  apply (grid_labels_match_rows rising_days [inject_Z 10; inject_Z 11; inject_Z 12]);
    reflexivity.
Defined.

(** X21: on a series whose prices all equal one finite value [c],
    [displayStockChart] draws every point on its bottom grid line, and
    the price it writes beside that line is [c - 1]; the label [c]
    stands beside the top line. *)
Theorem displayStockChart_flat_series_label (ts : list PricePoint) (c : Q) :
  ts ≠ [] →
  forallb (λ p, strict_eq p (Fin c)) (displayStockChart.prices ts) = true →
  ∃ pts top bottom,
    displayStockChart.points ts = Some pts
    ∧ displayStockChart_grid ts !! 0%nat = Some top
    ∧ displayStockChart_grid ts !! 5%nat = Some bottom
    ∧ (∀ p, p ∈ pts → num_eq p.2 bottom.1)
    ∧ num_eq bottom.2 (Fin (c + - inject_Z 1))
    ∧ num_eq top.2 (Fin c).
Proof.
  intros Hne Hc. destruct (constant_list _ c Hc) as (qs & Hp & Hqs).
  destruct (displayStockChart_extent ts qs Hne Hp)
    as (m & M & r & Hm & HM & Hr & Hmin & HMin & Hall & Hcase).
  rewrite Forall_forall in Hqs.
  assert (m == c)%Q as Hmc by (by apply Hqs).
  assert (M == c)%Q as HMc by (by apply Hqs).
  destruct Hcase as [[Hlt _]|[_ ->]]; [lra|].
  unfold displayStockChart.points, displayStockChart_grid.
  destruct ts as [|t ts]; [done|]. rewrite Hm, HM, Hr.
  destruct displayStockChart_constants as [-> ->].
  exists (imap (λ index price,
                 (point_x (Fin (inject_Z 60)) displayStockChart.chartWidth
                          (length (displayStockChart.prices (t :: ts))) index,
                  point_y (Fin padQ) (Fin heightQ) (Fin m) (Fin (inject_Z 1)) price))
               (displayStockChart.prices (t :: ts))),
         (grid_line (Fin padQ) (Fin heightQ) (Fin M) (Fin (inject_Z 1)) 0),
         (grid_line (Fin padQ) (Fin heightQ) (Fin M) (Fin (inject_Z 1)) 5).
  split_and!; [reflexivity|reflexivity|reflexivity| | |].
  - intros p [i Hi]%list_elem_of_lookup. revert Hi.
    rewrite list_lookup_imap, Hp, list_lookup_fmap.
    destruct (qs !! i) as [qi|] eqn:Hqi; [|done]. cbn [fmap option_fmap option_map].
    intros Hpt. apply (inj Some) in Hpt. subst p. cbn [snd].
    rewrite point_y_Fin by (by vm_compute). rewrite grid_line_Fin. cbn [fst num_eq].
    assert (qi == c)%Q as Hqc by (apply Hqs, list_elem_of_lookup; eauto).
    unfold y_of. rewrite Hqc, Hmc.
    change (inject_Z (Z.of_nat 5)) with (5 # 1)%Q. change (inject_Z 5) with (5 # 1)%Q.
    change (inject_Z 1) with (1 # 1)%Q. field.
  - rewrite grid_line_Fin. cbn [snd num_eq].
    change (inject_Z (Z.of_nat 5)) with (5 # 1)%Q. change (inject_Z 5) with (5 # 1)%Q.
    change (inject_Z 1) with (1 # 1)%Q. rewrite HMc. field.
  - rewrite grid_line_Fin. cbn [snd num_eq].
    change (inject_Z (Z.of_nat 0)) with (0 # 1)%Q. change (inject_Z 5) with (5 # 1)%Q.
    change (inject_Z 1) with (1 # 1)%Q. rewrite HMc. field.
Qed.

Lemma displayStockChart_flat_series_label_witness :
  ∃ pts top bottom,
    displayStockChart.points [flat_day; flat_day] = Some pts
    ∧ displayStockChart_grid [flat_day; flat_day] !! 0%nat = Some top
    ∧ displayStockChart_grid [flat_day; flat_day] !! 5%nat = Some bottom
    ∧ (∀ p, p ∈ pts → num_eq p.2 bottom.1)
    ∧ num_eq bottom.2 (Fin (inject_Z 5 + - inject_Z 1))
    ∧ num_eq top.2 (Fin (inject_Z 5)).
Proof.
  apply (displayStockChart_flat_series_label [flat_day; flat_day] (inject_Z 5));
    [discriminate|reflexivity].
Defined.

End ChartAxesFacts.

(** ** The API response cache *)

Module ApiCacheFacts.
Import Json JSNum Storage ApiCache JSNumFacts.

Lemma removal_fold (keys : list string) (ls : localStorage) (k : string) :
  foldl (λ ls key, if is_api_key key then removeItem key ls else ls) ls keys !! k
  = if is_api_key k && bool_decide (k ∈ keys) then None else ls !! k.
Proof.
  revert ls. induction keys as [|key keys IH]; intros ls; cbn [foldl].
  - by rewrite andb_false_r.
  - rewrite IH. destruct (is_api_key k) eqn:Ek; cbn [andb]; [|].
    + destruct (decide (k = key)) as [->|Hne].
      * rewrite Ek. unfold removeItem. rewrite lookup_delete_eq.
        rewrite (bool_decide_eq_true_2 (key ∈ key :: keys)) by constructor.
        by destruct (bool_decide (key ∈ keys)).
      * assert (bool_decide (k ∈ key :: keys) = bool_decide (k ∈ keys)) as ->.
        { apply bool_decide_ext. rewrite elem_of_cons. split; [|by right].
          by intros [?|?]. }
        destruct (bool_decide (k ∈ keys)); [done|].
        destruct (is_api_key key); [|done]. unfold removeItem.
        by rewrite lookup_delete_ne.
    + destruct (is_api_key key) eqn:Ekey; [|done]. unfold removeItem.
      rewrite lookup_delete_ne; [done|]. intros ->. congruence.
Qed.

Lemma elem_of_Object_keys (ls : localStorage) (k : string) :
  k ∈ Object_keys ls ↔ is_Some (ls !! k).
Proof.
  unfold Object_keys. rewrite list_elem_of_fmap. split.
  - intros ([k' v] & -> & Hin). apply elem_of_map_to_list in Hin. by eexists.
  - intros [v Hv]. exists (k, v). split; [done|]. by apply elem_of_map_to_list.
Qed.

Lemma clearAllCaches_lookup (ls : localStorage) (k : string) :
  clearAllCaches ls !! k = if is_api_key k then None else ls !! k.
Proof.
  unfold clearAllCaches. cbv zeta.
  change (foldl _ ls (Object_keys ls))
    with (foldl (λ ls key, if is_api_key key then removeItem key ls else ls)
                ls (Object_keys ls)).
  rewrite removal_fold. destruct (is_api_key k); [|done]. cbn [andb].
  destruct (bool_decide (k ∈ Object_keys ls)) eqn:E; [done|].
  apply bool_decide_eq_false in E. rewrite elem_of_Object_keys in E.
  destruct (ls !! k); [|done]. destruct E. by eexists.
Qed.

Lemma clearAllCaches_filter (ls : localStorage) :
  clearAllCaches ls = filter (λ kv, ¬ is_api_key kv.1 = true) ls.
Proof.
  apply map_eq. intros k. rewrite clearAllCaches_lookup, map_lookup_filter.
  destruct (ls !! k) as [v|] eqn:E; cbn [mbind option_bind].
  - destruct (is_api_key k) eqn:Ek.
    + rewrite option_guard_False; [done|]. cbn [fst]. rewrite Ek. intros Hn. by apply Hn.
    + rewrite option_guard_True; [done|]. cbn [fst]. by rewrite Ek.
  - by destruct (is_api_key k).
Qed.

Lemma stats_fold (keys : list string) (s : CacheStats) :
  let s' :=
    foldl (λ stats key,
             let stats :=
               if startsWith key "stock_"
               then {| stock := S (stock stats); news := news stats;
                       exchange := exchange stats; total := total stats |}
               else stats in
             let stats :=
               if startsWith key "news_"
               then {| stock := stock stats; news := S (news stats);
                       exchange := exchange stats; total := total stats |}
               else stats in
             if startsWith key "exchange_"
             then {| stock := stock stats; news := news stats;
                     exchange := S (exchange stats); total := total stats |}
             else stats)
          s keys in
  stock s' = (stock s + count (λ k, startsWith k "stock_") keys)%nat
  ∧ news s' = (news s + count (λ k, startsWith k "news_") keys)%nat
  ∧ exchange s' = (exchange s + count (λ k, startsWith k "exchange_") keys)%nat.
Proof.
  cbv zeta. revert s. induction keys as [|key keys IH]; intros s; cbn [foldl].
  - unfold count. cbn. lia.
  - match goal with
    | |- context [foldl _ ?s0 keys] => destruct (IH s0) as (H1 & H2 & H3)
    end.
    rewrite H1, H2, H3. unfold count. cbn [List.filter].
    destruct (startsWith key "stock_"), (startsWith key "news_"),
      (startsWith key "exchange_"); cbn; lia.
Qed.

Lemma count_cons (p : string → bool) (k : string) (keys : list string) :
  count p (k :: keys) = ((if p k then 1 else 0) + count p keys)%nat.
Proof. unfold count. cbn [List.filter]. by destruct (p k). Qed.

Lemma count_Permutation (p : string → bool) (l1 l2 : list string) :
  l1 ≡ₚ l2 → count p l1 = count p l2.
Proof.
  induction 1 as [|x l1 l2 _ IH|x y l|l1 l2 l3 _ IH1 _ IH2].
  - done.
  - by rewrite !count_cons, IH.
  - rewrite !count_cons. lia.
  - by rewrite IH1.
Qed.

Lemma count_none (p : string → bool) (keys : list string) :
  (∀ k, k ∈ keys → p k = false) → count p keys = 0%nat.
Proof.
  induction keys as [|k keys IH]; intros Hp; [done|].
  rewrite count_cons, (Hp k) by constructor. apply IH.
  intros k' Hk'. apply Hp. by constructor.
Qed.

(** The number of stored keys on which [p] holds is the size of the
    part of the store they select. *)
Lemma count_size (p : string → bool) (ls : localStorage) :
  count p (Object_keys ls) = size (filter (λ kv, p kv.1 = true) ls).
Proof.
  induction ls as [|k v ls Hk IH] using map_ind.
  - by rewrite map_filter_empty, map_size_empty.
  - unfold Object_keys.
    rewrite (count_Permutation p _ (k :: (map_to_list ls).*1)).
    2:{ rewrite map_to_list_insert by done. done. }
    rewrite count_cons. fold (Object_keys ls). rewrite IH.
    destruct (p k) eqn:Ep.
    + rewrite map_filter_insert_True by done.
      rewrite map_size_insert_None; [done|].
      apply map_lookup_filter_None. by left.
    + rewrite map_filter_insert_not; [done|]. cbn [fst]. intros _. by rewrite Ep.
Qed.

(** No key starts with two of the three prefixes. *)
Lemma prefixes_exclusive (k : string) :
  (if is_api_key k then 1 else 0)%nat
  = ((if startsWith k "stock_" then 1 else 0)
     + (if startsWith k "news_" then 1 else 0)
     + (if startsWith k "exchange_" then 1 else 0))%nat.
Proof.
  unfold is_api_key, startsWith. destruct k as [|a k]; [done|].
  cbn [String.prefix].
  repeat match goal with
         | |- context [ascii_dec ?c a] => destruct (ascii_dec c a)
         end; try congruence; try done.
  all: by destruct (String.prefix _ k).
Qed.

Lemma count_api (keys : list string) :
  count is_api_key keys
  = (count (λ k, startsWith k "stock_") keys
     + count (λ k, startsWith k "news_") keys
     + count (λ k, startsWith k "exchange_") keys)%nat.
Proof.
  induction keys as [|k keys IH]; [done|].
  rewrite !count_cons, IH, prefixes_exclusive. lia.
Qed.

Lemma getCacheStats_counts (ls : localStorage) :
  stock (getCacheStats ls) = count (λ k, startsWith k "stock_") (Object_keys ls)
  ∧ news (getCacheStats ls) = count (λ k, startsWith k "news_") (Object_keys ls)
  ∧ exchange (getCacheStats ls) = count (λ k, startsWith k "exchange_") (Object_keys ls)
  ∧ total (getCacheStats ls) = count is_api_key (Object_keys ls).
Proof.
  unfold getCacheStats. cbv zeta. cbn [stock news exchange total].
  rewrite count_api.
  match goal with
  | |- context [foldl ?f ?s0 ?keys] =>
      destruct (stats_fold keys s0) as (H1 & H2 & H3)
  end.
  cbv zeta in H1, H2, H3. rewrite H1, H2, H3. cbn [stock news exchange]. done.
Qed.

Lemma stats_eq (s : CacheStats) (a b c d : nat) :
  stock s = a → news s = b → exchange s = c → total s = d →
  s = {| stock := a; news := b; exchange := c; total := d |}.
Proof. destruct s. cbn. by intros -> -> -> ->. Qed.

(** X22: [clearAllCaches] removes exactly the items whose key starts
    with [stock_], [news_] or [exchange_] and leaves every other item
    as it was; afterwards [getCacheStats] counts nothing, and before,
    its [total] is the number of items the clearing removes. *)
Theorem clearAllCaches_removes_api_items (ls : localStorage) :
  (∀ key,
     getItem key (clearAllCaches ls)
     = if startsWith key "stock_" || startsWith key "news_" || startsWith key "exchange_"
       then None else getItem key ls)
  ∧ getCacheStats (clearAllCaches ls)
    = {| stock := 0; news := 0; exchange := 0; total := 0 |}
  ∧ size ls = (size (clearAllCaches ls) + total (getCacheStats ls))%nat
  ∧ total (getCacheStats ls)
    = (stock (getCacheStats ls) + news (getCacheStats ls)
       + exchange (getCacheStats ls))%nat.
Proof.
  split_and!.
  - intros key. apply clearAllCaches_lookup.
  - assert (∀ k, k ∈ Object_keys (clearAllCaches ls) → is_api_key k = false) as Hnone.
    { intros k [v Hv]%elem_of_Object_keys. rewrite clearAllCaches_lookup in Hv.
      by destruct (is_api_key k). }
    destruct (getCacheStats_counts (clearAllCaches ls)) as (H1 & H2 & H3 & H4).
    apply stats_eq.
    + rewrite H1. apply count_none. intros k Hk%Hnone. unfold is_api_key in Hk.
      by destruct (startsWith k "stock_").
    + rewrite H2. apply count_none. intros k Hk%Hnone. unfold is_api_key in Hk.
      by destruct (startsWith k "stock_"), (startsWith k "news_").
    + rewrite H3. apply count_none. intros k Hk%Hnone. unfold is_api_key in Hk.
      by destruct (startsWith k "stock_"), (startsWith k "news_"),
        (startsWith k "exchange_").
    + rewrite H4. by apply count_none.
  - destruct (getCacheStats_counts ls) as (_ & _ & _ & ->).
    rewrite count_size, clearAllCaches_filter.
    rewrite <-(map_filter_union_complement (λ kv, is_api_key kv.1 = true) ls) at 1.
    rewrite map_size_disj_union by apply map_disjoint_filter_complement. lia.
  - destruct (getCacheStats_counts ls) as (-> & -> & -> & ->). apply count_api.
Qed.

(** X23: an entry written by [saveToCache] at time [now] is read back
    by [getFromCache]; [isCacheValid] accepts it at time [now'] exactly
    while [now' - now] is strictly below the expiry in milliseconds;
    the items under other keys are untouched.  The entry is assumed to
    be one the platform writes as a non-empty text and reads back. *)
Theorem saveToCache_then_read `{JSON} `{Conversions}
    (cacheKey : string) (value : json) (now now' : Z) (hours : Q) (ls : localStorage) :
  JSON_stringify (JObj [("timestamp", JNum now); ("value", value)]) ≠ "" →
  JSON_parse (JSON_stringify (JObj [("timestamp", JNum now); ("value", value)]))
  = Some (JObj [("timestamp", JNum now); ("value", value)]) →
  getFromCache cacheKey (saveToCache cacheKey value now ls) = Returned (Some value)
  ∧ (∃ valid,
       isCacheValid cacheKey (Fin hours) now' (saveToCache cacheKey value now ls)
       = Returned valid
       ∧ (valid = true
          ↔ (inject_Z (now' - now) < hours * inject_Z 3600000)%Q))
  ∧ (∀ key, key ≠ cacheKey →
       getItem key (saveToCache cacheKey value now ls) = getItem key ls).
Proof.
  intros Hne Hrt. unfold saveToCache, getFromCache, isCacheValid, setItem, getItem.
  cbv zeta. rewrite !lookup_insert_eq.
  destruct (String.eqb _ "") eqn:E; [by apply String.eqb_eq in E|].
  rewrite Hrt. split_and!.
  - reflexivity.
  - eexists. split; [reflexivity|].
    cbn [to_number get_property List.find fst snd String.eqb Ascii.eqb Bool.eqb fmap option_fmap option_map].
    unfold sub, add, neg, mul, of_Z. rewrite lt_Fin.
    unfold Z.sub. rewrite inject_Z_plus, inject_Z_opp.
    change (inject_Z 3600000) with (3600000 # 1)%Q.
    change (inject_Z 60) with (60 # 1)%Q. change (inject_Z 1000) with (1000 # 1)%Q.
    split; intros; lra.
  - intros key Hkey. by rewrite lookup_insert_ne.
Qed.

Lemma saveToCache_then_read_witness :
  @getFromCache MiniJSON.codec "stock_IBM"
    (@saveToCache MiniJSON.codec "stock_IBM" ibm_quote 1000 ∅)
  = Returned (Some ibm_quote)
  ∧ (∃ valid,
       @isCacheValid MiniJSON.codec {| ToNumber := λ _, Returned NaN |}
         "stock_IBM" (Fin (inject_Z 1)) 3000000
         (@saveToCache MiniJSON.codec "stock_IBM" ibm_quote 1000 ∅)
       = Returned valid
       ∧ (valid = true
          ↔ (inject_Z (3000000 - 1000) < inject_Z 1 * inject_Z 3600000)%Q))
  ∧ (∀ key, key ≠ "stock_IBM" →
       getItem key (@saveToCache MiniJSON.codec "stock_IBM" ibm_quote 1000 ∅)
       = getItem key ∅).
Proof.
  apply (@saveToCache_then_read MiniJSON.codec {| ToNumber := λ _, Returned NaN |}
           "stock_IBM" ibm_quote 1000 3000000 (inject_Z 1) ∅).
  - vm_compute. discriminate.
  - vm_compute. reflexivity.
Defined.

End ApiCacheFacts.

(** ** Settings and record operations of scripts/storage.js *)

Module StorageOpsFacts.
Import Json Storage StorageOps StorageFacts.

(** *** Own properties *)

Lemma field_nil (k : string) : field k [] = None.
Proof. reflexivity. Qed.

Lemma field_cons (k k' : string) (v : json) (fields : list (string * json)) :
  field k ((k', v) :: fields) = if String.eqb k' k then Some v else field k fields.
Proof. unfold field. cbn [List.find fst]. by destruct (String.eqb k' k). Qed.

Lemma field_None (k : string) (fields : list (string * json)) :
  field k fields = None ↔ k ∉ fields.*1.
Proof.
  induction fields as [|[k' v] fields IH].
  - rewrite field_nil. split; [|done]. intros _. apply not_elem_of_nil.
  - rewrite field_cons, fmap_cons, not_elem_of_cons. cbn [fst].
    destruct (String.eqb k' k) eqn:E.
    + apply String.eqb_eq in E. subst. split; [done|]. by intros [? _].
    + apply String.eqb_neq in E. rewrite IH. split; [|by intros [_ ?]].
      intros ?. split; [|done]. by intros ->.
Qed.

Lemma field_app (k : string) (l1 l2 : list (string * json)) :
  field k (l1 ++ l2) = match field k l1 with Some v => Some v | None => field k l2 end.
Proof.
  induction l1 as [|[k' v] l1 IH]; [done|].
  rewrite <-app_comm_cons, !field_cons. by destruct (String.eqb k' k).
Qed.

Lemma field_elem_of (k : string) (v : json) (fields : list (string * json)) :
  NoDup fields.*1 → (field k fields = Some v ↔ (k, v) ∈ fields).
Proof.
  induction fields as [|[k' v'] fields IH]; intros Hnd.
  - rewrite field_nil. split; [done|]. by intros ?%elem_of_nil.
  - rewrite fmap_cons in Hnd. apply NoDup_cons in Hnd as [Hk' Hnd]. cbn [fst] in Hk'.
    rewrite field_cons, elem_of_cons. destruct (String.eqb k' k) eqn:E.
    + apply String.eqb_eq in E. subst k'. split.
      * intros [= ->]. by left.
      * intros [[= ->]|Hin]; [done|]. destruct Hk'.
        apply list_elem_of_fmap. by exists (k, v).
    + apply String.eqb_neq in E. rewrite (IH Hnd). split; [by right|].
      intros [[= ? ?]|?]; [by subst|done].
Qed.

Lemma rev_reverse {A} (l : list A) : rev l = reverse l.
Proof. unfold reverse. by rewrite rev_alt. Qed.

Lemma field_rev (k : string) (fields : list (string * json)) :
  NoDup fields.*1 → field k (rev fields) = field k fields.
Proof.
  intros Hnd. rewrite rev_reverse. destruct (field k fields) as [v|] eqn:E.
  - apply field_elem_of in E; [|done]. apply field_elem_of.
    + by rewrite fmap_reverse, reverse_Permutation.
    + by apply elem_of_reverse.
  - apply field_None in E. apply field_None.
    by rewrite fmap_reverse, elem_of_reverse.
Qed.

(** *** [set_field] *)

Lemma insert_index_keys (i : Z) (k : string) (v : json) (fields : list (string * json)) :
  (insert_index i k v fields).*1 ≡ₚ k :: fields.*1.
Proof.
  induction fields as [|[k' v'] fields IH]; [done|]. cbn [insert_index].
  destruct (array_index k') as [j|]; [|done].
  destruct (i <? j); [done|]. rewrite !fmap_cons, IH. cbn [fst]. apply Permutation_swap.
Qed.

Lemma field_insert_index (i : Z) (k k' : string) (v : json)
    (fields : list (string * json)) :
  k ∉ fields.*1 →
  field k' (insert_index i k v fields)
  = if String.eqb k k' then Some v else field k' fields.
Proof.
  induction fields as [|[k0 v0] fields IH]; intros Hk.
  - cbn [insert_index]. by rewrite field_cons.
  - rewrite fmap_cons, not_elem_of_cons in Hk. destruct Hk as [Hne Hk]. cbn [fst] in Hne.
    cbn [insert_index]. destruct (array_index k0) as [j|].
    + destruct (i <? j); [by rewrite field_cons|].
      rewrite !field_cons, (IH Hk). destruct (String.eqb k0 k') eqn:E0; [|done].
      apply String.eqb_eq in E0. subst k'.
      destruct (String.eqb k k0) eqn:E; [|done]. by apply String.eqb_eq in E.
    + by rewrite field_cons.
Qed.

Lemma set_field_keys (k : string) (v : json) (fields : list (string * json)) :
  (set_field k v fields).*1 ≡ₚ (if bool_decide (k ∈ fields.*1) then fields.*1
                                else k :: fields.*1).
Proof.
  unfold set_field. destruct (bool_decide (k ∈ fields.*1)) eqn:E.
  - clear E. induction fields as [|[k' v'] fields IH]; [done|].
    rewrite !fmap_cons. cbn [fst]. destruct (String.eqb k' k) eqn:E.
    + apply String.eqb_eq in E. subst. cbn [fst]. by rewrite IH.
    + cbn [fst]. by rewrite IH.
  - destruct (array_index k) as [i|].
    + apply insert_index_keys.
    + rewrite fmap_app. cbn. by rewrite <-Permutation_cons_append.
Qed.

Lemma set_field_NoDup (k : string) (v : json) (fields : list (string * json)) :
  NoDup fields.*1 → NoDup (set_field k v fields).*1.
Proof.
  intros Hnd. rewrite set_field_keys. destruct (bool_decide (k ∈ fields.*1)) eqn:E; [done|].
  apply bool_decide_eq_false in E. by apply NoDup_cons.
Qed.

Lemma field_replace_ne (k k' : string) (v : json) (fields : list (string * json)) :
  k ≠ k' →
  field k' ((λ kv, if String.eqb kv.1 k then (k, v) else kv) <$> fields) = field k' fields.
Proof.
  intros Hne. induction fields as [|[k0 v0] fields IH]; [done|].
  rewrite fmap_cons. cbn [fst]. destruct (String.eqb k0 k) eqn:E0.
  - apply String.eqb_eq in E0. subst k0. rewrite !field_cons, IH.
    apply String.eqb_neq in Hne. by rewrite Hne.
  - by rewrite !field_cons, IH.
Qed.

Lemma field_replace_eq (k : string) (v : json) (fields : list (string * json)) :
  k ∈ fields.*1 →
  field k ((λ kv, if String.eqb kv.1 k then (k, v) else kv) <$> fields) = Some v.
Proof.
  induction fields as [|[k0 v0] fields IH]; intros Hin; [by apply elem_of_nil in Hin|].
  rewrite fmap_cons. cbn [fst]. destruct (String.eqb k0 k) eqn:E0.
  - by rewrite field_cons, String.eqb_refl.
  - rewrite field_cons, E0. apply IH. apply String.eqb_neq in E0.
    rewrite fmap_cons, elem_of_cons in Hin. cbn [fst] in Hin.
    by destruct Hin as [?|?].
Qed.

Lemma field_set_field (k k' : string) (v : json) (fields : list (string * json)) :
  field k' (set_field k v fields) = if String.eqb k k' then Some v else field k' fields.
Proof.
  unfold set_field. destruct (bool_decide (k ∈ fields.*1)) eqn:E.
  - apply bool_decide_eq_true in E. destruct (String.eqb k k') eqn:E1.
    + apply String.eqb_eq in E1. subst k'. by apply field_replace_eq.
    + apply String.eqb_neq in E1. by apply field_replace_ne.
  - apply bool_decide_eq_false in E. destruct (array_index k) as [i|].
    + by apply field_insert_index.
    + rewrite field_app, field_cons, field_nil.
      destruct (field k' fields) as [w|] eqn:Ew.
      * destruct (String.eqb k k') eqn:E1; [|done]. apply String.eqb_eq in E1. subst k'.
        assert (field k fields = None) as Hn by (by apply field_None). congruence.
      * done.
Qed.

Lemma build_NoDup (acc pairs : list (string * json)) :
  NoDup acc.*1 → NoDup (build acc pairs).*1.
Proof.
  revert acc. induction pairs as [|[k v] pairs IH]; intros acc Hnd; [done|].
  apply IH. by apply set_field_NoDup.
Qed.

Lemma field_build (k : string) (acc pairs : list (string * json)) :
  field k (build acc pairs)
  = match field k (rev pairs) with Some v => Some v | None => field k acc end.
Proof.
  revert acc. induction pairs as [|[k0 v0] pairs IH]; intros acc; [done|].
  cbn [rev]. rewrite field_app, field_cons, field_nil.
  change (build acc ((k0, v0) :: pairs)) with (build (set_field k0 v0 acc) pairs).
  rewrite IH, field_set_field. cbn [fst snd].
  by destruct (field k (rev pairs)), (String.eqb k0 k).
Qed.


(** *** The settings *)

Lemma defaults_NoDup : NoDup (own_properties settingsStorage.defaults).*1.
Proof. apply (bool_decide_unpack _). by vm_compute. Qed.

Lemma settings_fields_spec `{JSON} (ls : localStorage) :
  Storage.settingsStorage.load ls = JObj (settingsStorage.settings_fields ls)
  ∧ settingsStorage.settings_fields ls
    = build [] (own_properties settingsStorage.defaults
                ++ own_properties (safeParse (getItem STORAGE_KEYS.SETTINGS ls) (JObj []))).
Proof. split; reflexivity. Qed.

Lemma settings_fields_NoDup `{JSON} (ls : localStorage) :
  NoDup (settingsStorage.settings_fields ls).*1.
Proof.
  destruct (settings_fields_spec ls) as [_ ->]. apply build_NoDup. constructor.
Qed.

Lemma field_settings `{JSON} (k : string) (ls : localStorage) :
  field k (settingsStorage.settings_fields ls)
  = match field k (rev (own_properties
                          (safeParse (getItem STORAGE_KEYS.SETTINGS ls) (JObj [])))) with
    | Some v => Some v
    | None => field k (own_properties settingsStorage.defaults)
    end.
Proof.
  destruct (settings_fields_spec ls) as [_ ->].
  rewrite field_build, rev_app_distr, field_app, field_nil.
  rewrite (field_rev k (own_properties settingsStorage.defaults)) by apply defaults_NoDup.
  by destruct (field k (rev _)), (field k (own_properties settingsStorage.defaults)).
Qed.

(** X24: [settingsStorage.load] always returns an object: every stored
    setting is in it with its stored value, every default missing from
    the stored settings is filled in, and nothing else is. *)
Theorem settings_load_overlays_defaults `{JSON} (ls : localStorage) :
  ∃ fields,
    Storage.settingsStorage.load ls = JObj fields
    ∧ NoDup fields.*1
    ∧ (∀ k v,
         NoDup (own_properties (safeParse (getItem STORAGE_KEYS.SETTINGS ls) (JObj []))).*1 →
         (k, v) ∈ own_properties (safeParse (getItem STORAGE_KEYS.SETTINGS ls) (JObj [])) →
         field k fields = Some v)
    ∧ (∀ k,
         k ∉ (own_properties (safeParse (getItem STORAGE_KEYS.SETTINGS ls) (JObj []))).*1 →
         field k fields = field k (own_properties settingsStorage.defaults))
    ∧ (∀ k, k ∈ ["currency"; "theme"; "refreshInterval"; "dateFormat"; "language"] →
         is_Some (field k fields)).
Proof.
  exists (settingsStorage.settings_fields ls).
  split_and!.
  - reflexivity.
  - apply settings_fields_NoDup.
  - intros k v Hnd Hin. rewrite field_settings, field_rev by done.
    apply field_elem_of in Hin; [|done]. by rewrite Hin.
  - intros k Hk. rewrite field_settings.
    assert (field k (rev (own_properties
              (safeParse (getItem STORAGE_KEYS.SETTINGS ls) (JObj [])))) = None) as ->; [|done].
    apply field_None. by rewrite rev_reverse, fmap_reverse, elem_of_reverse.
  - intros k Hk. rewrite field_settings. destruct (field k (rev _)); [by eexists|].
    repeat (apply elem_of_cons in Hk as [->|Hk]; [by eexists|]).
    by apply elem_of_nil in Hk.
Qed.

(** X25: after [settingsStorage.update(key, value)] with a key other
    than [__proto__], [settingsStorage.get(key)] returns [value], and
    [get] of every other key returns what it returned before.  The
    updated settings object is assumed to be one the platform writes
    as a non-empty text and reads back. *)
Theorem settings_update_then_get `{JSON} (key : string) (value : json) (ls : localStorage) :
  key ≠ "__proto__" →
  JSON_stringify (JObj (assign key value (settingsStorage.settings_fields ls))) ≠ "" →
  JSON_parse (JSON_stringify (JObj (assign key value (settingsStorage.settings_fields ls))))
  = Some (JObj (assign key value (settingsStorage.settings_fields ls))) →
  (settingsStorage.update key value ls).1 = true
  ∧ settingsStorage.get key (settingsStorage.update key value ls).2 = Own value
  ∧ (∀ key', key' ≠ key →
       settingsStorage.get key' (settingsStorage.update key value ls).2
       = settingsStorage.get key' ls)
  ∧ (∀ k, k ≠ STORAGE_KEYS.SETTINGS →
       getItem k (settingsStorage.update key value ls).2 = getItem k ls).
Proof.
  intros Hkey Hne Hrt.
  assert (assign key value (settingsStorage.settings_fields ls)
          = set_field key value (settingsStorage.settings_fields ls)) as Hassign.
  { unfold assign. apply String.eqb_neq in Hkey. by rewrite Hkey. }
  unfold settingsStorage.update, Storage.settingsStorage.save, safeStringify. cbv zeta.
  rewrite store_if_truthy_stored by done. cbn [fst snd].
  assert (∀ k, field k (settingsStorage.settings_fields
                          (<[STORAGE_KEYS.SETTINGS :=
                               JSON_stringify
                                 (JObj (assign key value (settingsStorage.settings_fields ls)))]> ls))
               = if String.eqb key k then Some value
                 else field k (settingsStorage.settings_fields ls)) as Hfield.
  { intros k. rewrite field_settings. unfold getItem. rewrite lookup_insert_eq.
    rewrite (safeParse_stored _ (JObj (assign key value (settingsStorage.settings_fields ls))))
      by done.
    cbn [own_properties]. rewrite Hassign.
    rewrite field_rev by apply set_field_NoDup, settings_fields_NoDup.
    rewrite field_set_field. destruct (String.eqb key k); [done|].
    destruct (field k (settingsStorage.settings_fields ls)) as [v|] eqn:E; [done|].
    rewrite field_settings in E.
    by destruct (field k (rev _)). }
  split_and!.
  - done.
  - unfold settingsStorage.get, read. cbv zeta. by rewrite Hfield, String.eqb_refl.
  - intros key' Hne'. unfold settingsStorage.get, read. cbv zeta. rewrite Hfield.
    apply not_eq_sym in Hne'. apply String.eqb_neq in Hne'. by rewrite Hne'.
  - intros k Hk. unfold getItem. by rewrite lookup_insert_ne.
Qed.

Lemma settings_update_then_get_witness :
  (@settingsStorage.update MiniJSON.codec "theme" (JStr "dark") ∅).1 = true
  ∧ @settingsStorage.get MiniJSON.codec "theme"
      (@settingsStorage.update MiniJSON.codec "theme" (JStr "dark") ∅).2
    = Own (JStr "dark")
  ∧ (∀ key', key' ≠ "theme" →
       @settingsStorage.get MiniJSON.codec key'
         (@settingsStorage.update MiniJSON.codec "theme" (JStr "dark") ∅).2
       = @settingsStorage.get MiniJSON.codec key' ∅)
  ∧ (∀ k, k ≠ STORAGE_KEYS.SETTINGS →
       getItem k (@settingsStorage.update MiniJSON.codec "theme" (JStr "dark") ∅).2
       = getItem k ∅).
Proof.
  apply (@settings_update_then_get MiniJSON.codec "theme" (JStr "dark") ∅).
  - discriminate.
  - vm_compute. discriminate.
  - vm_compute. reflexivity.
Defined.


(** *** Deleting and updating records *)

Lemma has_id_not_null (id : json) : has_id id JNull = false.
Proof. reflexivity. Qed.

Lemma get_property_Returned (k : string) (h : json) :
  h ≠ JNull → ∃ v, get_property k h = Returned v.
Proof. destruct h; try done; by eexists. Qed.

Lemma without_id_spec (id : json) (items : list json) :
  JNull ∉ items →
  without_id id items = Returned (filter (λ h, has_id id h = false) items).
Proof.
  induction items as [|h items IH]; intros Hnull; [done|].
  apply not_elem_of_cons in Hnull as [Hh Hnull]. cbn [without_id].
  destruct (get_property_Returned "id" h) as [v Hv]; [done|].
  rewrite Hv, (IH Hnull), filter_cons.
  assert (has_id id h = strict_equal v id) as Hid by (unfold has_id; by rewrite Hv).
  destruct (decide _) as [Hd|Hd]; cbn beta in Hd; rewrite Hid in Hd.
  - by rewrite Hd.
  - by destruct (strict_equal v id).
Qed.

Lemma without_id_null (id : json) (items : list json) :
  JNull ∈ items → without_id id items = TypeError.
Proof.
  induction items as [|h items IH]; intros Hin; [by apply elem_of_nil in Hin|].
  apply elem_of_cons in Hin as [<-|Hin]; [done|]. cbn [without_id].
  destruct (get_property "id" h); [|done]. by rewrite (IH Hin).
Qed.

Lemma filter_settled (id : json) (items : list json) :
  filter (λ h, has_id id h = false) (filter (λ h, has_id id h = false) items)
  = filter (λ h, has_id id h = false) items.
Proof.
  induction items as [|h items IH]; [done|]. rewrite filter_cons.
  destruct (decide (has_id id h = false)) as [Hh|Hh]; [|done].
  by rewrite filter_cons, decide_True, IH.
Qed.

Lemma findIndex_id_spec (id : json) (items : list json) (i : nat) (h : json) :
  items !! i = Some h → has_id id h = true →
  (∀ j h', (j < i)%nat → items !! j = Some h' → h' ≠ JNull ∧ has_id id h' = false) →
  findIndex_id id items = Returned (Some i).
Proof.
  revert i. induction items as [|h0 items IH]; intros i Hi Hh Hbefore; [done|].
  cbn [findIndex_id]. destruct i as [|i].
  - apply (inj Some) in Hi. subst h0. unfold has_id in Hh.
    destruct (get_property "id" h) as [v|]; [|done]. by rewrite Hh.
  - destruct (Hbefore 0%nat h0) as [Hnn Hno]; [lia|done|].
    destruct (get_property_Returned "id" h0 Hnn) as [v Hv]. unfold has_id in Hno.
    rewrite Hv in Hno |- *. rewrite Hno.
    rewrite (IH i); [done|done|done|].
    intros j h' Hj Hh'. apply (Hbefore (S j) h'); [lia|done].
Qed.

Lemma findIndex_id_none (id : json) (items : list json) :
  JNull ∉ items → (∀ h, h ∈ items → has_id id h = false) →
  findIndex_id id items = Returned None.
Proof.
  induction items as [|h items IH]; intros Hnull Hno; [done|].
  apply not_elem_of_cons in Hnull as [Hh Hnull]. cbn [findIndex_id].
  destruct (get_property_Returned "id" h) as [v Hv]; [done|].
  pose proof (Hno h) as Hhid. unfold has_id in Hhid. rewrite Hv in Hhid |- *.
  rewrite Hhid by constructor. rewrite IH; [done|done|].
  intros h' Hh'. apply Hno. by constructor.
Qed.

(** Each collection loads, deletes and updates through the shared
    bodies, under its own key. *)
Lemma collections_spec `{JSON} (c : collection) :
  c ∈ collections →
  (∀ ls, c_load c ls = safeParse (getItem (c_key c) ls) (JArr []))
  ∧ (∀ id ls,
       c_delete c id ls
       = delete_from (c_load c ls) id
           (λ x ls, store_if_truthy (c_key c) (safeStringify x) ls) ls)
  ∧ (∀ u id updates now ls,
       c_update c = Some u →
       u id updates now ls
       = update_in (c_load c ls) id updates now
           (λ x ls, store_if_truthy (c_key c) (safeStringify x) ls) ls).
Proof.
  intros Hc. unfold collections, portfolio, transactions, expenses, goals in Hc.
  repeat (apply elem_of_cons in Hc as [->|Hc]);
    [..|by apply elem_of_nil in Hc].
  all: split_and!; [done|done|].
  all: intros u id updates now ls Hu; cbn [c_update] in Hu; try done.
  all: by apply (inj Some) in Hu; subst u.
Qed.

Lemma saved_then_loaded `{JSON} (key : string) (x : json) (ls : localStorage) :
  JSON_stringify x ≠ "" → JSON_parse (JSON_stringify x) = Some x →
  store_if_truthy key (safeStringify x) ls = (true, <[key := JSON_stringify x]> ls)
  ∧ safeParse (getItem key (<[key := JSON_stringify x]> ls)) (JArr []) = x.
Proof.
  intros Hne Hrt. unfold safeStringify. rewrite store_if_truthy_stored by done.
  split; [done|]. unfold getItem. rewrite lookup_insert_eq. by apply safeParse_stored.
Qed.

(** X26: in each of the four record collections, [delete(id)] on a
    stored array without [null] items stores the array without the
    records whose [id] is [id], in their order, and returns true; the
    other items of the store are untouched, and deleting the same id
    again changes nothing.  The remaining array is assumed to be one
    the platform writes as a non-empty text and reads back. *)
Theorem delete_removes_records_with_id `{JSON}
    (c : collection) (id : json) (items : list json) (ls : localStorage) :
  c ∈ collections →
  c_load c ls = JArr items →
  JNull ∉ items →
  JSON_stringify (JArr (filter (λ h, has_id id h = false) items)) ≠ "" →
  JSON_parse (JSON_stringify (JArr (filter (λ h, has_id id h = false) items)))
  = Some (JArr (filter (λ h, has_id id h = false) items)) →
  ∃ ls',
    c_delete c id ls = Returned (true, ls')
    ∧ c_load c ls' = JArr (filter (λ h, has_id id h = false) items)
    ∧ (∀ k, k ≠ c_key c → getItem k ls' = getItem k ls)
    ∧ c_delete c id ls' = Returned (true, ls').
Proof.
  intros Hc Hload Hnull Hne Hrt.
  destruct (collections_spec c Hc) as (Hl & Hd & _).
  destruct (saved_then_loaded (c_key c) _ ls Hne Hrt) as [Hsave Hback].
  exists (<[c_key c := JSON_stringify (JArr (filter (λ h, has_id id h = false) items))]> ls).
  split_and!.
  - rewrite Hd, Hload. unfold delete_from. by rewrite without_id_spec, Hsave.
  - by rewrite Hl.
  - intros k Hk. unfold getItem. by rewrite lookup_insert_ne.
  - rewrite Hd, Hl, Hback. unfold delete_from. rewrite without_id_spec, filter_settled.
    + unfold safeStringify. rewrite store_if_truthy_stored by done.
      unfold setItem. by rewrite insert_insert_eq.
    + intros Hin. apply list_elem_of_filter in Hin as [_ Hin]. done.
Qed.

Lemma delete_removes_records_with_id_witness :
  ∃ ls',
    c_delete (@portfolio MiniJSON.codec) (JStr "a1")
      (@holdings_store MiniJSON.codec)
    = Returned (true, ls')
    ∧ c_load (@portfolio MiniJSON.codec) ls'
      = JArr (filter (λ h, has_id (JStr "a1") h = false)
                     [holding "a1" "IBM" 3; holding "b2" "MSFT" 5])
    ∧ (∀ k, k ≠ c_key (@portfolio MiniJSON.codec) →
         getItem k ls'
         = getItem k (@holdings_store MiniJSON.codec))
    ∧ c_delete (@portfolio MiniJSON.codec) (JStr "a1") ls' = Returned (true, ls').
Proof.
  apply (@delete_removes_records_with_id MiniJSON.codec (@portfolio MiniJSON.codec)
           (JStr "a1") [holding "a1" "IBM" 3; holding "b2" "MSFT" 5]).
  - by left.
  - by vm_compute.
  - intros Hin. repeat (apply elem_of_cons in Hin as [Hin|Hin]; [discriminate|]).
    by apply elem_of_nil in Hin.
  - vm_compute. discriminate.
  - vm_compute. reflexivity.
Defined.

(** X27: the edge cases of the record operations.  [load] guards
    against a text that does not parse, not against one that parses to
    something else: when the stored value is not an array, [delete]
    and [update] of a collection throw a [TypeError], and so does
    [delete] when the array holds a [null].  On an array without
    [null], [update] with an id that no record has returns false and
    stores nothing. *)
Theorem record_operations_edge_cases `{JSON}
    (c : collection) (id updates : json) (now : string) (ls : localStorage) :
  c ∈ collections →
  ((∀ items, c_load c ls ≠ JArr items) →
     c_delete c id ls = TypeError
     ∧ ∀ u, c_update c = Some u → u id updates now ls = TypeError)
  ∧ (∀ items, c_load c ls = JArr items → JNull ∈ items → c_delete c id ls = TypeError)
  ∧ (∀ items, c_load c ls = JArr items → JNull ∉ items →
       (∀ h, h ∈ items → has_id id h = false) →
       ∀ u, c_update c = Some u → u id updates now ls = Returned (false, ls)).
Proof.
  intros Hc. destruct (collections_spec c Hc) as (Hl & Hd & Hu). split_and!.
  - intros Hno. split.
    + rewrite Hd. destruct (c_load c ls) as [| | | |items|]; try done. by destruct (Hno items).
    + intros u Hcu. rewrite (Hu u) by done.
      destruct (c_load c ls) as [| | | |items|]; try done. by destruct (Hno items).
  - intros items Hload Hnull. rewrite Hd, Hload. unfold delete_from.
    by rewrite without_id_null.
  - intros items Hload Hnull Hno u Hcu. rewrite (Hu u) by done. rewrite Hload.
    unfold update_in. by rewrite findIndex_id_none.
Qed.

(** The three cases, each on a store that reaches it: a goals text
    that is an object, an expenses array holding [null], and the two
    holdings asked for an id that neither has. *)
Lemma record_operations_edge_cases_witness :
  (c_delete (@goals MiniJSON.codec) (JStr "a1") (<[STORAGE_KEYS.GOALS := "{}"]> ∅)
   = TypeError
   ∧ @goalStorage.update MiniJSON.codec (JStr "a1") (JObj []) "2024-01-02T00:00:00.000Z"
       (<[STORAGE_KEYS.GOALS := "{}"]> ∅)
     = TypeError)
  ∧ c_delete (@expenses MiniJSON.codec) (JStr "a1") (<[STORAGE_KEYS.EXPENSES := "[null]"]> ∅)
    = TypeError
  ∧ @portfolioStorage.update MiniJSON.codec (JStr "zz") (JObj [("quantity", JNum 8)])
      "2024-01-02T00:00:00.000Z" (@holdings_store MiniJSON.codec)
    = Returned (false, @holdings_store MiniJSON.codec).
Proof.
  split; [|split].
  - assert (@goals MiniJSON.codec ∈ @collections MiniJSON.codec) as Hc.
    { unfold collections. repeat constructor. }
    destruct (@record_operations_edge_cases MiniJSON.codec (@goals MiniJSON.codec)
                (JStr "a1") (JObj []) "2024-01-02T00:00:00.000Z"
                (<[STORAGE_KEYS.GOALS := "{}"]> ∅) Hc)
      as (Hobject & _ & _).
    assert (∀ items, c_load (@goals MiniJSON.codec) (<[STORAGE_KEYS.GOALS := "{}"]> ∅)
                     ≠ JArr items) as Hno.
    { intros items. vm_compute. discriminate. }
    destruct (Hobject Hno) as [Hdelete Hupdate].
    split; [exact Hdelete|]. apply Hupdate. reflexivity.
  - assert (@expenses MiniJSON.codec ∈ @collections MiniJSON.codec) as Hc.
    { unfold collections. repeat constructor. }
    destruct (@record_operations_edge_cases MiniJSON.codec (@expenses MiniJSON.codec)
                (JStr "a1") (JObj []) "2024-01-02T00:00:00.000Z"
                (<[STORAGE_KEYS.EXPENSES := "[null]"]> ∅) Hc)
      as (_ & Hnull & _).
    apply (Hnull [JNull]).
    + by vm_compute.
    + constructor.
  - assert (@portfolio MiniJSON.codec ∈ @collections MiniJSON.codec) as Hc.
    { by left. }
    destruct (@record_operations_edge_cases MiniJSON.codec (@portfolio MiniJSON.codec)
                (JStr "zz") (JObj [("quantity", JNum 8)]) "2024-01-02T00:00:00.000Z"
                (@holdings_store MiniJSON.codec) Hc)
      as (_ & _ & Hunknown).
    apply (Hunknown [holding "a1" "IBM" 3; holding "b2" "MSFT" 5]).
    + by vm_compute.
    + intros Hin. repeat (apply elem_of_cons in Hin as [Hin|Hin]; [discriminate|]).
      by apply elem_of_nil in Hin.
    + intros h Hin. repeat (apply elem_of_cons in Hin as [->|Hin]; [reflexivity|]).
      by apply elem_of_nil in Hin.
    + reflexivity.
Defined.

(** X28: in the collections that have it, [update(id, updates)] at
    time [now] replaces the first record whose [id] is [id] by the
    merge of that record, [updates] and [updatedAt: now], stores the
    array and returns true; with no such record it returns false and
    stores nothing.  The updated array is assumed to be one the
    platform writes as a non-empty text and reads back. *)
Theorem update_rewrites_first_match `{JSON}
    (c : collection)
    (u : json → json → string → localStorage → outcome (bool * localStorage))
    (id updates : json) (now : string) (items : list json) (i : nat) (h : json)
    (ls : localStorage) :
  c ∈ collections →
  c_update c = Some u →
  c_load c ls = JArr items →
  items !! i = Some h →
  has_id id h = true →
  (∀ j h', (j < i)%nat → items !! j = Some h' → h' ≠ JNull ∧ has_id id h' = false) →
  JSON_stringify (JArr (<[i := spread_updated h updates now]> items)) ≠ "" →
  JSON_parse (JSON_stringify (JArr (<[i := spread_updated h updates now]> items)))
  = Some (JArr (<[i := spread_updated h updates now]> items)) →
  ∃ ls' fields,
    u id updates now ls = Returned (true, ls')
    ∧ c_load c ls' = JArr (<[i := JObj fields]> items)
    ∧ (∀ k, k ≠ c_key c → getItem k ls' = getItem k ls)
    ∧ NoDup fields.*1
    ∧ field "updatedAt" fields = Some (JStr now)
    ∧ (∀ k v, k ≠ "updatedAt" → NoDup (own_properties updates).*1 →
              (k, v) ∈ own_properties updates → field k fields = Some v)
    ∧ (∀ k, k ≠ "updatedAt" → k ∉ (own_properties updates).*1 →
            NoDup (own_properties h).*1 →
            field k fields = field k (own_properties h)).
Proof.
  intros Hc Hcu Hload Hi Hh Hbefore Hne Hrt.
  destruct (collections_spec c Hc) as (Hl & _ & Hu).
  destruct (saved_then_loaded (c_key c) _ ls Hne Hrt) as [Hsave Hback].
  exists (<[c_key c := JSON_stringify (JArr (<[i := spread_updated h updates now]> items))]> ls),
    (build [] (own_properties h ++ own_properties updates ++ [("updatedAt", JStr now)])).
  assert (∀ k, field k (build [] (own_properties h ++ own_properties updates
                                   ++ [("updatedAt", JStr now)]))
               = if String.eqb "updatedAt" k then Some (JStr now)
                 else match field k (rev (own_properties updates)) with
                      | Some v => Some v
                      | None => field k (rev (own_properties h))
                      end) as Hfield.
  { intros k. rewrite field_build, !rev_app_distr, !field_app, field_nil. cbn [rev app].
    rewrite field_cons, field_nil. destruct (String.eqb "updatedAt" k); [done|].
    by destruct (field k (rev (own_properties updates))),
      (field k (rev (own_properties h))). }
  split_and!.
  - rewrite (Hu u) by done. rewrite Hload. unfold update_in.
    rewrite (findIndex_id_spec id items i h) by done. cbv zeta.
    by rewrite (list_lookup_total_correct _ _ _ Hi), Hsave.
  - by rewrite Hl.
  - intros k Hk. unfold getItem. by rewrite lookup_insert_ne.
  - apply build_NoDup. constructor.
  - by rewrite Hfield.
  - intros k v Hk Hnd Hin. rewrite Hfield.
    apply not_eq_sym in Hk. apply String.eqb_neq in Hk. rewrite Hk.
    rewrite field_rev by done. apply field_elem_of in Hin; [|done]. by rewrite Hin.
  - intros k Hk Hnot Hnd. rewrite Hfield.
    apply not_eq_sym in Hk. apply String.eqb_neq in Hk. rewrite Hk.
    assert (field k (rev (own_properties updates)) = None) as ->.
    { apply field_None. by rewrite rev_reverse, fmap_reverse, elem_of_reverse. }
    by apply field_rev.
Qed.

Lemma update_rewrites_first_match_witness :
  ∃ ls' fields,
    @portfolioStorage.update MiniJSON.codec (JStr "b2") (JObj [("quantity", JNum 8)])
      "2024-01-02T00:00:00.000Z"
      (@holdings_store MiniJSON.codec)
    = Returned (true, ls')
    ∧ c_load (@portfolio MiniJSON.codec) ls'
      = JArr (<[1%nat := JObj fields]> [holding "a1" "IBM" 3; holding "b2" "MSFT" 5])
    ∧ (∀ k, k ≠ c_key (@portfolio MiniJSON.codec) →
         getItem k ls'
         = getItem k (@holdings_store MiniJSON.codec))
    ∧ NoDup fields.*1
    ∧ field "updatedAt" fields = Some (JStr "2024-01-02T00:00:00.000Z")
    ∧ (∀ k v, k ≠ "updatedAt" → NoDup (own_properties (JObj [("quantity", JNum 8)])).*1 →
              (k, v) ∈ own_properties (JObj [("quantity", JNum 8)]) →
              field k fields = Some v)
    ∧ (∀ k, k ≠ "updatedAt" → k ∉ (own_properties (JObj [("quantity", JNum 8)])).*1 →
            NoDup (own_properties (holding "b2" "MSFT" 5)).*1 →
            field k fields = field k (own_properties (holding "b2" "MSFT" 5))).
Proof.
  apply (@update_rewrites_first_match MiniJSON.codec (@portfolio MiniJSON.codec)
           (@portfolioStorage.update MiniJSON.codec) (JStr "b2")
           (JObj [("quantity", JNum 8)]) "2024-01-02T00:00:00.000Z"
           [holding "a1" "IBM" 3; holding "b2" "MSFT" 5] 1%nat (holding "b2" "MSFT" 5)).
  - by left.
  - reflexivity.
  - by vm_compute.
  - reflexivity.
  - reflexivity.
  - intros [|j] h' Hj Hh'; [|lia]. apply (inj Some) in Hh'. subst h'. by split.
  - vm_compute. discriminate.
  - vm_compute. reflexivity.
Defined.

(** X29: after [storageUtils.clearAll] every loader returns its
    default, whatever was stored, and the items stored under other
    keys than the six of [STORAGE_KEYS] are untouched. *)
Theorem clearAll_restores_defaults `{JSON} (ls : localStorage) :
  (storageUtils.clearAll ls).1 = true
  ∧ Storage.portfolioStorage.load (storageUtils.clearAll ls).2 = JArr []
  ∧ Storage.transactionStorage.load (storageUtils.clearAll ls).2 = JArr []
  ∧ Storage.expenseStorage.load (storageUtils.clearAll ls).2 = JArr []
  ∧ Storage.goalStorage.load (storageUtils.clearAll ls).2 = JArr []
  ∧ Storage.settingsStorage.load (storageUtils.clearAll ls).2 = settingsStorage.defaults
  ∧ Storage.cacheStorage.load (storageUtils.clearAll ls).2
    = JObj [("stockPrices", JObj []); ("exchangeRates", JObj []); ("news", JObj [])]
  ∧ (∀ k, k ∉ [STORAGE_KEYS.PORTFOLIO; STORAGE_KEYS.TRANSACTIONS; STORAGE_KEYS.EXPENSES;
               STORAGE_KEYS.GOALS; STORAGE_KEYS.SETTINGS; STORAGE_KEYS.CACHE] →
          getItem k (storageUtils.clearAll ls).2 = getItem k ls).
Proof.
  unfold storageUtils.clearAll, portfolioStorage.clear, transactionStorage.clear,
    expenseStorage.clear, goalStorage.clear, settingsStorage.clear, cacheStorage.clear,
    removeItem. cbv zeta. cbn [fst snd].
  unfold Storage.portfolioStorage.load, Storage.transactionStorage.load,
    Storage.expenseStorage.load, Storage.goalStorage.load, Storage.settingsStorage.load,
    Storage.cacheStorage.load, getItem. cbv zeta.
  split_and!; [done|..].
  1-6: rewrite ?lookup_delete_eq, ?(lookup_delete_ne _ _ _ ltac:(discriminate)),
         ?lookup_delete_eq; repeat (rewrite lookup_delete_ne by discriminate);
       rewrite ?lookup_delete_eq; reflexivity.
  intros k Hk. rewrite !not_elem_of_cons in Hk.
  destruct Hk as (? & ? & ? & ? & ? & ? & _).
  by rewrite !lookup_delete_ne.
Qed.


(** *** Export and import *)

Lemma import_section_saved `{JSON} (k key : string) (v : json) (fields : list (string * json))
    (ls : localStorage) :
  field k fields = Some v → storable v →
  import_section k (λ x ls, store_if_truthy key (safeStringify x) ls) (JObj fields) ls
  = if json_truthy v then <[key := JSON_stringify v]> ls else ls.
Proof.
  intros Hf [Hne Hrt]. unfold import_section. cbn [get_property]. rewrite Hf.
  destruct (json_truthy v); [|done]. unfold safeStringify.
  by rewrite store_if_truthy_stored.
Qed.

Lemma load_after_insert `{JSON} (key : string) (v d : json) (ls : localStorage) :
  storable v → safeParse (getItem key (<[key := JSON_stringify v]> ls)) d = v.
Proof.
  intros [Hne Hrt]. unfold getItem. rewrite lookup_insert_eq. by apply safeParse_stored.
Qed.

(** X30: [importData] applied to what [exportData] returned, into any
    store: it returns true, and afterwards each of the four record
    loaders returns what it returned in the exported store (or, when
    that value was falsy, what the target store had), the settings
    read as in the exported store, and the items under other keys of
    the target store, the API cache included, are untouched.  The
    five exported values are assumed to be ones the platform writes as
    non-empty texts and reads back. *)
Theorem import_of_export `{JSON} (now : string) (ls ls' : localStorage) :
  storable (Storage.portfolioStorage.load ls) →
  storable (Storage.transactionStorage.load ls) →
  storable (Storage.expenseStorage.load ls) →
  storable (Storage.goalStorage.load ls) →
  storable (Storage.settingsStorage.load ls) →
  (storageUtils.importData (storageUtils.exportData now ls) ls').1 = true
  ∧ Storage.portfolioStorage.load
      (storageUtils.importData (storageUtils.exportData now ls) ls').2
    = (if json_truthy (Storage.portfolioStorage.load ls)
       then Storage.portfolioStorage.load ls else Storage.portfolioStorage.load ls')
  ∧ Storage.transactionStorage.load
      (storageUtils.importData (storageUtils.exportData now ls) ls').2
    = (if json_truthy (Storage.transactionStorage.load ls)
       then Storage.transactionStorage.load ls else Storage.transactionStorage.load ls')
  ∧ Storage.expenseStorage.load
      (storageUtils.importData (storageUtils.exportData now ls) ls').2
    = (if json_truthy (Storage.expenseStorage.load ls)
       then Storage.expenseStorage.load ls else Storage.expenseStorage.load ls')
  ∧ Storage.goalStorage.load
      (storageUtils.importData (storageUtils.exportData now ls) ls').2
    = (if json_truthy (Storage.goalStorage.load ls)
       then Storage.goalStorage.load ls else Storage.goalStorage.load ls')
  ∧ (∀ key, settingsStorage.get key
              (storageUtils.importData (storageUtils.exportData now ls) ls').2
            = settingsStorage.get key ls)
  ∧ (∀ k, k ∉ [STORAGE_KEYS.PORTFOLIO; STORAGE_KEYS.TRANSACTIONS; STORAGE_KEYS.EXPENSES;
               STORAGE_KEYS.GOALS; STORAGE_KEYS.SETTINGS] →
          getItem k (storageUtils.importData (storageUtils.exportData now ls) ls').2
          = getItem k ls').
Proof.
  intros Hp Ht He Hg Hs.
  unfold storageUtils.importData, storageUtils.exportData. cbv zeta. cbn [fst snd].
  unfold Storage.portfolioStorage.save, Storage.transactionStorage.save,
    Storage.expenseStorage.save, Storage.goalStorage.save, Storage.settingsStorage.save.
  rewrite (import_section_saved "portfolio" STORAGE_KEYS.PORTFOLIO
             (Storage.portfolioStorage.load ls)) by done.
  rewrite (import_section_saved "transactions" STORAGE_KEYS.TRANSACTIONS
             (Storage.transactionStorage.load ls)) by done.
  rewrite (import_section_saved "expenses" STORAGE_KEYS.EXPENSES
             (Storage.expenseStorage.load ls)) by done.
  rewrite (import_section_saved "goals" STORAGE_KEYS.GOALS
             (Storage.goalStorage.load ls)) by done.
  rewrite (import_section_saved "settings" STORAGE_KEYS.SETTINGS
             (Storage.settingsStorage.load ls)) by done.
  change (json_truthy (Storage.settingsStorage.load ls)) with true. cbv iota.
  set (p := Storage.portfolioStorage.load ls) in *.
  set (t := Storage.transactionStorage.load ls) in *.
  set (e := Storage.expenseStorage.load ls) in *.
  set (g := Storage.goalStorage.load ls) in *.
  split_and!.
  - done.
  - unfold Storage.portfolioStorage.load at 1, getItem. cbv zeta.
    rewrite !lookup_insert_ne by done.
    destruct (json_truthy g), (json_truthy e), (json_truthy t);
      rewrite ?lookup_insert_ne by done;
      (destruct (json_truthy p); [by apply load_after_insert|done]).
  - unfold Storage.transactionStorage.load at 1, getItem. cbv zeta.
    rewrite !lookup_insert_ne by done.
    destruct (json_truthy g), (json_truthy e);
      rewrite ?lookup_insert_ne by done;
      (destruct (json_truthy t);
       [by apply load_after_insert
       |by destruct (json_truthy p); rewrite ?lookup_insert_ne by done]).
  - unfold Storage.expenseStorage.load at 1, getItem. cbv zeta.
    rewrite !lookup_insert_ne by done.
    destruct (json_truthy g);
      rewrite ?lookup_insert_ne by done;
      (destruct (json_truthy e);
       [by apply load_after_insert
       |by destruct (json_truthy t), (json_truthy p); rewrite ?lookup_insert_ne by done]).
  - unfold Storage.goalStorage.load at 1, getItem. cbv zeta.
    rewrite !lookup_insert_ne by done.
    destruct (json_truthy g);
      [by apply load_after_insert
      |by destruct (json_truthy e), (json_truthy t), (json_truthy p);
          rewrite ?lookup_insert_ne by done].
  - intros key. unfold settingsStorage.get, read. cbv zeta.
    rewrite field_settings, load_after_insert by done.
    destruct (settings_fields_spec ls) as [-> _]. cbn [own_properties].
    rewrite field_rev by apply settings_fields_NoDup.
    destruct (field key (settingsStorage.settings_fields ls)) as [v|] eqn:E; [done|].
    rewrite field_settings in E. destruct (field key (rev _)); [done|]. by rewrite E.
  - intros k Hk. rewrite !not_elem_of_cons in Hk.
    destruct Hk as (? & ? & ? & ? & ? & _). unfold getItem.
    rewrite lookup_insert_ne by done.
    destruct (json_truthy g), (json_truthy e), (json_truthy t), (json_truthy p);
      by rewrite ?lookup_insert_ne by done.
Qed.

Lemma import_of_export_witness :
  (@storageUtils.importData MiniJSON.codec
         (@storageUtils.exportData MiniJSON.codec "2024-01-02T00:00:00.000Z"
            (@holdings_store MiniJSON.codec)) ∅).1 = true
  ∧ @Storage.portfolioStorage.load MiniJSON.codec
      (@storageUtils.importData MiniJSON.codec
         (@storageUtils.exportData MiniJSON.codec "2024-01-02T00:00:00.000Z"
            (@holdings_store MiniJSON.codec)) ∅).2
    = (if json_truthy (@Storage.portfolioStorage.load MiniJSON.codec (@holdings_store MiniJSON.codec))
       then @Storage.portfolioStorage.load MiniJSON.codec (@holdings_store MiniJSON.codec)
       else @Storage.portfolioStorage.load MiniJSON.codec ∅)
  ∧ @Storage.transactionStorage.load MiniJSON.codec
      (@storageUtils.importData MiniJSON.codec
         (@storageUtils.exportData MiniJSON.codec "2024-01-02T00:00:00.000Z"
            (@holdings_store MiniJSON.codec)) ∅).2
    = (if json_truthy (@Storage.transactionStorage.load MiniJSON.codec (@holdings_store MiniJSON.codec))
       then @Storage.transactionStorage.load MiniJSON.codec (@holdings_store MiniJSON.codec)
       else @Storage.transactionStorage.load MiniJSON.codec ∅)
  ∧ @Storage.expenseStorage.load MiniJSON.codec
      (@storageUtils.importData MiniJSON.codec
         (@storageUtils.exportData MiniJSON.codec "2024-01-02T00:00:00.000Z"
            (@holdings_store MiniJSON.codec)) ∅).2
    = (if json_truthy (@Storage.expenseStorage.load MiniJSON.codec (@holdings_store MiniJSON.codec))
       then @Storage.expenseStorage.load MiniJSON.codec (@holdings_store MiniJSON.codec)
       else @Storage.expenseStorage.load MiniJSON.codec ∅)
  ∧ @Storage.goalStorage.load MiniJSON.codec
      (@storageUtils.importData MiniJSON.codec
         (@storageUtils.exportData MiniJSON.codec "2024-01-02T00:00:00.000Z"
            (@holdings_store MiniJSON.codec)) ∅).2
    = (if json_truthy (@Storage.goalStorage.load MiniJSON.codec (@holdings_store MiniJSON.codec))
       then @Storage.goalStorage.load MiniJSON.codec (@holdings_store MiniJSON.codec)
       else @Storage.goalStorage.load MiniJSON.codec ∅)
  ∧ (∀ key, @settingsStorage.get MiniJSON.codec key
              (@storageUtils.importData MiniJSON.codec
         (@storageUtils.exportData MiniJSON.codec "2024-01-02T00:00:00.000Z"
            (@holdings_store MiniJSON.codec)) ∅).2
            = @settingsStorage.get MiniJSON.codec key (@holdings_store MiniJSON.codec))
  ∧ (∀ k, k ∉ [STORAGE_KEYS.PORTFOLIO; STORAGE_KEYS.TRANSACTIONS; STORAGE_KEYS.EXPENSES;
               STORAGE_KEYS.GOALS; STORAGE_KEYS.SETTINGS] →
          getItem k (@storageUtils.importData MiniJSON.codec
         (@storageUtils.exportData MiniJSON.codec "2024-01-02T00:00:00.000Z"
            (@holdings_store MiniJSON.codec)) ∅).2
          = getItem k ∅).
Proof.
  apply (@import_of_export MiniJSON.codec "2024-01-02T00:00:00.000Z"
           (@holdings_store MiniJSON.codec) ∅).
  all: split; [vm_compute; discriminate|vm_compute; reflexivity].
Defined.

End StorageOpsFacts.
